(** * Sandstorm shell: session proxy and capability-token gateway

    A shallow embedding of the parts of [shell/server/proxy.js] and
    [shell/packages/sandstorm-db/db.js] that decide the properties
    proved below: the per-token API host id, [validateWebkey], the backend
    health check, [getProxyForHostId], the [ApiSessionProxies] cache and
    the [Proxy] class (close, retry, request handling).

    JavaScript objects used as maps are [gmap]s; mutable objects reached
    through several references live in an explicit store; exceptions are
    values of a result type; calls to the outside world (sockets, RPC
    capabilities, the backend) are recorded in an event trace. *)

From Stdlib Require Import ZArith String Ascii List Bool Lia DecimalString.
From stdpp Require Import gmap strings list fin_maps.

Local Open Scope Z_scope.

(* ===================================================================== *)
(** ** JavaScript strings *)
(* ===================================================================== *)

Module Js.

(** [s.slice(b, e)] for [0 <= b <= e]. *)
Definition slice (b e : nat) (s : string) : string :=
  String.substring b (e - b) s.

(** The bytes a hash is fed for a string (tokens are ASCII, so the hashed
    bytes are the characters, under every encoding node has used). *)
Definition bytes_of_string (s : string) : list Z :=
  map (fun c => Z.of_N (N_of_ascii c)) (list_ascii_of_string s).

(** Truthiness of a field that holds an object or a date when it is set. *)
Definition truthy {A} (o : option A) : bool :=
  match o with Some _ => true | None => false end.

(** Truthiness of a field that holds a string when it is set: the empty
    string is falsy. *)
Definition truthy_string (o : option string) : bool :=
  match o with Some s => negb (String.eqb s "") | None => false end.

(** [String(n)] for an integer. *)
Definition decimal (n : Z) : string := NilEmpty.string_of_int (Z.to_int n).

End Js.

(* ===================================================================== *)
(** ** SHA-256 (FIPS 180-4), the hash behind [Crypto.createHash("sha256")]
       and the client-side [SHA256] package *)
(* ===================================================================== *)

Module SHA256.

Definition wrap (x : Z) : Z := Z.land x 0xFFFFFFFF.
Definition add32 (a b : Z) : Z := wrap (a + b).
Definition not32 (a : Z) : Z := Z.lxor a 0xFFFFFFFF.
Definition rotr (n x : Z) : Z :=
  wrap (Z.lor (Z.shiftr x n) (Z.shiftl x (32 - n))).
Definition shr (n x : Z) : Z := Z.shiftr x n.

Definition Ch (x y z : Z) : Z := Z.lxor (Z.land x y) (Z.land (not32 x) z).
Definition Maj (x y z : Z) : Z :=
  Z.lxor (Z.lxor (Z.land x y) (Z.land x z)) (Z.land y z).
Definition Sigma0 (x : Z) : Z := Z.lxor (Z.lxor (rotr 2 x) (rotr 13 x)) (rotr 22 x).
Definition Sigma1 (x : Z) : Z := Z.lxor (Z.lxor (rotr 6 x) (rotr 11 x)) (rotr 25 x).
Definition sigma0 (x : Z) : Z := Z.lxor (Z.lxor (rotr 7 x) (rotr 18 x)) (shr 3 x).
Definition sigma1 (x : Z) : Z := Z.lxor (Z.lxor (rotr 17 x) (rotr 19 x)) (shr 10 x).

(** The constants are not tabulated but derived as the standard defines
    them, from the first primes: the first 32 bits of the fractional parts
    of their cube roots (round constants) and of their square roots
    (initial hash value). *)
Definition is_prime (n : nat) : bool :=
  forallb (fun d => negb (n mod d =? 0)%nat) (seq 2 (n - 2)).

Definition primes (count : nat) : list Z :=
  map Z.of_nat (firstn count (List.filter is_prime (seq 2 310))).

(** Integer cube root, bit by bit from the top. *)
Definition cube_root (n : Z) : Z :=
  fold_left (fun r bit => let c := r + 2 ^ bit in if c * c * c <=? n then c else r)
            (map Z.of_nat (rev (seq 0 40))) 0.

Definition fraction_bits (root : Z -> Z) (shift : Z) (p : Z) : Z :=
  wrap (root (p * 2 ^ shift)).

Definition K : list Z :=
  Eval vm_compute in map (fraction_bits cube_root 96) (primes 64).

(** The eight working variables / the running hash value. *)
Record state := State
  { h0 : Z; h1 : Z; h2 : Z; h3 : Z; h4 : Z; h5 : Z; h6 : Z; h7 : Z }.

Definition initial : state :=
  Eval vm_compute in
    match map (fraction_bits Z.sqrt 64) (primes 8) with
    | [a; b; c; d; e; f; g; h] => State a b c d e f g h
    | _ => State 0 0 0 0 0 0 0 0
    end.

(** Padding: a 1 bit, zeros up to 56 mod 64 bytes, the bit length on 64 bits. *)
Definition be_bytes (n : nat) (x : Z) : list Z :=
  map (fun i => Z.land (Z.shiftr x (8 * Z.of_nat i)) 0xFF) (rev (seq 0 n)).

Definition pad (msg : list Z) : list Z :=
  let len := Z.of_nat (List.length msg) in
  msg ++ [0x80] ++ repeat 0 (Z.to_nat ((55 - len) mod 64)) ++ be_bytes 8 (8 * len).

Definition be_word (b : list Z) : Z :=
  fold_left (fun acc x => Z.lor (Z.shiftl acc 8) x) b 0.

(** Cut a byte list into [n] big-endian 32-bit words. *)
Fixpoint words (n : nat) (b : list Z) : list Z :=
  match n with
  | O => []
  | S n' => be_word (firstn 4 b) :: words n' (skipn 4 b)
  end.

(** Message schedule: [w] holds W_0 .. W_(t-1); append [n] more words. *)
Fixpoint extend (n : nat) (w : list Z) : list Z :=
  match n with
  | O => w
  | S n' =>
      let t := List.length w in
      let at_ i := nth (t - i) w 0 in
      extend n' (w ++ [add32 (add32 (sigma1 (at_ 2%nat)) (at_ 7%nat))
                             (add32 (sigma0 (at_ 15%nat)) (at_ 16%nat))])
  end.

Definition round (s : state) (kw : Z * Z) : state :=
  let '(k, w) := kw in
  let t1 := add32 (add32 (add32 (h7 s) (Sigma1 (h4 s))) (Ch (h4 s) (h5 s) (h6 s)))
                  (add32 k w) in
  let t2 := add32 (Sigma0 (h0 s)) (Maj (h0 s) (h1 s) (h2 s)) in
  State (add32 t1 t2) (h0 s) (h1 s) (h2 s) (add32 (h3 s) t1) (h4 s) (h5 s) (h6 s).

Definition compress (s : state) (block : list Z) : state :=
  let w := extend 48 (words 16 block) in
  let r := fold_left round (combine K w) s in
  State (add32 (h0 s) (h0 r)) (add32 (h1 s) (h1 r)) (add32 (h2 s) (h2 r))
        (add32 (h3 s) (h3 r)) (add32 (h4 s) (h4 r)) (add32 (h5 s) (h5 r))
        (add32 (h6 s) (h6 r)) (add32 (h7 s) (h7 r)).

(** Process [n] 64-byte blocks. *)
Fixpoint blocks (n : nat) (s : state) (b : list Z) : state :=
  match n with
  | O => s
  | S n' => blocks n' (compress s (firstn 64 b)) (skipn 64 b)
  end.

Definition hash (msg : list Z) : state :=
  let p := pad msg in
  blocks (List.length p / 64) initial p.

(** The 32 digest bytes. *)
Definition digest (msg : list Z) : list Z :=
  let s := hash msg in
  be_bytes 4 (h0 s) ++ be_bytes 4 (h1 s) ++ be_bytes 4 (h2 s) ++ be_bytes 4 (h3 s) ++
  be_bytes 4 (h4 s) ++ be_bytes 4 (h5 s) ++ be_bytes 4 (h6 s) ++ be_bytes 4 (h7 s).

End SHA256.

(** Lower-case hexadecimal, two characters a byte: [digest("hex")]. *)
Module Hex.

Definition digit (n : Z) : ascii :=
  match n with
  | 0 => "0" | 1 => "1" | 2 => "2" | 3 => "3" | 4 => "4" | 5 => "5" | 6 => "6"
  | 7 => "7" | 8 => "8" | 9 => "9" | 10 => "a" | 11 => "b" | 12 => "c"
  | 13 => "d" | 14 => "e" | _ => "f"
  end%char.

Fixpoint encode (b : list Z) : string :=
  match b with
  | [] => EmptyString
  | x :: b' =>
      String (digit (Z.land (Z.shiftr x 4) 15)) (String (digit (Z.land x 15)) (encode b'))
  end.

Definition is_digit (c : ascii) : bool :=
  existsb (Ascii.eqb c) (list_ascii_of_string "0123456789abcdef").

End Hex.

(** [Crypto.createHash("sha256").update(s).digest("hex")]; the client-side
    [SHA256(s)] returns the same string. *)
Definition sha256_hex (s : string) : string :=
  Hex.encode (SHA256.digest (Js.bytes_of_string s)).

(* ===================================================================== *)
(** ** db.js: API host ids *)
(* ===================================================================== *)

Module SandstormDb.

(** [apiHostIdHashForToken]: the server and the client branch compute the
    same string, [sha256("x" + token)] in hex cut to 32 characters. *)
Definition apiHostIdHashForToken (token : string) : string :=
  Js.slice 0 32 (sha256_hex ("x" +:+ token)).

Definition apiHostIdForToken (token : string) : string :=
  "api-" +:+ apiHostIdHashForToken token.

End SandstormDb.

(** The host id as the specification words it: the hash applied twice,
    cut to 128 bits, in hex.  The inner hash is passed on either as its
    raw 32 bytes or as its hex string. *)
Definition spec_doubleHashHostId (inner_as_hex : bool) (token : string) : string :=
  let inner := SHA256.digest (Js.bytes_of_string ("x" +:+ token)) in
  let outer :=
    SHA256.digest (if inner_as_hex then Js.bytes_of_string (Hex.encode inner) else inner) in
  "api-" +:+ Hex.encode (firstn 16 outer).


(* ===================================================================== *)
(** ** Exceptions *)
(* ===================================================================== *)

(** A thrown value.  [meteor] is [Some (error, reason)] for an instance of
    [Meteor.Error]; [kjType] is the Cap'n Proto exception type carried by
    errors that come out of an RPC ("failed", "disconnected",
    "unimplemented", ...). *)
Record JsError := mkError
  { meteor : option (Z * string);
    kjType : option string;
    message : string }.

(** [new Meteor.Error(error, reason)]: Meteor sets the message to the
    reason followed by the error code in brackets. *)
Definition Meteor_Error (error : Z) (reason : string) : JsError :=
  mkError (Some (error, reason)) None
          (if String.eqb reason "" then "[" +:+ Js.decimal error +:+ "]"
           else reason +:+ " [" +:+ Js.decimal error +:+ "]").

(** [new Error(message)]. *)
Definition Error (message : string) : JsError := mkError None None message.

(** An exception raised by an RPC peer. *)
Definition KjError (type : string) (message : string) : JsError :=
  mkError None (Some type) message.

Inductive result (A : Type) : Type :=
  | Returns (a : A)
  | Throws (e : JsError).
Arguments Returns {A} a.
Arguments Throws {A} e.

Definition Handle := positive.

(* ===================================================================== *)
(** ** ApiTokens and [validateWebkey] (proxy.js) *)
(* ===================================================================== *)

(** The fields of an [ApiTokens] document that the gateway reads.  Dates
    are milliseconds ([getTime()]); an absent, [undefined] or [null] field
    is [None].  [owner] lists the field names of the owner object. *)
Record ApiToken := mkApiToken
  { _id : string;
    grainId : option string;
    tokenIdentityId : option string;
    forSharing : bool;
    revoked : bool;
    owner : option (list string);
    expires : option Z;
    expiresIfUnused : option Z;
    objectId : option string;
    frontendRef : option string }.

Definition set_expiresIfUnused (v : option Z) (t : ApiToken) : ApiToken :=
  mkApiToken (_id t) (grainId t) (tokenIdentityId t) (forSharing t) (revoked t)
             (owner t) (expires t) v (objectId t) (frontendRef t).

(** The collection, keyed by [_id]. *)
Abbreviation ApiTokensCollection := (gmap string ApiToken).

(** [ApiTokens.findOne(id)]. *)
Definition ApiTokens_findOne (id : string) (db : ApiTokensCollection) : option ApiToken :=
  db !! id.

(** [ApiTokens.update(id, { $set: { expiresIfUnused: v } })]: changes that
    field of the stored document, if there is one. *)
Definition ApiTokens_update_expiresIfUnused
    (id : string) (v : option Z) (db : ApiTokensCollection) : ApiTokensCollection :=
  alter (set_expiresIfUnused v) id db.

(** Every document is stored under its own [_id]. *)
Definition ApiTokens_wf (db : ApiTokensCollection) : Prop :=
  forall k t, db !! k = Some t -> _id t = k.

(** The six [throw] statements of [validateWebkey], in source order.  The
    fourth and the fifth throw the same [Meteor.Error]. *)
Inductive WebkeyFailure :=
  | InvalidToken
  | TokenRevoked
  | NonWebkeyOwner
  | TokenExpired
  | TokenExpiredUnused
  | NonWebviewCapability.

Definition thrown (f : WebkeyFailure) : JsError :=
  match f with
  | InvalidToken => Meteor_Error 403 "Invalid authorization token"
  | TokenRevoked => Meteor_Error 403 "Authorization token has been revoked"
  | NonWebkeyOwner => Meteor_Error 403 "Unauthorized to open non-webkey token."
  | TokenExpired => Meteor_Error 403 "Authorization token expired"
  | TokenExpiredUnused => Meteor_Error 403 "Authorization token expired"
  | NonWebviewCapability => Meteor_Error 403 "ApiToken refers to a non-webview Capability."
  end.

(** ["webkey" in apiToken.owner]. *)
Definition has_webkey (keys : list string) : bool :=
  existsb (String.eqb "webkey") keys.

(** The [if (apiToken.expiresIfUnused)] statement of [validateWebkey].
    [now] is the value of [Date.now()] read there. *)
Definition checkUnused
    (t : ApiToken) (refreshedExpiration : option Z) (now : Z)
    (db : ApiTokensCollection) : option WebkeyFailure * ApiTokensCollection :=
  match expiresIfUnused t with
  | Some unused =>
      if unused <=? now then (Some TokenExpiredUnused, db)
      else
        match refreshedExpiration with
        | Some d => (None, ApiTokens_update_expiresIfUnused (_id t) (Some d) db)
        | None =>
            (* It's getting used now, so clear the expiresIfUnused field. *)
            (None, ApiTokens_update_expiresIfUnused (_id t) None db)
        end
  | None => (None, db)
  end.

(** [validateWebkey(apiToken, refreshedExpiration)].  [now0] and [now] are
    the two readings of [Date.now()], at the [expires] and at the
    [expiresIfUnused] test.  The result is the [throw] reached, if any, and
    the collection afterwards. *)
Definition validateWebkey
    (apiToken : option ApiToken) (refreshedExpiration : option Z) (now0 now : Z)
    (db : ApiTokensCollection) : option WebkeyFailure * ApiTokensCollection :=
  match apiToken with
  | None => (Some InvalidToken, db)
  | Some t =>
      if revoked t then (Some TokenRevoked, db)
      else if match owner t with Some o => negb (has_webkey o) | None => false end
      then (Some NonWebkeyOwner, db)
      else if match expires t with Some e => e <=? now0 | None => false end
      then (Some TokenExpired, db)
      else
        match checkUnused t refreshedExpiration now db with
        | (Some f, db') => (Some f, db')
        | (None, db') =>
            if Js.truthy (objectId t) || Js.truthy (frontendRef t)
            then (Some NonWebviewCapability, db')
            else (None, db')
        end
  end.

(** What every caller does: look the token up by its hash, then validate
    the document found ([openSessionFromApiToken], [getProxyForApiToken],
    the token keep-alive of [tryProxyRequest]). *)
Definition validateToken
    (hashedToken : string) (refreshedExpiration : option Z) (now0 now : Z)
    (db : ApiTokensCollection) : option WebkeyFailure * ApiTokensCollection :=
  validateWebkey (ApiTokens_findOne hashedToken db) refreshedExpiration now0 now db.

(** One later use of the collection by the validator: some token, some
    refresh deadline, some time. *)
Record Validation := mkValidation
  { v_token : string; v_refresh : option Z; v_now0 : Z; v_now : Z }.

Definition validate_step (v : Validation) (db : ApiTokensCollection) :=
  validateToken (v_token v) (v_refresh v) (v_now0 v) (v_now v) db.

(** The collection after a series of validations. *)
Definition validate_all (vs : list Validation) (db : ApiTokensCollection)
  : ApiTokensCollection :=
  fold_left (fun d v => snd (validate_step v d)) vs db.

(* ===================================================================== *)
(** ** The backend health check (proxy.js, [Meteor.setInterval(..., 30000)]) *)
(* ===================================================================== *)

Module Health.

Record state := State
  { backendHealthy : bool;
    disconnectCount : Z;
    reconnects : nat   (* connections remade so far *) }.

Definition initial : state := State true 0 0.

(** One run of the interval callback.  [None]: [process.abort()] was
    called.  Otherwise the state once the callback has returned: the
    connection was remade if the last ping is still unanswered, and a new
    ping is in flight with [backendHealthy = false]. *)
Definition tick (s : state) : option state :=
  if negb (backendHealthy s) then
    if 2 <? disconnectCount s                     (* disconnectCount++ > 2 *)
    then None
    else Some (State false (disconnectCount s + 1) (S (reconnects s)))
  else Some (State false (disconnectCount s) (reconnects s)).

(** The ping sent by the callback resolves before the next tick
    ([answered = true]: [backendHealthy = true]) or does not (no answer, or
    the promise is rejected: nothing changes). *)
Definition ping (answered : bool) (s : state) : state :=
  if answered then State true (disconnectCount s) (reconnects s) else s.

(** The process over a series of ticks; [pings] tells, tick by tick,
    whether the ping sent in that tick is answered within the 30 seconds. *)
Fixpoint run (pings : list bool) (s : state) : option state :=
  match pings with
  | [] => Some s
  | answered :: rest =>
      match tick s with
      | None => None
      | Some s' => run rest (ping answered s')
      end
  end.

(** Number of unanswered pings in a series. *)
Definition failures (pings : list bool) : nat :=
  List.length (List.filter negb pings).

End Health.

(* ===================================================================== *)
(** ** The [Proxy] class (proxy.js) *)
(* ===================================================================== *)

(** Calls that leave the process: what a socket, a capability or the
    backend is asked to do, in the order it is asked. *)
Inductive Event :=
  | SocketDestroy (socketIdx : string) (socket : Handle)   (* websockets[idx].destroy() *)
  | SessionClose (h : Handle)                              (* this.session.close() *)
  | UiViewClose (h : Handle)                               (* this.uiView.close() *)
  | SupervisorClose (h : Handle)                           (* this.supervisor.close() *)
  | GetGrain (ownerId grainId : string) (h : Handle)       (* cap().getGrain(..).supervisor *)
  | GetMainView (h : Handle)                               (* supervisor.getMainView().view *)
  | NewSession (h : Handle)                                (* getViewInfo / newSession *)
  | ContinueGrain (grainId : string)                       (* globalBackend.continueGrain *)
  | SessionCall (method : string)                          (* session.get, .post, ... *)
  | SetHasLoaded.                                          (* Sessions.update hasLoaded *)

Record Identity := mkIdentity
  { identity_id : string;
    profile_name : string;
    profile_handle : string;
    profile_pictureUrl : option string;
    profile_pronoun : option string }.

Record UserInfo := mkUserInfo
  { displayName : string;
    preferredHandle : string;
    userIdentityId : option string;
    pictureUrl : option string;
    pronouns : option string }.

(** The fields of a Proxy object.  A field that is absent, [undefined] or
    [null] is [None] (the code only ever tests these fields for
    truthiness). *)
Record Proxy := mkProxy
  { p_grainId : string;
    p_ownerId : string;
    p_identityId : option string;
    supervisor : option Handle;
    uiView : option Handle;
    session : option Handle;
    sessionId : option string;
    hostId : option string;
    isApi : bool;
    hasLoaded : bool;
    websockets : gmap string Handle;
    websocketCounter : N;
    userInfo : UserInfo;
    apiToken : option ApiToken;
    p_expires : option Z }.

Definition set_handles (sup ui ses : option Handle) (ws : gmap string Handle) (p : Proxy)
  : Proxy :=
  mkProxy (p_grainId p) (p_ownerId p) (p_identityId p) sup ui ses
          (sessionId p) (hostId p) (isApi p) (hasLoaded p) ws (websocketCounter p)
          (userInfo p) (apiToken p) (p_expires p).

Definition set_hasLoaded (b : bool) (p : Proxy) : Proxy :=
  mkProxy (p_grainId p) (p_ownerId p) (p_identityId p) (supervisor p) (uiView p)
          (session p) (sessionId p) (hostId p) (isApi p) b (websockets p)
          (websocketCounter p) (userInfo p) (apiToken p) (p_expires p).

Definition set_apiToken (t : option ApiToken) (p : Proxy) : Proxy :=
  mkProxy (p_grainId p) (p_ownerId p) (p_identityId p) (supervisor p) (uiView p)
          (session p) (sessionId p) (hostId p) (isApi p) (hasLoaded p) (websockets p)
          (websocketCounter p) (userInfo p) t (p_expires p).

Module ProxyClass.

(** [new Proxy(grainId, ownerId, sessionId, hostId, identityId, isApi,
    supervisor)]; [identities] is what [globalDb.getIdentity] reads. *)
Definition new (identities : gmap string Identity)
    (grainId ownerId : string) (sessionId hostId identityId : option string)
    (isApi : bool) (supervisor : option Handle) : result Proxy :=
  let build (host : option string) (info : UserInfo) :=
    Returns (mkProxy grainId ownerId identityId supervisor None None sessionId host
                     isApi false ∅ 0%N info None None) in
  let withUser (host : option string) :=
    if Js.truthy_string identityId then
      match identityId ≫= (fun i => identities !! i) with
      | None => Throws (Error ("identity not found: " +:+ default "" identityId))
      | Some identity =>
          build host (mkUserInfo (profile_name identity) (profile_handle identity)
                                 (Some (identity_id identity))
                                 (if Js.truthy_string (profile_pictureUrl identity)
                                  then profile_pictureUrl identity else None)
                                 (if Js.truthy_string (profile_pronoun identity)
                                  then profile_pronoun identity else None))
      end
    else build host (mkUserInfo "Anonymous User" "anonymous" None None None) in
  if Js.truthy_string sessionId then
    if negb (Js.truthy_string hostId) then Throws (Error "sessionId must come with hostId")
    else if isApi then Throws (Error "API proxy shouldn't have sessionId")
    else withUser hostId
  else
    if negb isApi then Throws (Error "non-API proxy requires sessionId")
    else if Js.truthy_string hostId then Throws (Error "API proxy sholudn't have hostId")
    else withUser None.

(** The [close()] calls made on a field that holds a capability. *)
Definition release (ev : Handle -> Event) (field : option Handle) : list Event :=
  match field with Some h => [ev h] | None => [] end.

(** [close()]: the proxy afterwards and the calls made, in order. *)
Definition close (p : Proxy) : Proxy * list Event :=
  (set_handles None None None ∅ p,
   map (fun kv => SocketDestroy (fst kv) (snd kv)) (map_to_list (websockets p))
   ++ release SessionClose (session p)
   ++ release UiViewClose (uiView p)
   ++ release SupervisorClose (supervisor p)).

(** [resetConnection()]. *)
Definition resetConnection (p : Proxy) : Proxy * list Event :=
  (set_handles None None None (websockets p) p,
   release SessionClose (session p)
   ++ release UiViewClose (uiView p)
   ++ release SupervisorClose (supervisor p)).

(** [Object.keys(proxy.websockets).length > 0]. *)
Definition hasWebsockets (p : Proxy) : bool :=
  (0 <? size (websockets p))%nat.

End ProxyClass.

(* ===================================================================== *)
(** ** The store of Proxy objects *)
(* ===================================================================== *)

(** Proxies are shared: a table entry, a cache bucket and the handlers in
    flight hold references to the same object, and [close()] mutates it.
    The store maps a reference to the object's current fields. *)
Definition ProxyRef := positive.
Abbreviation Store := (gmap ProxyRef Proxy).

(** [r.close()] on the object behind [r]. *)
Definition close_ref (r : ProxyRef) (store : Store) : Store * list Event :=
  match store !! r with
  | Some p => (<[r := fst (ProxyClass.close p)]> store, snd (ProxyClass.close p))
  | None => (store, [])
  end.

(* ===================================================================== *)
(** ** [class ApiSessionProxies] (proxy.js) *)
(* ===================================================================== *)

Module ApiSessionProxies.

(** A bucket: hashed token, then hashed params, to a proxy.  The keys are
    base64 SHA-256 digests, never a name that a JavaScript object
    inherits. *)
Abbreviation Bucket := (gmap string (gmap string ProxyRef)).

Record t := Cache { newBucket : Bucket; oldBucket : Bucket }.

(** [bucket[hashedToken] && bucket[hashedToken][hashedParams]]. *)
Definition lookup (b : Bucket) (hashedToken hashedParams : string) : option ProxyRef :=
  b !! hashedToken ≫= (fun inner => inner !! hashedParams).

(** [put(hashedToken, hashedParams, proxy)]. *)
Definition put (hashedToken hashedParams : string) (proxy : ProxyRef) (c : t) : t :=
  let inner := default ∅ (newBucket c !! hashedToken) in
  Cache (<[hashedToken := <[hashedParams := proxy]> inner]> (newBucket c)) (oldBucket c).

(** [get(hashedToken, hashedParams)]. *)
Definition get (hashedToken hashedParams : string) (c : t) : option ProxyRef * t :=
  match lookup (newBucket c) hashedToken hashedParams with
  | Some proxy => (Some proxy, c)
  | None =>
      match lookup (oldBucket c) hashedToken hashedParams with
      | Some proxy =>
          let old' := alter (delete hashedParams) hashedToken (oldBucket c) in
          (Some proxy, put hashedToken hashedParams proxy (Cache (newBucket c) old'))
      | None => (None, c)
      end
  end.

(** What a call has produced by the time it returns: the cache, the
    store and the calls made on proxies so far. *)
Record progress := Progress
  { cache : t; store : Store; closed : list ProxyRef; events : list Event }.

(** The body of the two nested [for ... in] loops of the interval
    callback, for the old-bucket entry [oldHashedToken],
    [oldHashedParams] -> [oldProxy]. *)
Definition sweepEntry (oldHashedToken oldHashedParams : string) (oldProxy : ProxyRef)
    (s : progress) : progress :=
  match lookup (newBucket (cache s)) oldHashedToken oldHashedParams with
  | Some _ => s
  | None =>
      match store s !! oldProxy with
      | Some p =>
          if ProxyClass.hasWebsockets p then
            (* A client has an open websocket. Keep the proxy around. *)
            Progress (put oldHashedToken oldHashedParams oldProxy (cache s))
                     (store s) (closed s) (events s)
          else
            (* We can close this proxy and forget about it. *)
            let '(store', evs) := close_ref oldProxy (store s) in
            Progress (cache s) store' (closed s ++ [oldProxy]) (events s ++ evs)
      | None => s
      end
  end.

Definition sweepToken (s : progress) (entry : string * gmap string ProxyRef) : progress :=
  fold_left (fun s' kv => sweepEntry (fst entry) (fst kv) (snd kv) s')
            (map_to_list (snd entry)) s.

(** The interval callback: sweep the old bucket, then rotate.  (The loops
    visit each key once; the order of the visits only shows in the order
    of the entries of [closed] and [events].) *)
Definition sweep (c : t) (st : Store) : progress :=
  let s := fold_left sweepToken (map_to_list (oldBucket c)) (Progress c st [] []) in
  Progress (Cache ∅ (newBucket (cache s))) (store s) (closed s) (events s).

(** An entry is in the cache when either bucket maps its key to it. *)
Definition cached (c : t) (hashedToken hashedParams : string) (proxy : ProxyRef) : Prop :=
  lookup (newBucket c) hashedToken hashedParams = Some proxy \/
  lookup (oldBucket c) hashedToken hashedParams = Some proxy.

(** A proxy with at least one open WebSocket. *)
Definition live (st : Store) (proxy : ProxyRef) : Prop :=
  exists p, st !! proxy = Some p /\ ProxyClass.hasWebsockets p = true.

End ApiSessionProxies.

(* ===================================================================== *)
(** ** [proxiesByHostId] and [getProxyForHostId] (proxy.js) *)
(* ===================================================================== *)

Module HostTable.

(** [const proxiesByHostId = {}] is a plain object: besides its own
    properties it answers for the names it inherits from
    [Object.prototype]. *)
Definition objectPrototypeNames : list string :=
  [ "constructor"; "hasOwnProperty"; "isPrototypeOf"; "propertyIsEnumerable";
    "toLocaleString"; "toString"; "valueOf"; "__proto__"; "__defineGetter__";
    "__defineSetter__"; "__lookupGetter__"; "__lookupSetter__" ]%string.

Definition inherited (name : string) : bool :=
  existsb (String.eqb name) objectPrototypeNames.

(** The own properties: a host id maps to [null] (a placeholder, [None])
    or to a proxy. *)
Abbreviation t := (gmap string (option ProxyRef)).

(** The value of [proxiesByHostId[hostId]]. *)
Inductive value :=
  | Undefined
  | Null
  | Inherited                  (* a member of Object.prototype: truthy *)
  | Object (proxy : ProxyRef).

Definition get (table : t) (hostId : string) : value :=
  match table !! hostId with
  | Some (Some proxy) => Object proxy
  | Some None => Null
  | None => if inherited hostId then Inherited else Undefined
  end.

(** [hostId in proxiesByHostId]. *)
Definition has (table : t) (hostId : string) : bool :=
  bool_decide (is_Some (table !! hostId)) || inherited hostId.

End HostTable.

Record Session := mkSession
  { session_id : string;
    session_hostId : string;
    session_grainId : string;
    session_identityId : option string;
    session_hashedToken : option string }.

Record Grain := mkGrain
  { grain_id : string;
    grain_userId : string }.

(** The collections read by [getProxyForHostId]. *)
Record Database := mkDatabase
  { Sessions : list Session;
    ApiTokens : gmap string ApiToken;
    Grains : gmap string Grain;
    Identities : gmap string Identity }.

(** [Sessions.findOne({ hostId: hostId })]. *)
Definition Sessions_findOne (hostId : string) (db : Database) : option Session :=
  List.find (fun s => String.eqb (session_hostId s) hostId) (Sessions db).

Module GetProxy.

(** What the promise returned by [getProxyForHostId] settles to. *)
Inductive outcome :=
  | Resolved (proxy : ProxyRef)
  | ResolvedInherited            (* proxiesByHostId[hostId] was an inherited member *)
  | ResolvedUndefined            (* not a session host *)
  | AwaitsSession                (* waits for the client to restore the session,
                                    up to SESSION_PROXY_TIMEOUT *)
  | Rejected (e : JsError).

(** First callback: the table lookup and the placeholder.  [inl]: the
    promise is settled; [inr]: the table with the placeholder stored, the
    lookups of the second callback are still to run. *)
Definition start (table : HostTable.t) (hostId : string) : outcome + HostTable.t :=
  match HostTable.get table hostId with
  | HostTable.Object proxy => inl (Resolved proxy)
  | HostTable.Inherited => inl ResolvedInherited
  | HostTable.Null | HostTable.Undefined =>
      (* Set table entry to null for now so that we can detect if it is
         concurrently deleted. *)
      inr (<[hostId := None]> table)
  end.

(** The proxy that the second callback builds, when every lookup succeeds. *)
Definition build (db : Database) (hostId : string) (session : Session)
  : result Proxy :=
  let withToken (apiToken : option ApiToken) :=
    match Grains db !! session_grainId session with
    | None => Throws (Meteor_Error 410 "Resource has been deleted")
    | Some grain =>
        match ProxyClass.new (Identities db) (grain_id grain) (grain_userId grain)
                (Some (session_id session)) (Some hostId) (session_identityId session)
                false None with
        | Throws e => Throws e
        | Returns proxy =>
            Returns (if Js.truthy apiToken then set_apiToken apiToken proxy else proxy)
        end
    end in
  if Js.truthy_string (session_hashedToken session) then
    match session_hashedToken session ≫= (fun h => ApiTokens db !! h) with
    | None => Throws (Meteor_Error 410 "ApiToken has been deleted")
    | Some apiToken => withToken (Some apiToken)
    end
  else withToken None.

(** Second callback (inside [inMeteor]), run on the table and the store as
    they are by then. *)
Definition finish (db : Database) (isAlreadyOpened : bool) (hostId : string)
    (table : HostTable.t) (store : Store) : outcome * HostTable.t * Store :=
  match Sessions_findOne hostId db with
  | None =>
      if isAlreadyOpened then (AwaitsSession, table, store)
      else (ResolvedUndefined, table, store)
  | Some session =>
      match build db hostId session with
      | Throws e => (Rejected e, table, store)
      | Returns proxy =>
          let r := fresh (dom store) in
          let store' := <[r := proxy]> store in
          (* Only add the proxy to the table if it was not concurrently
             deleted. *)
          if HostTable.has table hostId
          then (Resolved r, <[hostId := Some r]> table, store')
          else (Rejected (Meteor_Error 403 "Session was concurrently closed."),
                table, store')
      end
  end.

(** What runs between the two callbacks: other handlers may change the
    table (the [Sessions] observer and the revocation watcher delete
    entries, [openSession] stores new ones). *)
Definition getProxyForHostId (db : Database) (isAlreadyOpened : bool) (hostId : string)
    (interleaved : HostTable.t -> HostTable.t)
    (table : HostTable.t) (store : Store) : outcome * HostTable.t * Store :=
  match start table hostId with
  | inl o => (o, table, store)
  | inr table' => finish db isAlreadyOpened hostId (interleaved table') store
  end.

End GetProxy.

(* ===================================================================== *)
(** ** Handling a request: [requestHandler], [handleRequest],
       [handleRequestStreaming], [maybeRetryAfterError] (proxy.js) *)
(* ===================================================================== *)

(** Modelled from the spec: the error kind that
    [SandstormBackend.shouldRestartGrain] retries.  The function is defined
    in the backend module, which is not among the sources; the
    specification names the retriable kind as the transient backend error,
    "RPC disconnect, grain process restart". *)
Definition transient (error : JsError) : bool :=
  match kjType error with
  | Some type => String.eqb type "disconnected"
  | None => false
  end.

(** Modelled from the spec: [SandstormBackend.shouldRestartGrain(error,
    retryCount)], "a fixed predicate over error kind, with an upper retry
    bound -- at most one retry per request, tracked via an explicit retry
    counter passed through the recursive retry call". *)
Definition shouldRestartGrain (error : JsError) (retryCount : nat) : bool :=
  transient error && (retryCount <? 1)%nat.

Module Http.

(** An incoming request, as far as the proxy looks at it. *)
Record Request := mkRequest
  { method : string;
    pathname : string;                     (* Url.parse(request.url).pathname *)
    query_sessionid : option string;       (* url.query.sessionid *)
    query_path : option string;            (* url.query.path *)
    contentLength : option Z;              (* the content-length header; a value that is
                                              not a number compares like a small one *)
    sandstorm_sids : list string;          (* values of the sandstorm-sid cookies, in order *)
    etagsValid : bool;                     (* the if-match / if-none-match headers parse *)
    bodyError : option JsError;            (* readAll(request) rejects with this *)
    xmlBody : option (JsError * bool);     (* xmlContent() throws this; the flag tells
                                              whether it wrote the 415 head first *)
    destination : bool }.                  (* a destination header is present *)

(** How an RPC on the session settles. *)
Inductive RpcOutcome :=
  | Resolves (status : Z)    (* resolves; translating the response writes this status *)
  | Rejects (e : JsError).

(** The text that [response.end] is given.  [Report err typeLine] is
    the text that the [.catch] of [requestHandler] builds for [err]:
    [err.stack] -- made by the engine when the error was created: a first
    line with the name and the message of the error, then the call sites
    --, then the line with the C++ location if the error carries one
    ([err.cppFile]), then [typeLine]. *)
Inductive Body :=
  | Text (s : string)
  | Report (err : JsError) (typeLine : string).

(** What the client is sent. *)
Inductive Served :=
  | AppResponse (status : Z)                       (* translateResponse *)
  | Wrote (status : Z) (reason : string) (body : Body)     (* writeHead; end(body) *)
  | Ended                                          (* response.end(), nothing written before *)
  | EndedAfterHead                                 (* headers were sent already; response.end() *)
  | Redirected (location : string)                 (* doSessionInit: 303 and the cookie *)
  | Unanswered.                                    (* an awaited call never settles *)

(** The proxy serving the request and its surroundings. *)
Record world := World
  { self : Proxy;
    rpcs : list RpcOutcome;            (* how the session RPCs to come settle, in order *)
    restarts : list (result Handle);   (* how the continueGrain calls to come settle *)
    nextHandle : Handle;               (* capabilities made so far *)
    trace : list Event }.

Definition emit (evs : list Event) (w : world) : world :=
  World (self w) (rpcs w) (restarts w) (nextHandle w) (trace w ++ evs).

Definition with_self (p : Proxy) (w : world) : world :=
  World p (rpcs w) (restarts w) (nextHandle w) (trace w).

(** How a promise of the handler settles: [headersSent] is
    [response.headersSent] at the time of the rejection. *)
Inductive settled :=
  | Fulfilled (s : Served)
  | Failed (e : JsError) (headersSent : bool)
  | Pending.

(** [parseCookies(request).sessionId]. *)
Definition parseCookies (req : Request) : result (option string) :=
  fold_left
    (fun acc value =>
       match acc with
       | Throws e => Throws e
       | Returns sid =>
           if Js.truthy_string sid then Throws (Error "Multiple sandstorm session IDs?")
           else Returns (Some value)
       end)
    (sandstorm_sids req) (Returns None).

(** [makeContext(request, response)]: the context itself is passed on to
    the application untouched; what matters here is whether it throws. *)
Definition makeContext (p : Proxy) (req : Request) : result unit :=
  let rest :=
    if etagsValid req then Returns tt else Throws (Meteor_Error 400 "invalid etag") in
  if Js.truthy_string (hostId p) then
    match parseCookies req with
    | Throws e => Throws e
    | Returns sid =>
        if negb (Js.truthy_string sid) || negb (bool_decide (sid = sessionId p))
        then Throws (Meteor_Error 403 "Unauthorized")
        else rest
    end
  else rest.

(** [getConnection()]. *)
Definition getConnection (w : world) : world :=
  let w1 :=
    if Js.truthy (supervisor (self w)) then w
    else
      let h := nextHandle w in
      World (set_handles (Some h) None (session (self w)) (websockets (self w)) (self w))
            (rpcs w) (restarts w) (Pos.succ h)
            (trace w ++ [GetGrain (p_ownerId (self w)) (p_grainId (self w)) h]) in
  if Js.truthy (uiView (self w1)) then w1
  else
    let h := nextHandle w1 in
    World (set_handles (supervisor (self w1)) (Some h) (session (self w1))
                       (websockets (self w1)) (self w1))
          (rpcs w1) (restarts w1) (Pos.succ h) (trace w1 ++ [GetMainView h]).

(** [getSession(request)]: the session capability is a promise that is
    pipelined on; a failure to open it shows when a call on it settles. *)
Definition getSession (w : world) : world :=
  if Js.truthy (session (self w)) then w
  else
    let w1 := getConnection w in
    let h := nextHandle w1 in
    World (set_handles (supervisor (self w1)) (uiView (self w1)) (Some h)
                       (websockets (self w1)) (self w1))
          (rpcs w1) (restarts w1) (Pos.succ h) (trace w1 ++ [NewSession h]).

(** [setHasLoaded()]. *)
Definition setHasLoaded (w : world) : world :=
  if hasLoaded (self w) then w
  else emit [SetHasLoaded] (with_self (set_hasLoaded true (self w)) w).

(** The next RPC on the session: it is issued, and settles as the
    surroundings say ([None]: it never does). *)
Definition call (name : string) (w : world) : option RpcOutcome * world :=
  let w1 := emit [SessionCall name] w in
  match rpcs w1 with
  | [] => (None, w1)
  | o :: rest => (Some o, World (self w1) rest (restarts w1) (nextHandle w1) (trace w1))
  end.

(** The exception of the last [else] of the method dispatch. *)
Definition methodNotSupported : JsError :=
  Error ("Sandstorm only supports the following methods: GET, POST, PUT, PATCH, DELETE, "
         +:+ "HEAD, PROPFIND, PROPPATCH, MKCOL, COPY, MOVE, LOCK, UNLOCK, ACL, REPORT, "
         +:+ "and OPTIONS.").

(** The arguments a session method is called with: some are built by
    closures that can throw. *)
Inductive Arguments := Plain | Xml | Destination.

(** The [if ... else if ...] chain of [handleRequest] on [request.method]:
    the session method called and how its arguments are built; [OPTIONS]
    is the method that handles its own answer. *)
Definition dispatch (method : string) : option (string * Arguments) :=
  if String.eqb method "GET" || String.eqb method "HEAD" then Some ("get", Plain)
  else if String.eqb method "POST" then Some ("post", Plain)
  else if String.eqb method "PUT" then Some ("put", Plain)
  else if String.eqb method "PATCH" then Some ("patch", Plain)
  else if String.eqb method "DELETE" then Some ("delete", Plain)
  else if String.eqb method "PROPFIND" then Some ("propfind", Xml)
  else if String.eqb method "PROPPATCH" then Some ("proppatch", Xml)
  else if String.eqb method "MKCOL" then Some ("mkcol", Plain)
  else if String.eqb method "COPY" then Some ("copy", Destination)
  else if String.eqb method "MOVE" then Some ("move", Destination)
  else if String.eqb method "LOCK" then Some ("lock", Xml)
  else if String.eqb method "UNLOCK" then Some ("unlock", Plain)
  else if String.eqb method "ACL" then Some ("acl", Xml)
  else if String.eqb method "REPORT" then Some ("report", Plain)
  else if String.eqb method "OPTIONS" then Some ("options", Plain)
  else None.

(** [xmlContent()] and [destination()]. *)
Definition arguments (req : Request) (a : Arguments) : option (JsError * bool) :=
  match a with
  | Plain => None
  | Xml => xmlBody req
  | Destination => if destination req then None else Some (Error "missing destination", false)
  end.

(** The promise chain of [handleRequest] up to its [.catch]: context,
    session, the RPC and the translation of its response. *)
Definition attempt (req : Request) (w : world) : settled * world :=
  match makeContext (self w) req with
  | Throws e => (Failed e false, w)
  | Returns _ =>
      let w1 := getSession w in
      match dispatch (method req) with
      | None => (Failed methodNotSupported false, w1)
      | Some (name, args) =>
          match arguments req args with
          | Some (e, headersSent) => (Failed e headersSent, w1)
          | None =>
              match call name w1 with
              | (None, w2) => (Pending, w2)
              | (Some (Resolves status), w2) =>
                  if String.eqb name "options" then (Fulfilled Ended, w2)
                  else (Fulfilled (AppResponse status), setHasLoaded w2)
              | (Some (Rejects e), w2) =>
                  if String.eqb name "options" &&
                     bool_decide (kjType e = Some "unimplemented"%string)
                  then (Fulfilled Ended, w2)
                  else (Failed e false, w2)
              end
          end
      end
  end.

(** [maybeRetryAfterError(error, retryCount)]: [inl] when the promise it
    returns is fulfilled (the grain was continued), [inr] otherwise. *)
Definition maybeRetryAfterError (error : JsError) (headersSent : bool) (retryCount : nat)
    (w : world) : world + (settled * world) :=
  if shouldRestartGrain error retryCount then
    let '(p, evs) := ProxyClass.resetConnection (self w) in
    let w1 := emit (evs ++ [ContinueGrain (p_grainId p)]) (with_self p w) in
    match restarts w1 with
    | [] => inr (Pending, w1)
    | Throws e :: rest =>
        inr (Failed e headersSent,
             World (self w1) (rpcs w1) rest (nextHandle w1) (trace w1))
    | Returns h :: rest =>
        inl (World (set_handles (Some h) (uiView (self w1)) (session (self w1))
                                (websockets (self w1)) (self w1))
                   (rpcs w1) rest (nextHandle w1) (trace w1))
    end
  else inr (Failed error headersSent, w).

(** [handleRequest(request, data, response, retryCount)].  [fuel] bounds
    the depth of the recursion; [None]: the bound was too small. *)
Fixpoint handleRequest (fuel : nat) (req : Request) (retryCount : nat) (w : world)
  : option (settled * world) :=
  match fuel with
  | O => None
  | S fuel' =>
      match attempt req w with
      | (Failed error headersSent, w1) =>
          match maybeRetryAfterError error headersSent retryCount w1 with
          | inl w2 => handleRequest fuel' req (retryCount + 1) w2
          | inr r => Some r
          end
      | r => Some r
      end
  end.

(** [err.kjType = 'unimplemented'] for the errors of old applications. *)
Definition patchUnimplemented (err : JsError) : JsError :=
  if bool_decide (kjType err = Some "failed"%string) &&
     Js.truthy (String.index 0 "not implemented" (message err))
  then mkError (meteor err) (Some "unimplemented"%string) (message err)
  else err.

(** [handleRequestStreaming(request, response, contentLength, retryCount)]. *)
Fixpoint handleRequestStreaming (fuel : nat) (req : Request) (retryCount : nat) (w : world)
  : option (settled * world) :=
  match fuel with
  | O => None
  | S fuel' =>
      match makeContext (self w) req with
      | Throws e => Some (Failed e false, w)
      | Returns _ =>
          let w1 := getSession w in
          let name :=
            if String.eqb (method req) "POST" then Some "postStreaming"%string
            else if String.eqb (method req) "PUT" then Some "putStreaming"%string
            else None in
          match name with
          | None =>
              Some (Failed (Error "Sandstorm only supports streaming POST and PUT requests.")
                           false, w1)
          | Some name =>
              match call name w1 with
              | (None, w2) => Some (Pending, w2)
              | (Some (Resolves _), w2) =>
                  (* the stream is open: requestStream.getResponse() *)
                  match call "getResponse" w2 with
                  | (None, w3) => Some (Pending, w3)
                  | (Some (Resolves status), w3) =>
                      Some (Fulfilled (AppResponse status), setHasLoaded w3)
                  | (Some (Rejects e), w3) => Some (Failed e false, w3)
                  end
              | (Some (Rejects e), w2) =>
                  let err := patchUnimplemented e in
                  if shouldRestartGrain err 0 then
                    match maybeRetryAfterError err false retryCount w2 with
                    | inl w3 => handleRequestStreaming fuel' req (retryCount + 1) w3
                    | inr r => Some r
                    end
                  else if bool_decide (kjType err = Some "unimplemented"%string) then
                    (* Streaming is not implemented. Fall back to non-streaming version. *)
                    match bodyError req with
                    | Some e' => Some (Failed e' false, w2)
                    | None => handleRequest fuel req 0 w2
                    end
                  else Some (Failed err false, w2)
              end
          end
      end
  end.

(** The characters that [encodeURI] leaves as they are. *)
Definition uriKept : string :=
  "ABCDEFGHIJKLMNOPQRSTUVWXYZabcdefghijklmnopqrstuvwxyz0123456789;/?:@&=+$,-_.!~*'()#".

Definition isUriKept (c : ascii) : bool :=
  existsb (Ascii.eqb c) (list_ascii_of_string uriKept).

Definition upperHex (n : nat) : ascii :=
  nth n (list_ascii_of_string "0123456789ABCDEF") "0"%char.

(** The escape of one byte: a percent sign and two hexadecimal digits. *)
Definition percentEscape (c : ascii) : string :=
  String "%" (String (upperHex (nat_of_ascii c / 16))
                     (String (upperHex (nat_of_ascii c mod 16)) EmptyString)).

(** [encodeURI(s)]: every character outside the kept ones is replaced by
    the escapes of the bytes of its UTF-8 encoding.  The path of a URL is
    held here as the bytes of its UTF-8 encoding (the characters the code
    tests, the slashes, are single bytes); a string with a lone
    surrogate, for which [encodeURI] throws, has no such encoding. *)
Fixpoint encodeURI (s : string) : string :=
  match s with
  | EmptyString => EmptyString
  | String c s' =>
      if isUriKept c then String c (encodeURI s') else percentEscape c +:+ encodeURI s'
  end.

(** [doSessionInit(request, response, requestPath)], for a [path]
    parameter given at most once: the 400, or the 303 with the cookie and
    the [Location] header. *)
Definition doSessionInit (req : Request) : Served :=
  let path := if Js.truthy_string (query_path req) then default "/" (query_path req)
              else "/"%string in
  if negb (String.prefix "/" path) || String.prefix "//" path
  then Wrote 400 "Invalid path supplied" (Text "Invalid path supplied.")
  else Redirected (encodeURI path).

(** The line ["\ntype: " + err.kjType] of the error text, if the error
    has a [kjType]. *)
Definition typeLine (err : JsError) : string :=
  if Js.truthy_string (kjType err)
  then String (ascii_of_nat 10) ("type: " +:+ default EmptyString (kjType err))
  else EmptyString.

(** The [.catch] of [requestHandler]: the status and reason of a
    [Meteor.Error], 500 for any other error, and the text built from
    [err.stack]; nothing but the end of the response once the headers
    are sent. *)
Definition answerError (err : JsError) (headersSent : bool) : Served :=
  if headersSent then EndedAfterHead
  else
    match meteor err with
    | Some (error, reason) => Wrote error reason (Report err (typeLine err))
    | None => Wrote 500 "Internal Server Error" (Report err (typeLine err))
    end.

(** The test that sends a request to [doSessionInit]. *)
Definition isSessionInit (p : Proxy) (req : Request) : bool :=
  Js.truthy_string (sessionId p) &&
  String.eqb (pathname req) "/_sandstorm-init" &&
  bool_decide (query_sessionid req = sessionId p).

(** [this.requestHandler(request, response)]: what the client is sent,
    and the world afterwards. *)
Definition requestHandler (fuel : nat) (req : Request) (w : world)
  : option (Served * world) :=
  if isSessionInit (self w) req
  then Some (doSessionInit req, w)
  else
    let handled :=
      if (String.eqb (method req) "POST" || String.eqb (method req) "PUT") &&
         match contentLength req with None => true | Some n => 1024 * 1024 <? n end
      then handleRequestStreaming fuel req 0 w
      else
        match bodyError req with
        | Some e => Some (Failed e false, w)
        | None => handleRequest fuel req 0 w
        end in
    match handled with
    | None => None
    | Some (Fulfilled s, w1) => Some (s, w1)
    | Some (Pending, w1) => Some (Unanswered, w1)
    | Some (Failed err headersSent, w1) =>
        Some (answerError err headersSent, setHasLoaded w1)
    end.

(** The session RPCs issued and the grain restarts asked for in a trace. *)
Definition isSessionCall (e : Event) : bool :=
  match e with SessionCall _ => true | _ => false end.
Definition isContinueGrain (e : Event) : bool :=
  match e with ContinueGrain _ => true | _ => false end.
Definition sessionCalls (evs : list Event) : nat := List.length (List.filter isSessionCall evs).
Definition reconnects (evs : list Event) : nat := List.length (List.filter isContinueGrain evs).

(** The methods the proxy maps to a session call. *)
Definition acceptedMethods : list string :=
  [ "GET"; "HEAD"; "POST"; "PUT"; "PATCH"; "DELETE"; "PROPFIND"; "PROPPATCH"; "MKCOL";
    "COPY"; "MOVE"; "LOCK"; "UNLOCK"; "ACL"; "REPORT"; "OPTIONS" ]%string.

End Http.

(* ===================================================================== *)
(** ** Predicates of the properties, and sample data *)
(* ===================================================================== *)

(** The error classes of the specification: a NotFound error is answered
    with 404 or 410, a Forbidden one with 403. *)
Definition isNotFound (e : JsError) : Prop :=
  exists reason, meteor e = Some (404, reason) \/ meteor e = Some (410, reason).

Definition isForbidden (e : JsError) : Prop :=
  exists reason, meteor e = Some (403, reason).

(** A webkey that is not revoked, with ten minutes left before it expires
    for lack of use. *)
Definition sample_token : ApiToken :=
  mkApiToken "h4sh" (Some "grain1") None false false (Some ["webkey"%string])
             None (Some 600000) None None.

Definition set_revoked (b : bool) (t : ApiToken) : ApiToken :=
  mkApiToken (_id t) (grainId t) (tokenIdentityId t) (forSharing t) b
             (owner t) (expires t) (expiresIfUnused t) (objectId t) (frontendRef t).

(** What the checks before [if (apiToken.expiresIfUnused)] let through. *)
Definition passesEarlyChecks (t : ApiToken) (now0 : Z) : Prop :=
  revoked t = false /\
  match owner t with Some o => has_webkey o = true | None => True end /\
  match expires t with Some e => now0 < e | None => True end.

(** The token [h] has no idle deadline any more (or is gone). *)
Definition unusedCleared (h : string) (db : ApiTokensCollection) : Prop :=
  forall t, db !! h = Some t -> expiresIfUnused t = None.

(** A capability saved by a grain: it refers to an object of the app, its
    owner is a grain, and it has ten minutes left before it expires for
    lack of use. *)
Definition grain_owned_capability : ApiToken :=
  mkApiToken "c4p" (Some "grain1") None false false (Some ["grain"%string])
             None (Some 600000) (Some "{appRef: ...}"%string) None.

(** A webkey-owned document that refers to an object of the app. *)
Definition webkey_capability : ApiToken :=
  mkApiToken "c4p" (Some "grain1") None false false (Some ["webkey"%string])
             None (Some 600000) (Some "{appRef: ...}"%string) None.

(** The ticks of a run that find the previous ping unanswered, when the
    run starts with the flag [healthy]. *)
Fixpoint failedChecks (healthy : bool) (pings : list bool) : nat :=
  match pings with
  | [] => O
  | answered :: rest => ((if healthy then 0 else 1) + failedChecks answered rest)%nat
  end.

(** The own keys of [proxiesByHostId] are host ids handed out by the
    backend or stored by [getProxyForHostId]; none of them is a name
    inherited from [Object.prototype]. *)
Definition HostTable_wf (table : HostTable.t) : Prop :=
  forall hostId, is_Some (table !! hostId) -> HostTable.inherited hostId = false.

Definition sample_db : Database :=
  mkDatabase [mkSession "sess1" "a1b2c3" "grain1" None None] ∅
             {[ "grain1"%string := mkGrain "grain1" "user1" ]} ∅.

(** A proxy for an API token, not yet connected. *)
Definition api_proxy : Proxy :=
  mkProxy "grain1" "user1" None None None None None None true false ∅ 0%N
          (mkUserInfo "Anonymous User" "anonymous" None None None) None None.

Definition trace_request : Http.Request :=
  Http.mkRequest "TRACE" "/" None None (Some 0) [] true None None false.

(** The client-error statuses. *)
Definition isClientError (s : Http.Served) : Prop :=
  match s with
  | Http.AppResponse status | Http.Wrote status _ _ => 400 <= status < 500
  | _ => False
  end.

(** An RPC that fails because the grain went away, and one that the
    application does not implement. *)
Definition disconnected : JsError := KjError "disconnected" "Peer disconnected.".
Definition unimplemented : JsError := KjError "unimplemented" "Method not implemented.".

(** A POST without a content-length header: it is handled by streaming. *)
Definition upload_request : Http.Request :=
  Http.mkRequest "POST" "/upload" None None None [] true None None false.

(** A grain that dies twice while one request is served, and does not
    implement streaming: the first [postStreaming] finds the grain gone;
    after the restart [postStreaming] is answered "unimplemented"; the
    [post] of the fallback finds the grain gone again, and so does its
    replay. *)
Definition dying_grain : Http.world :=
  Http.World api_proxy
    [Http.Rejects disconnected; Http.Rejects unimplemented;
     Http.Rejects disconnected; Http.Rejects disconnected]
    [Returns 100%positive; Returns 101%positive] 1%positive [].

(** The entries of a bucket, in the order the two nested loops visit
    them. *)
Definition bucket_entries (b : ApiSessionProxies.Bucket)
  : list (string * (string * ProxyRef)) :=
  flat_map (fun entry => map (fun kv => (fst entry, kv)) (map_to_list (snd entry)))
           (map_to_list b).

(** The loop body over a list of entries. *)
Definition sweepEntries (l : list (string * (string * ProxyRef)))
    (s : ApiSessionProxies.progress) : ApiSessionProxies.progress :=
  fold_left (fun s' e => ApiSessionProxies.sweepEntry (fst e) (fst (snd e)) (snd (snd e)) s')
            l s.

(** [Object.keys(proxy.websockets).length > 0] for the proxy behind a
    reference. *)
Definition liveb (st : Store) (r : ProxyRef) : bool :=
  match st !! r with
  | Some p => ProxyClass.hasWebsockets p
  | None => false
  end.

(** A store after some proxies without WebSockets have been closed:
    every object is as before, or was without WebSockets and is now as
    [close()] leaves it. *)
Definition closes (st st' : Store) : Prop :=
  forall r,
    st' !! r = st !! r \/
    exists p, st !! r = Some p /\ ProxyClass.hasWebsockets p = false /\
              st' !! r = Some (fst (ProxyClass.close p)).

(** A proxy with one open WebSocket. *)
Definition busy_proxy : Proxy :=
  mkProxy "grain1" "user1" None (Some 10%positive) (Some 11%positive) (Some 12%positive)
          None None true true {[ "0"%string := 13%positive ]} 1%N
          (mkUserInfo "Anonymous User" "anonymous" None None None) None None.

(** A connected proxy without WebSockets. *)
Definition idle_proxy : Proxy :=
  mkProxy "grain1" "user1" None (Some 20%positive) (Some 21%positive) (Some 22%positive)
          None None true true ∅ 0%N
          (mkUserInfo "Anonymous User" "anonymous" None None None) None None.

(** The cache after two requests raced to create the proxy of one key:
    the first proxy ([1], holding a WebSocket) was put before a sweep and
    now sits in the old bucket, the second ([2]) was put after it. *)
Definition raced_cache : ApiSessionProxies.t :=
  ApiSessionProxies.Cache {[ "tok"%string := {[ "par"%string := 2%positive ]} ]}
                          {[ "tok"%string := {[ "par"%string := 1%positive ]} ]}.

Definition raced_store : Store :=
  {[ 1%positive := busy_proxy; 2%positive := idle_proxy ]}.

(** A cache whose old bucket holds a proxy with a WebSocket and one
    without, under two parameter hashes of one token. *)
Definition aged_cache : ApiSessionProxies.t :=
  ApiSessionProxies.Cache ∅
    {[ "tok"%string := {[ "par1"%string := 1%positive; "par2"%string := 2%positive ]} ]}.

(** A list that holds at most one proxy under a key. *)
Definition functional (l : list (string * (string * ProxyRef))) : Prop :=
  forall tok par r r', (tok, (par, r)) ∈ l -> (tok, (par, r')) ∈ l -> r = r'.


(** The second statement of the sweep property as the specification
    words it: every old-bucket entry with at least one live WebSocket
    remains in the cache. *)
Definition spec_live_entries_remain (c : ApiSessionProxies.t) (st : Store) : Prop :=
  forall tok par r,
    ApiSessionProxies.lookup (ApiSessionProxies.oldBucket c) tok par = Some r ->
    ApiSessionProxies.live st r ->
    ApiSessionProxies.cached
      (ApiSessionProxies.cache (ApiSessionProxies.sweep c st)) tok par r.

(* ===================================================================== *)
(** ** More of proxy.js: cache removal, the [Sessions] observer *)
(* ===================================================================== *)

Module ApiSessionProxiesOps.

Import ApiSessionProxies.

(** The loop [for (hashedParams in bucket[hashedToken]) ...close()] over
    the entries of one token. *)
Definition closeAll (inner : gmap string ProxyRef) (s : Store * list Event)
  : Store * list Event :=
  fold_left (fun acc kv =>
               (fst (close_ref (snd kv) (fst acc)),
                snd acc ++ snd (close_ref (snd kv) (fst acc))))
            (map_to_list inner) s.

(** [removeProxiesOfToken(hashedToken)]: the cache, the store and the
    calls made. *)
Definition removeProxiesOfToken (hashedToken : string) (c : t) (st : Store)
  : t * Store * list Event :=
  let s1 :=
    match oldBucket c !! hashedToken with
    | Some inner => closeAll inner (st, [])
    | None => (st, [])
    end in
  let s2 :=
    match newBucket c !! hashedToken with
    | Some inner => closeAll inner s1
    | None => s1
    end in
  (Cache (delete hashedToken (newBucket c)) (delete hashedToken (oldBucket c)),
   fst s2, snd s2).

End ApiSessionProxiesOps.

(** What a call of [close] on a member inherited from
    [Object.prototype] throws. *)
Definition notAFunction : JsError := Error "proxy.close is not a function".


(* ===================================================================== *)
(** ** [getProxyForApiToken] (proxy.js) *)
(* ===================================================================== *)

Definition set_expires (e : option Z) (p : Proxy) : Proxy :=
  mkProxy (p_grainId p) (p_ownerId p) (p_identityId p) (supervisor p) (uiView p)
          (session p) (sessionId p) (hostId p) (isApi p) (hasLoaded p) (websockets p)
          (websocketCounter p) (userInfo p) (apiToken p) e.

Module ApiProxy.

Section GetProxyForApiToken.

(** [SandstormPermissions.mayOpenGrain(globalDb, { token: tokenInfo })],
    defined in another package. *)
Variable mayOpenGrain : Database -> ApiToken -> bool.
(** Whether the document has the deprecated field [userInfo]. *)
Variable hasUserInfo : ApiToken -> bool.

(** What the gateway holds between two requests: the collections, the
    cache of API proxies and the Proxy objects. *)
Record state := State
  { db : Database; proxies : ApiSessionProxies.t; objects : Store }.

Definition set_tokens (tokens : ApiTokensCollection) (d : Database) : Database :=
  mkDatabase (Sessions d) tokens (Grains d) (Identities d).

(** The callback run on a cache miss (inside [inMeteor]): the Proxy to
    cache, or the exception, and the collection as [validateWebkey] left
    it. *)
Definition construct (hashedToken : string) (now0 now : Z) (d : Database)
  : result Proxy * Database :=
  let tokenInfo := ApiTokens_findOne hashedToken (ApiTokens d) in
  match validateWebkey tokenInfo None now0 now (ApiTokens d) with
  | (Some f, tokens) => (Throws (thrown f), set_tokens tokens d)
  | (None, tokens) =>
      let d' := set_tokens tokens d in
      match tokenInfo with
      | None => (Throws (thrown InvalidToken), d')
      | Some t =>
          match grainId t ≫= (fun g => Grains d' !! g) with
          | None => (Throws (Meteor_Error 410 "Resource has been deleted"), d')
          | Some grain =>
              if hasUserInfo t
              then (Throws (Error "API tokens created with arbitrary userInfo no longer supported"),
                    d')
              else
                let identityId :=
                  if Js.truthy_string (tokenIdentityId t) && negb (forSharing t)
                  then tokenIdentityId t else None in
                match ProxyClass.new (Identities d') (default "" (grainId t))
                        (grain_userId grain) None None identityId true None with
                | Throws e => (Throws e, d')
                | Returns proxy =>
                    let proxy := set_apiToken (Some t) proxy in
                    if negb (mayOpenGrain d' t)
                    then (Throws (Meteor_Error 403 "Unauthorized."), d')
                    else
                      (Returns (if Js.truthy (expires t)
                                then set_expires (expires t) proxy else proxy), d')
                end
          end
      end
  end.

(** [getProxyForApiToken(token, request)], from the two hashes on.
    [now0] and [now] are the first and the second reading of [Date.now()]
    that the call makes. *)
Definition getProxyForApiToken (hashedToken hashedParams : string) (now0 now : Z)
    (s : state) : result ProxyRef * state :=
  match ApiSessionProxies.get hashedToken hashedParams (proxies s) with
  | (Some proxy, cache) =>
      let s' := State (db s) cache (objects s) in
      match objects s !! proxy ≫= p_expires with
      | Some e =>
          if e <=? now0 then (Throws (Meteor_Error 403 "Authorization token expired"), s')
          else (Returns proxy, s')
      | None => (Returns proxy, s')
      end
  | (None, cache) =>
      match construct hashedToken now0 now (db s) with
      | (Throws e, d) => (Throws e, State d cache (objects s))
      | (Returns proxy, d) =>
          let r := fresh (dom (objects s)) in
          (Returns r,
           State d (ApiSessionProxies.put hashedToken hashedParams r cache)
                 (<[r := proxy]> (objects s)))
      end
  end.

End GetProxyForApiToken.

End ApiProxy.

(* ===================================================================== *)
(** ** [clearSessionsAndProxies] (proxy.js) *)
(* ===================================================================== *)

(** A store in which some objects have been closed since: every object
    is as it was or as [close()] leaves it. *)
Definition closedSince (st st' : Store) : Prop :=
  forall r, st' !! r = st !! r \/
            st' !! r = (fun p => fst (ProxyClass.close p)) <$> st !! r.

Module Revocation.

Section ClearSessionsAndProxies.

(** [SandstormPermissions.downstreamTokens(globalDb, { token: token })],
    defined in another package. *)
Variable downstreamTokens : ApiToken -> list ApiToken.
(** [token.owner.user.identityId], for the tokens that have an
    [owner.user]. *)
Variable ownerUser : ApiToken -> option string.

(** The gateway: what [getProxyForApiToken] works on, the table of the
    session hosts, and the calls made on proxies so far. *)
Record gateway := Gateway
  { api : ApiProxy.state; table : HostTable.t; calls : list Event }.

Definition set_sessions (l : list Session) (d : Database) : Database :=
  mkDatabase l (ApiTokens d) (Grains d) (Identities d).

(** The body of [downstream.forEach]: the API proxies of the token are
    removed. *)
Definition forgetToken (g : gateway) (t : ApiToken) : gateway :=
  let removed :=
    ApiSessionProxiesOps.removeProxiesOfToken
      (_id t) (ApiProxy.proxies (api g)) (ApiProxy.objects (api g)) in
  Gateway (ApiProxy.State (ApiProxy.db (api g)) (fst (fst removed)) (snd (fst removed)))
          (table g) (calls g ++ snd removed).

(** The selector of the two [Sessions] queries.  The observers that call
    [clearSessionsAndProxies] pass tokens that have a [grainId]. *)
Definition selected (token : ApiToken) (identityIds tokenIds : list string)
    (s : Session) : bool :=
  bool_decide (grainId token = Some (session_grainId s)) &&
  (match session_identityId s with
   | Some i => bool_decide (i ∈ identityIds)
   | None => false
   end ||
   match session_hashedToken s with
   | Some h => bool_decide (h ∈ tokenIds)
   | None => false
   end).

(** The body of the [forEach] over the sessions found: the proxy of the
    host is closed, then the table entry is deleted.  An exception ends
    the loop. *)
Definition closeSession (acc : option JsError * gateway) (s : Session)
  : option JsError * gateway :=
  match acc with
  | (Some e, g) => (Some e, g)
  | (None, g) =>
      match HostTable.get (table g) (session_hostId s) with
      | HostTable.Object proxy =>
          let closed := close_ref proxy (ApiProxy.objects (api g)) in
          (None,
           Gateway (ApiProxy.State (ApiProxy.db (api g)) (ApiProxy.proxies (api g))
                                   (fst closed))
                   (delete (session_hostId s) (table g)) (calls g ++ snd closed))
      | HostTable.Inherited => (Some notAFunction, g)
      | _ => (None, Gateway (api g) (delete (session_hostId s) (table g)) (calls g))
      end
  end.

(** The tokens whose sessions and proxies go. *)
Definition affected (token : ApiToken) : list ApiToken := downstreamTokens token ++ [token].

Definition identityIds (token : ApiToken) : list string := omap ownerUser (affected token).

Definition tokenIds (token : ApiToken) : list string := map _id (affected token).

(** [clearSessionsAndProxies(token)]: the exception thrown, if any, and
    the gateway afterwards. *)
Definition clearSessionsAndProxies (token : ApiToken) (g : gateway)
  : option JsError * gateway :=
  let g1 := fold_left forgetToken (affected token) g in
  let isSelected := selected token (identityIds token) (tokenIds token) in
  let found := List.filter isSelected (Sessions (ApiProxy.db (api g1))) in
  match fold_left closeSession found (None, g1) with
  | (Some e, g2) => (Some e, g2)
  | (None, g2) =>
      (None,
       Gateway (ApiProxy.State
                  (set_sessions (List.filter (fun s => negb (isSelected s))
                                             (Sessions (ApiProxy.db (api g2))))
                                (ApiProxy.db (api g2)))
                  (ApiProxy.proxies (api g2)) (ApiProxy.objects (api g2)))
               (table g2) (calls g2))
  end.

End ClearSessionsAndProxies.

End Revocation.

(** A database that holds the sample webkey and its grain. *)
Definition webkey_db : Database :=
  mkDatabase [] {[ "h4sh"%string := sample_token ]}
             {[ "grain1"%string := mkGrain "grain1" "user1" ]} ∅.

(** A gateway with one session opened with the sample webkey, its proxy
    in the table, and an API proxy cached for the same token. *)
Definition webkey_gateway : Revocation.gateway :=
  Revocation.Gateway
    (ApiProxy.State
       (mkDatabase [mkSession "sess1" "a1b2c3" "grain1" None (Some "h4sh"%string)]
                   {[ "h4sh"%string := set_revoked true sample_token ]}
                   {[ "grain1"%string := mkGrain "grain1" "user1" ]} ∅)
       (ApiSessionProxies.Cache {[ "h4sh"%string := {[ "par"%string := 1%positive ]} ]} ∅)
       raced_store)
    {[ "a1b2c3"%string := Some 2%positive ]} [].

(* ===================================================================== *)
(** ** Numbers: the permissions blob, remote addresses, the stagger *)
(* ===================================================================== *)

(** One turn of the loop of [_callNewSession] (proxy.js) that fills
    [userInfo.deprecatedPermissionsBlob]: bit [ii % 8] of byte
    [Math.floor(ii / 8)] is set if permission [ii] is held.  A write past
    the end of a Buffer stores nothing. *)
Definition setPermission (permissions : list bool) (buf : list Z) (ii : nat) : list Z :=
  let byteNum := (ii / 8)%nat in
  let bitNum := (ii mod 8)%nat in
  if nth ii permissions false
  then <[byteNum := Z.lor (nth byteNum buf 0) (Z.shiftl 1 (Z.of_nat bitNum))]> buf
  else buf.

(** The buffer after the first [k] turns, from
    [Math.ceil(permissions.length / 8)] zero bytes. *)
Definition blobAfter (permissions : list bool) (k : nat) : list Z :=
  fold_left (setPermission permissions) (seq 0 k)
            (replicate ((length permissions + 7) / 8)%nat 0).

(** The blob: the buffer after a turn for every permission. *)
Definition permissionsBlob (permissions : list bool) : list Z :=
  blobAfter permissions (length permissions).

Module RemoteAddress.

(** [array.reduce((a, b) => 256 * a + b)], without an initial value: the
    first element starts the accumulator, an empty array is a
    [TypeError]. *)
Definition reduce256 (quad : list Z) : option Z :=
  match quad with
  | [] => None
  | a :: rest => Some (fold_left (fun a b => 256 * a + b) rest a)
  end.

(** [lower64] of the address passed to the application for an IPv4
    peer ([getApiSessionParams]); [quad] is
    [address.split(".").map(x => parseInt(x, 10))]. *)
Definition v4Int (quad : list Z) : option Z :=
  match reduce256 quad with
  | Some n => Some (0xFFFF00000000 + n)
  | None => None
  end.

(** The IPv4 branch of [isRfc1918OrLocal], on the parsed quad; an index
    past the end reads [undefined], which equals no number and fails
    every comparison. *)
Definition isRfc1918OrLocal (quad : list Z) : bool :=
  let equals (i : nat) (v : Z) :=
    match quad !! i with Some x => x =? v | None => false end in
  equals 0%nat 127 || equals 0%nat 10 ||
  (equals 0%nat 192 && equals 1%nat 168) ||
  (equals 0%nat 172 &&
   match quad !! 1%nat with Some x => (16 <=? x) && (x <? 32) | None => false end).

(** The 32-bit number of a dotted quad. *)
Definition ofQuad (a b c d : Z) : Z := ((a * 256 + b) * 256 + c) * 256 + d.

Definition octet (x : Z) : Prop := 0 <= x < 256.

End RemoteAddress.

Module Stagger.

(** [x << 1] on a number: the operand is taken as a signed 32-bit
    integer and so is the result. *)
Definition toInt32 (x : Z) : Z := (x + 2 ^ 31) mod 2 ^ 32 - 2 ^ 31.

Definition shl1 (x : Z) : Z := toInt32 (2 * toInt32 x).

(** [while (denom <= n) denom <<= 1;], [fuel] bounding the number of
    turns; [None]: the loop is still running. *)
Fixpoint grow (fuel : nat) (denom n : Z) : option Z :=
  match fuel with
  | O => None
  | S fuel' => if denom <=? n then grow fuel' (shl1 denom) n else Some denom
  end.

(** The values that the denominator runs through once [n] is 2^30 or
    more. *)
Definition overflowing (denom : Z) : Prop :=
  denom = 0 \/ denom = - 2 ^ 31 \/ exists i, 0 <= i <= 30 /\ denom = 2 ^ i.

(** [computeStagger(n)] (db.js), for a natural number [n]: the numerator
    and the denominator of the fraction returned. *)
Definition computeStagger (fuel : nat) (n : Z) : option (Z * Z) :=
  match grow fuel 1 n with
  | Some denom => Some (n * 2 - denom + 1, denom)
  | None => None
  end.

(** The delay of the first run that [SandstormDb.periodicCleanup]
    computes, for the stagger [num / denom] and the time [now] read from
    [Date.now()]; [None]: the interval is refused with an exception.  The
    product [intervalMs * stagger] is exact in a double as long as
    [intervalMs * num] is below 2^53. *)
Definition firstCleanup (intervalMs now num denom : Z) : option Z :=
  if intervalMs <? 120000 then None
  else
    let first := intervalMs - now mod intervalMs in
    let first := first + (intervalMs * num) / denom in
    Some (if intervalMs <? first then first - intervalMs else first).

End Stagger.

(* ===================================================================== *)
(** ** More string operations of JavaScript *)
(* ===================================================================== *)

(** Header values and host names reach the code as strings of 8-bit
    characters. *)
Module Str.

(** [s.split(c)] for a separator of one character: the pieces between
    the separators, at least one. *)
Fixpoint split (c : ascii) (s : string) : list string :=
  match s with
  | EmptyString => [EmptyString]
  | String a s' =>
      if Ascii.eqb a c then EmptyString :: split c s'
      else match split c s' with
           | piece :: pieces => String a piece :: pieces
           | [] => [String a EmptyString]
           end
  end.

(** [s.indexOf(c)] for one character; [None] is -1. *)
Fixpoint indexOf (c : ascii) (s : string) : option nat :=
  match s with
  | EmptyString => None
  | String a s' => if Ascii.eqb a c then Some O else option_map S (indexOf c s')
  end.

(** [s.indexOf(sub, 0) >= 0]. *)
Fixpoint contains (sub s : string) : bool :=
  String.prefix sub s ||
  match s with
  | EmptyString => false
  | String _ s' => contains sub s'
  end.

(** [s.slice(start, -drop)] with [start] and [drop] not negative: an end
    of [-0] is the index 0, so nothing is left when [drop] is 0. *)
Definition sliceBack (start drop : nat) (s : string) : string :=
  let finish := if (drop =? 0)%nat then O else (String.length s - drop)%nat in
  String.substring start (finish - start) s.

(** [s.slice(start)]. *)
Definition sliceFrom (start : nat) (s : string) : string :=
  String.substring start (String.length s - start) s.

(** White space and line terminators among the 8-bit characters: what
    [trim()] strips and [\s] matches. *)
Definition isSpace (c : ascii) : bool :=
  let n := nat_of_ascii c in
  ((9 <=? n) && (n <=? 13) || (n =? 32) || (n =? 160))%nat.

Fixpoint trimStart (s : string) : string :=
  match s with
  | EmptyString => EmptyString
  | String a s' => if isSpace a then trimStart s' else s
  end.

Fixpoint trimEnd (s : string) : string :=
  match s with
  | EmptyString => EmptyString
  | String a s' =>
      match trimEnd s' with
      | EmptyString => if isSpace a then EmptyString else String a EmptyString
      | rest => String a rest
      end
  end.

Definition trim (s : string) : string := trimEnd (trimStart s).

Fixpoint all (f : ascii -> bool) (s : string) : bool :=
  match s with
  | EmptyString => true
  | String a s' => f a && all f s'
  end.

End Str.

(* ===================================================================== *)
(** ** db.js: wildcard hosts and API host ids *)
(* ===================================================================== *)

Module Hosts.

(** [/^[-a-z0-9]*$/]: the characters of a host id. *)
Definition idChar (c : ascii) : bool :=
  let n := nat_of_ascii c in
  ((n =? 45) || (97 <=? n) && (n <=? 122) || (48 <=? n) && (n <=? 57))%nat.

Section Wildcard.

(** [wildcardHost], the two pieces of
    [Meteor.settings.public.wildcardHost.toLowerCase().split("*")]. *)
Variables prefix suffixFull : string.

Definition sansPort (s : string) : string := hd EmptyString (Str.split ":" s).

(** [matchWildcardHost(host)]; [None] is [null]. *)
Definition matchWildcardHost (host : string) : option string :=
  let suffix := sansPort suffixFull in
  let hostSansPort := sansPort host in
  if String.prefix prefix hostSansPort                (* lastIndexOf(prefix, 0) >= 0 *)
     && Str.contains suffix hostSansPort              (* indexOf(suffix, -suffix.length) >= 0:
                                                         a negative start counts as 0 *)
     && (String.length prefix + String.length suffix <=? String.length hostSansPort)%nat
  then
    let id := Str.sliceBack (String.length prefix) (String.length suffix) hostSansPort in
    if Str.all idChar id then Some id else None
  else None.

(** [makeWildcardHost(id)]. *)
Definition makeWildcardHost (id : string) : string := prefix +:+ id +:+ suffixFull.

End Wildcard.

(** [isApiHostId(hostId)]: [None] is [false], otherwise the string
    returned. *)
Definition isApiHostId (hostId : option string) : option string :=
  if Js.truthy_string hostId then
    match Str.split "-" (default EmptyString hostId) with
    | first :: rest =>
        if String.eqb first "api" then
          match rest with
          | second :: _ => Some (if String.eqb second "" then "*"%string else second)
          | [] => Some "*"%string
          end
        else None
    | [] => None
    end
  else None.

(** [isTokenSpecificHostId(hostId)]: [hostId.lastIndexOf("api-", 0) === 0]. *)
Definition isTokenSpecificHostId (hostId : string) : bool := String.prefix "api-" hostId.

(** The check of the host in [apiTokenForRequest] (proxy.js), once a
    token was read from the [Authorization] header: the token is dropped
    unless the request came to the shared API host or to the host of the
    token. *)
Definition tokenForHost (token : option string) (hostId : string) : option string :=
  if Js.truthy_string token && negb (String.eqb hostId "api") then
    if negb (String.eqb hostId (SandstormDb.apiHostIdForToken (default EmptyString token)))
    then None else token
  else token.

End Hosts.

(* ===================================================================== *)
(** ** proxy.js: the [Cookie] header *)
(* ===================================================================== *)

Module Cookies.

Record Cookie := mkCookie { key : string; value : string }.

Record Parsed := mkParsed { sessionId : option string; cookies : list Cookie }.

(** One piece of the header, as the loop body reads it. *)
Definition parseCookie (reqCookie : string) : Cookie :=
  match Str.indexOf "=" reqCookie with
  | None => mkCookie (Str.trim reqCookie) EmptyString
  | Some equalsPos =>
      mkCookie (Str.trim (Js.slice 0 equalsPos reqCookie))
               (Str.sliceFrom (equalsPos + 1) reqCookie)
  end.

Definition addCookie (acc : result Parsed) (reqCookie : string) : result Parsed :=
  match acc with
  | Throws e => Throws e
  | Returns result =>
      let cookie := parseCookie reqCookie in
      if String.eqb (key cookie) "sandstorm-sid" then
        if Js.truthy_string (sessionId result)
        then Throws (Error "Multiple sandstorm session IDs?")
        else Returns (mkParsed (Some (value cookie)) (cookies result))
      else Returns (mkParsed (sessionId result) (cookies result ++ [cookie]))
  end.

(** [parseCookies(request)], on [request.headers['cookie']]. *)
Definition parseCookies (header : option string) : result Parsed :=
  if Js.truthy_string header
  then fold_left addCookie (Str.split ";" (default EmptyString header))
                 (Returns (mkParsed None []))
  else Returns (mkParsed None []).

Definition isSession (c : Cookie) : bool := String.eqb (key c) "sandstorm-sid".

(** The values of the session cookies of a header, in order. *)
Definition sessionCookies (header : option string) : list string :=
  if Js.truthy_string header
  then map value
         (List.filter isSession
                 (map parseCookie (Str.split ";" (default EmptyString header))))
  else [].

(** What a session cookie does to the session id read so far. *)
Definition sessionStep (acc : result (option string)) (v : string) : result (option string) :=
  match acc with
  | Throws e => Throws e
  | Returns sid =>
      if Js.truthy_string sid then Throws (Error "Multiple sandstorm session IDs?")
      else Returns (Some v)
  end.

(** The session id of a result. *)
Definition sessionOf (acc : result Parsed) : result (option string) :=
  match acc with
  | Throws e => Throws e
  | Returns r => Returns (sessionId r)
  end.

End Cookies.

(* ===================================================================== *)
(** ** proxy.js: entity tags *)
(* ===================================================================== *)

Module ETag.

Record Tag := mkTag { weak : bool; value : string }.

Definition quote : ascii := Eval compute in ascii_of_nat 34.
Definition backslash : ascii := Eval compute in ascii_of_nat 92.

(** What [.] does not match: the line terminators among the 8-bit
    characters. *)
Definition isLineTerminator (c : ascii) : bool :=
  ((nat_of_ascii c =? 10) || (nat_of_ascii c =? 13))%nat.

(** The [replace] of [composeETag]: a backslash is put before every
    backslash and every quote. *)
Fixpoint escape (s : string) : string :=
  match s with
  | EmptyString => EmptyString
  | String c s' =>
      if Ascii.eqb c backslash || Ascii.eqb c quote
      then String backslash (String c (escape s'))
      else String c (escape s')
  end.

(** [composeETag(tag)]. *)
Definition composeETag (tag : Tag) : string :=
  let result := String quote (escape (value tag) +:+ String quote EmptyString) in
  if weak tag then "W/" +:+ result else result.

(** The [replace] of [parseETagList]: a backslash followed by a
    character that [.] matches is dropped; the matches are found from
    left to right and do not overlap. *)
Fixpoint unescape (s : string) : string :=
  match s with
  | EmptyString => EmptyString
  | String c s' =>
      if Ascii.eqb c backslash then
        match s' with
        | String d s'' =>
            if isLineTerminator d then String c (unescape s') else String d (unescape s'')
        | EmptyString => String c EmptyString
        end
      else String c (unescape s')
  end.

(** The body of the pattern, a star over two alternatives -- a
    character that is neither a quote nor a backslash, or a backslash and
    a character that [.] matches -- and the closing quote: the characters
    up to that quote and what follows it.  The alternatives start with
    different characters and neither starts with a quote, so the match,
    if there is one, ends at the first quote that is not escaped. *)
Fixpoint scanBody (s : string) : option (string * string) :=
  match s with
  | EmptyString => None
  | String c s' =>
      if Ascii.eqb c quote then Some (EmptyString, s')
      else if Ascii.eqb c backslash then
        match s' with
        | String d s'' =>
            if isLineTerminator d then None
            else
              match scanBody s'' with
              | Some (raw, rest) => Some (String c (String d raw), rest)
              | None => None
              end
        | EmptyString => None
        end
      else
        match scanBody s' with
        | Some (raw, rest) => Some (String c raw, rest)
        | None => None
        end
  end.

(** [input.match(...)] with the pattern of [parseETagList]: white
    space, an optional [W/], the quoted body, white space, and the end of
    the input or a comma.  The result is whether group 1 matched, group
    2, and the input after the match. *)
Definition matchETag (input : string) : option (bool * string * string) :=
  let s := Str.trimStart input in
  let isWeak := String.prefix "W/" s in
  let s := if isWeak then String.substring 2 (String.length s - 2) s else s in
  match s with
  | String c s' =>
      if Ascii.eqb c quote then
        match scanBody s' with
        | Some (raw, rest) =>
            match Str.trimStart rest with
            | EmptyString => Some (isWeak, raw, EmptyString)
            | String d rest' => if Ascii.eqb d "," then Some (isWeak, raw, rest') else None
            end
        | None => None
        end
      else None
  | EmptyString => None
  end.

(** The [while (input.length > 0)] loop of [parseETagList]; [None]: the
    loop is still running after [fuel] turns. *)
Fixpoint parseLoop (fuel : nat) (input : string) : option (result (list Tag)) :=
  match input with
  | EmptyString => Some (Returns [])
  | _ =>
      match fuel with
      | O => None
      | S fuel' =>
          match matchETag input with
          | None => Some (Throws (Meteor_Error 400 "invalid etag"))
          | Some (isWeak, raw, rest) =>
              match parseLoop fuel' (Str.trim rest) with
              | Some (Returns tags) => Some (Returns (mkTag isWeak (unescape raw) :: tags))
              | other => other
              end
          end
      end
  end.

(** [parseETagList(input)]. *)
Definition parseETagList (input : string) : option (result (list Tag)) :=
  parseLoop (S (String.length input)) (Str.trim input).

(** A header value that lists tags, as a client sends them back. *)
Definition joined (tags : list Tag) : string := String.concat ", " (map composeETag tags).

End ETag.

(* ===================================================================== *)
(** ** proxy.js: WebSocket upgrades *)
(* ===================================================================== *)

Module WebSockets.

Import Http.

(** The three statements of [handleWebSocket] that record the socket:
    [socketIdx = websocketCounter.toString()],
    [websockets[socketIdx] = socket], [websocketCounter += 1].  The entry
    is deleted again when the socket emits [close]. *)
Definition register (socket : Handle) (p : Proxy) : Proxy :=
  mkProxy (p_grainId p) (p_ownerId p) (p_identityId p) (supervisor p) (uiView p)
          (session p) (sessionId p) (hostId p) (isApi p) (hasLoaded p)
          (<[Js.decimal (Z.of_N (websocketCounter p)) := socket]> (websockets p))
          (websocketCounter p + 1)%N
          (userInfo p) (apiToken p) (p_expires p).

(** How the promise of [handleWebSocket] settles. *)
Inductive upgrade :=
  | Upgraded                (* the 101 response was written to the socket *)
  | Refused (e : JsError)
  | Waiting.                (* an awaited call never settles *)

(** [handleWebSocket(request, socket, head, retryCount)]; [hasKey] tells
    whether the request has a [sec-websocket-key] header.  (The bytes of
    [head], sent on the stream of the application, are left out.)  [fuel]
    bounds the depth of the recursion; [None]: the bound was too small. *)
Fixpoint handleWebSocket (fuel : nat) (req : Request) (hasKey : bool) (socket : Handle)
    (retryCount : nat) (w : world) : option (upgrade * world) :=
  match fuel with
  | O => None
  | S fuel' =>
      let failed (e : JsError) (w' : world) :=
        match maybeRetryAfterError e false retryCount w' with
        | inl w'' => handleWebSocket fuel' req hasKey socket (retryCount + 1) w''
        | inr (Failed e' _, w'') => Some (Refused e', w'')
        | inr (_, w'') => Some (Waiting, w'')
        end in
      match makeContext (self w) req with
      | Throws e => failed e w
      | Returns _ =>
          let w1 := getSession w in
          if negb hasKey then failed (Error "Missing Sec-WebSocket-Accept header.") w1
          else
            let opened := call "openWebSocket" w1 in
            let w3 := with_self (register socket (self (snd opened))) (snd opened) in
            match fst opened with
            | None => Some (Waiting, w3)
            | Some (Resolves _) => Some (Upgraded, w3)
            | Some (Rejects e) => failed e w3
            end
      end
  end.

(** The calls of [destroy()] on a socket among the calls made. *)
Definition destroys (socket : Handle) (e : Event) : bool :=
  match e with
  | SocketDestroy _ s => bool_decide (s = socket)
  | _ => false
  end.

Definition destroyed (socket : Handle) (evs : list Event) : nat :=
  length (List.filter (destroys socket) evs).

(** The entries of [websockets] that hold a socket. *)
Definition registrations (socket : Handle) (p : Proxy) : nat :=
  length (List.filter (fun kv : string * Handle => bool_decide (snd kv = socket))
                      (map_to_list (websockets p))).

(** An upgrade request, and a grain that goes away while the WebSocket
    is opened and is there again after the restart. *)
Definition upgrade_request : Request :=
  mkRequest "GET" "/socket" None None None [] true None None false.

Definition restarted_grain : world :=
  World api_proxy [Rejects disconnected; Resolves 101] [Returns 100%positive] 1%positive [].

End WebSockets.

(* ===================================================================== *)
(** * Verified properties *)
(* ===================================================================== *)


(* ===================================================================== *)
(** ** SHA-256: the test vectors of the standard *)
(* ===================================================================== *)

Example sha256_hex_abc :
  sha256_hex "abc" = "ba7816bf8f01cfea414140de5dae2223b00361a396177a9cb410ff61f20015ad"%string.
Proof. vm_compute. reflexivity. Qed.

Example sha256_hex_empty :
  sha256_hex "" = "e3b0c44298fc1c149afbf4c8996fb92427ae41e4649b934ca495991b7852b855"%string.
Proof. vm_compute. reflexivity. Qed.

Example sha256_hex_two_blocks :
  sha256_hex "abcdbcdecdefdefgefghfghighijhijkijkljklmklmnlmnomnopnopq"
  = "248d6a61d20638b8e5c026930c3e6039a33ce45964ff2167f6ecedd419db06c1"%string.
Proof. vm_compute. reflexivity. Qed.


(* ===================================================================== *)
(** ** C1: the per-token API host id *)
(* ===================================================================== *)

Section HostId.

Lemma be_bytes_length n x : List.length (SHA256.be_bytes n x) = n.
Proof.
  unfold SHA256.be_bytes.
  now rewrite List.length_map, List.length_rev, List.length_seq.
Qed.

(** A SHA-256 digest is 32 bytes long. *)
Lemma digest_length msg : List.length (SHA256.digest msg) = 32%nat.
Proof.
  unfold SHA256.digest. cbv zeta.
  repeat rewrite List.length_app. repeat rewrite be_bytes_length. reflexivity.
Qed.

Lemma encode_length b : String.length (Hex.encode b) = (2 * List.length b)%nat.
Proof. induction b as [|x b IH]; simpl; [reflexivity | rewrite IH; lia]. Qed.

(** Cutting the hex string after [2 n] characters is encoding the first
    [n] bytes. *)
Lemma slice_encode n b :
  Js.slice 0 (2 * n) (Hex.encode b) = Hex.encode (firstn n b).
Proof.
  unfold Js.slice. rewrite Nat.sub_0_r.
  revert b. induction n as [|n IH]; intros b.
  - destruct b; reflexivity.
  - destruct b as [|x b]; [reflexivity|].
    replace (2 * S n)%nat with (S (S (2 * n))) by lia.
    simpl. f_equal. f_equal. apply IH.
Qed.

Lemma digit_is_digit n : Hex.is_digit (Hex.digit n) = true.
Proof.
  destruct n as [|p|p]; try reflexivity;
    do 4 (try destruct p as [p|p|]; try reflexivity).
Qed.

Lemma encode_digits b :
  forallb Hex.is_digit (list_ascii_of_string (Hex.encode b)) = true.
Proof.
  induction b as [|x b IH]; simpl; [reflexivity|].
  rewrite !digit_is_digit. exact IH.
Qed.

End HostId.

(** C1, as worded, fails: the host id is not a double hash.  For the
    token ["abc"] the code returns [api-d15c609c...], the first 128 bits of
    the single hash of ["xabc"]; hashing that digest again (as raw bytes or
    as its hex string) gives other strings. *)
Lemma C1_not_a_double_hash :
  SandstormDb.apiHostIdForToken "abc" = "api-d15c609c78b3106ec54b9f5c4c704376"%string /\
  SandstormDb.apiHostIdForToken "abc" <> spec_doubleHashHostId false "abc" /\
  SandstormDb.apiHostIdForToken "abc" <> spec_doubleHashHostId true "abc".
Proof.
  split; [vm_compute; reflexivity|].
  split; vm_compute; intros H; discriminate H.
Qed.

(** C1, amended: for every token T the host id is ["api-"] followed by
    the hex encoding of the first 16 bytes (128 bits) of the single
    SHA-256 hash of ["x" + T]; that suffix is 32 lower-case hex digits.
    [apiHostIdForToken] is a function of the token alone, so two calls on
    the same token return the same id. *)
Theorem C1_apiHostId_single_hash (token : string) :
  SandstormDb.apiHostIdForToken token
  = ("api-" +:+ Hex.encode (firstn 16 (SHA256.digest (Js.bytes_of_string ("x" +:+ token)))))
  /\ String.length (SandstormDb.apiHostIdHashForToken token) = 32%nat
  /\ forallb Hex.is_digit
       (list_ascii_of_string (SandstormDb.apiHostIdHashForToken token)) = true.
Proof.
  assert (E : SandstormDb.apiHostIdHashForToken token
              = Hex.encode (firstn 16 (SHA256.digest (Js.bytes_of_string ("x" +:+ token))))).
  { unfold SandstormDb.apiHostIdHashForToken, sha256_hex.
    exact (slice_encode 16 _). }
  split; [|split].
  - unfold SandstormDb.apiHostIdForToken. now rewrite E.
  - rewrite E, encode_length, List.length_firstn, digest_length. reflexivity.
  - rewrite E. apply encode_digits.
Qed.

(* ===================================================================== *)
(** ** C2: [validateWebkey], missing and revoked tokens *)
(* ===================================================================== *)

Section ValidateWebkey.

Implicit Types (db : ApiTokensCollection) (t : ApiToken).

Lemma early_checks_pass t refresh now0 now db :
  passesEarlyChecks t now0 ->
  validateWebkey (Some t) refresh now0 now db
  = match checkUnused t refresh now db with
    | (Some f, db') => (Some f, db')
    | (None, db') =>
        if Js.truthy (objectId t) || Js.truthy (frontendRef t)
        then (Some NonWebviewCapability, db') else (None, db')
    end.
Proof.
  intros (Hr & Ho & He). unfold validateWebkey. rewrite Hr.
  destruct (owner t) as [o|]; [rewrite Ho|]; simpl;
    (destruct (expires t) as [e|]; [replace (e <=? now0) with false by lia|]; reflexivity).
Qed.

Lemma update_preserves_wf id v db :
  ApiTokens_wf db -> ApiTokens_wf (ApiTokens_update_expiresIfUnused id v db).
Proof.
  intros Hwf k t. unfold ApiTokens_update_expiresIfUnused.
  rewrite lookup_alter. case_decide as Hk.
  - subst k. destruct (db !! id) as [t0|] eqn:E; simpl; [|discriminate].
    intros [= <-]. simpl. now apply Hwf.
  - apply Hwf.
Qed.

Lemma checkUnused_preserves_wf t refresh now db :
  ApiTokens_wf db -> ApiTokens_wf (snd (checkUnused t refresh now db)).
Proof.
  intros Hwf. unfold checkUnused.
  destruct (expiresIfUnused t) as [u|]; [|exact Hwf].
  destruct (u <=? now); [exact Hwf|].
  destruct refresh; simpl; now apply update_preserves_wf.
Qed.

Lemma validateWebkey_preserves_wf o refresh now0 now db :
  ApiTokens_wf db -> ApiTokens_wf (snd (validateWebkey o refresh now0 now db)).
Proof.
  intros Hwf. unfold validateWebkey.
  destruct o as [t|]; [|exact Hwf].
  destruct (revoked t); [exact Hwf|].
  destruct (match owner t with Some o => negb (has_webkey o) | None => false end);
    [exact Hwf|].
  destruct (match expires t with Some e => e <=? now0 | None => false end);
    [exact Hwf|].
  pose proof (checkUnused_preserves_wf t refresh now db Hwf) as H.
  destruct (checkUnused t refresh now db) as [[f|] db']; simpl in *; [exact H|].
  destruct (Js.truthy (objectId t) || Js.truthy (frontendRef t)); exact H.
Qed.

(** Once cleared, no validation of any token sets the field of [h] again. *)
Lemma validateToken_keeps_cleared h h' refresh now0 now db :
  ApiTokens_wf db -> unusedCleared h db ->
  unusedCleared h (snd (validateToken h' refresh now0 now db)).
Proof.
  intros Hwf Hc. unfold validateToken, ApiTokens_findOne, validateWebkey.
  destruct (db !! h') as [t'|] eqn:E; [|exact Hc].
  destruct (revoked t'); [exact Hc|].
  destruct (match owner t' with Some o => negb (has_webkey o) | None => false end);
    [exact Hc|].
  destruct (match expires t' with Some e => e <=? now0 | None => false end);
    [exact Hc|].
  assert (Hk : unusedCleared h (snd (checkUnused t' refresh now db))).
  { unfold checkUnused.
    destruct (expiresIfUnused t') as [u|] eqn:Eu; [|exact Hc].
    destruct (u <=? now); [exact Hc|].
    assert (Hne : h' <> h).
    { intros ->. rewrite (Hc _ E) in Eu. discriminate. }
    rewrite (Hwf _ _ E).
    destruct refresh; simpl; intros t; unfold ApiTokens_update_expiresIfUnused;
      rewrite lookup_alter_ne by exact Hne; apply Hc. }
  destruct (checkUnused t' refresh now db) as [[f|] db']; simpl in *; [exact Hk|].
  destruct (Js.truthy (objectId t') || Js.truthy (frontendRef t')); exact Hk.
Qed.

Lemma validate_all_keeps_cleared h vs db :
  ApiTokens_wf db -> unusedCleared h db ->
  ApiTokens_wf (validate_all vs db) /\ unusedCleared h (validate_all vs db).
Proof.
  revert db. induction vs as [|v vs IH]; intros db Hwf Hc; [now split|].
  unfold validate_all in *. simpl. apply IH.
  - apply validateWebkey_preserves_wf, Hwf.
  - apply validateToken_keeps_cleared; assumption.
Qed.

(** A validation fails for lack of use only if the field is set. *)
Lemma expiredUnused_needs_field h refresh now0 now db :
  fst (validateToken h refresh now0 now db) = Some TokenExpiredUnused ->
  exists t u, db !! h = Some t /\ expiresIfUnused t = Some u.
Proof.
  unfold validateToken, ApiTokens_findOne, validateWebkey.
  destruct (db !! h) as [t|]; [|discriminate].
  destruct (revoked t); [discriminate|].
  destruct (match owner t with Some o => negb (has_webkey o) | None => false end);
    [discriminate|].
  destruct (match expires t with Some e => e <=? now0 | None => false end);
    [discriminate|].
  unfold checkUnused.
  destruct (expiresIfUnused t) as [u|] eqn:Eu;
    [intros _; exists t, u; split; [reflexivity | exact Eu]|].
  simpl. destruct (Js.truthy (objectId t) || Js.truthy (frontendRef t)); discriminate.
Qed.

End ValidateWebkey.

(** C2, as worded, fails: with no record for the presented secret the
    validation throws [Meteor.Error(403, "Invalid authorization token")],
    which is not a NotFound (404/410) error. *)
Lemma C2_missing_token_is_403 :
  fst (validateToken "unknown" None 0 0 ∅) = Some InvalidToken /\
  meteor (thrown InvalidToken) = Some (403, "Invalid authorization token"%string) /\
  ~ isNotFound (thrown InvalidToken).
Proof.
  split; [reflexivity|]. split; [reflexivity|].
  intros [reason [H|H]]; simpl in H; discriminate H.
Qed.

(** C2, amended: where no token record exists for the presented secret
    the validation fails with the 403 error "Invalid authorization token"
    (a Forbidden error, not a NotFound one); where the record exists and
    has [revoked = true] it fails with the 403 error "Authorization token
    has been revoked".  Neither touches the collection. *)
Theorem C2_missing_or_revoked
    (apiToken : option ApiToken) (refresh : option Z) (now0 now : Z)
    (db : ApiTokensCollection) :
  (apiToken = None ->
     validateWebkey apiToken refresh now0 now db = (Some InvalidToken, db)) /\
  (forall t, apiToken = Some t -> revoked t = true ->
     validateWebkey apiToken refresh now0 now db = (Some TokenRevoked, db)) /\
  thrown InvalidToken = Meteor_Error 403 "Invalid authorization token" /\
  thrown TokenRevoked = Meteor_Error 403 "Authorization token has been revoked" /\
  isForbidden (thrown InvalidToken) /\ isForbidden (thrown TokenRevoked).
Proof.
  split; [intros ->; reflexivity|].
  split; [intros t -> Hr; unfold validateWebkey; now rewrite Hr|].
  repeat split; try reflexivity; eexists; reflexivity.
Qed.

Lemma C2_missing_or_revoked_witness :
  validateWebkey None None 0 0 ∅ = (Some InvalidToken, ∅) /\
  validateWebkey (Some (set_revoked true sample_token)) None 0 0
                 {[ "h4sh"%string := set_revoked true sample_token ]}
  = (Some TokenRevoked, {[ "h4sh"%string := set_revoked true sample_token ]}).
Proof.
  split.
  - exact (proj1 (C2_missing_or_revoked None None 0 0 ∅) eq_refl).
  - exact (proj1 (proj2 (C2_missing_or_revoked
                           (Some (set_revoked true sample_token)) None 0 0
                           {[ "h4sh"%string := set_revoked true sample_token ]}))
                 _ eq_refl eq_refl).
Defined.

(* ===================================================================== *)
(** ** C3: retries in request handling *)
(* ===================================================================== *)

Section RequestHandling.

Import Http.

Lemma dispatch_unsupported m : ~ In m acceptedMethods -> dispatch m = None.
Proof.
  intros H. unfold dispatch.
  repeat match goal with
         | |- context [String.eqb m ?s] =>
             destruct (String.eqb_spec m s) as [->|?];
             [exfalso; apply H; simpl; tauto|]
         end.
  reflexivity.
Qed.

Lemma dispatch_supported m : In m acceptedMethods -> dispatch m <> None.
Proof.
  simpl. intros H.
  repeat (destruct H as [<-|H]; [discriminate|]). destruct H.
Qed.

(** Opening the session issues no call on the session and asks for no
    restart. *)
Lemma getSession_quiet w :
  sessionCalls (trace (getSession w)) = sessionCalls (trace w) /\
  reconnects (trace (getSession w)) = reconnects (trace w).
Proof.
  unfold getSession, getConnection, sessionCalls, reconnects.
  destruct (Js.truthy (session (self w))); [now split|].
  destruct (Js.truthy (supervisor (self w))); simpl;
    try match goal with |- context [if ?b then _ else _] => destruct b end; simpl;
    rewrite ?List.filter_app, ?List.length_app; simpl; split; lia.
Qed.

Lemma setHasLoaded_quiet w :
  sessionCalls (trace (setHasLoaded w)) = sessionCalls (trace w) /\
  reconnects (trace (setHasLoaded w)) = reconnects (trace w).
Proof.
  unfold setHasLoaded, sessionCalls, reconnects.
  destruct (hasLoaded (self w)); [now split|]. simpl.
  rewrite !List.filter_app, !List.length_app. simpl. split; lia.
Qed.

Lemma methodNotSupported_not_retried retryCount :
  shouldRestartGrain methodNotSupported retryCount = false.
Proof. reflexivity. Qed.

End RequestHandling.

(** Close a goal "the handler settles here, and the trace is bounded". *)
Ltac settles := eexists _, _; split; [reflexivity | try split; lia].

Section Retry.

Import Http.
Local Open Scope nat_scope.

Lemma call_trace name w :
  sessionCalls (trace (snd (call name w))) = S (sessionCalls (trace w)) /\
  reconnects (trace (snd (call name w))) = reconnects (trace w).
Proof.
  unfold call, sessionCalls, reconnects. simpl.
  destruct (rpcs w); simpl; rewrite !List.filter_app, !List.length_app; simpl; split; lia.
Qed.

(** One pass through the chain of [handleRequest] issues at most one call
    on the session and asks for no restart. *)
Lemma attempt_trace req w :
  sessionCalls (trace (snd (attempt req w))) <= S (sessionCalls (trace w)) /\
  reconnects (trace (snd (attempt req w))) = reconnects (trace w).
Proof.
  unfold attempt.
  destruct (makeContext (self w) req); simpl; [|split; lia].
  destruct (getSession_quiet w) as [Hs Hr].
  destruct (dispatch (method req)) as [[name args]|]; simpl; [|split; lia].
  destruct (arguments req args) as [[e hs]|]; simpl; [split; lia|].
  destruct (call_trace name (getSession w)) as [Cs Cr].
  destruct (call name (getSession w)) as [[[status|e]|] w2]; simpl in *.
  - destruct (String.eqb name "options"); simpl; [split; lia|].
    destruct (setHasLoaded_quiet w2) as [-> ->]. split; lia.
  - destruct (String.eqb name "options" && _); simpl; split; lia.
  - split; lia.
Qed.

(** [maybeRetryAfterError] asks for a restart exactly when the error is
    retriable, issues no call on the session, and hands the chain back
    only with [retryCount = 0]. *)
Lemma maybeRetry_trace error hs retryCount w :
  match maybeRetryAfterError error hs retryCount w with
  | inl w' =>
      retryCount = O /\ transient error = true /\
      reconnects (trace w') = S (reconnects (trace w)) /\
      sessionCalls (trace w') = sessionCalls (trace w)
  | inr (_, w') =>
      reconnects (trace w') <= S (reconnects (trace w)) /\
      sessionCalls (trace w') = sessionCalls (trace w)
  end.
Proof.
  unfold maybeRetryAfterError, shouldRestartGrain.
  destruct (transient error); simpl; [|split; lia].
  destruct retryCount as [|n]; simpl; [|split; lia].
  unfold ProxyClass.resetConnection, sessionCalls, reconnects. simpl.
  destruct (restarts w) as [|[h|e] rest]; simpl;
    rewrite !List.filter_app, !List.length_app;
    destruct (session (self w)), (uiView (self w)), (supervisor (self w)); simpl;
    repeat split; lia.
Qed.

Lemma maybeRetry_second_time error hs n w :
  maybeRetryAfterError error hs (S n) w = inr (Failed error hs, w).
Proof.
  unfold maybeRetryAfterError, shouldRestartGrain.
  now rewrite andb_false_r.
Qed.

(** Without streaming the bound holds: [handleRequest] started with
    [retryCount = 0] settles within two passes, having asked for at most
    one restart and issued at most two calls on the session. *)
Lemma handleRequest_retries_at_most_once fuel req w :
  exists r w',
    handleRequest (2 + fuel) req 0 w = Some (r, w') /\
    reconnects (trace w') <= S (reconnects (trace w)) /\
    sessionCalls (trace w') <= 2 + sessionCalls (trace w).
Proof.
  simpl handleRequest.
  pose proof (attempt_trace req w) as [As Ar].
  destruct (attempt req w) as [[s|e hs|] w1]; simpl in *;
    try settles.
  pose proof (maybeRetry_trace e hs 0 w1) as Hm.
  destruct (maybeRetryAfterError e hs 0 w1) as [w2|[r w2]].
  - destruct Hm as (_ & _ & Mr & Ms).
    pose proof (attempt_trace req w2) as [Bs Br].
    destruct (attempt req w2) as [[s'|e' hs'|] w3]; simpl in *;
      try settles.
    rewrite maybeRetry_second_time.
    settles.
  - destruct Hm as [Mr Ms]. settles.
Qed.

(** An error that comes out of an RPC is not a [Meteor.Error]: the
    client is sent a 500. *)
Lemma answerError_rpc type msg :
  answerError (KjError type msg) false
  = Wrote 500 "Internal Server Error"
          (Report (KjError type msg) (typeLine (KjError type msg))).
Proof. reflexivity. Qed.

(** When the first pass and its replay both fail and the first error was
    retried, the request fails with the second error: there is no third
    pass. *)
Lemma handleRequest_second_transient_fails fuel req w w1 w2 w3 e1 e2 hs1 hs2 :
  attempt req w = (Failed e1 hs1, w1) ->
  maybeRetryAfterError e1 hs1 0 w1 = inl w2 ->
  attempt req w2 = (Failed e2 hs2, w3) ->
  handleRequest (2 + fuel) req 0 w = Some (Failed e2 hs2, w3).
Proof.
  intros H1 H2 H3. simpl. rewrite H1, H2, H3.
  now rewrite maybeRetry_second_time.
Qed.

(** The streamed path: what a pass of [handleRequestStreaming] adds to the
    trace before it fails, falls back or retries. *)
Lemma streaming_second_pass fuel req w :
  exists r w',
    handleRequestStreaming (2 + fuel) req 1 w = Some (r, w') /\
    reconnects (trace w') <= 1 + reconnects (trace w).
Proof.
  cbn [handleRequestStreaming Nat.add].
  destruct (makeContext (self w) req); [|settles].
  destruct (getSession_quiet w) as [_ Hr].
  destruct (if String.eqb (method req) "POST" then _ else _) as [name|];
    [|settles].
  destruct (call_trace name (getSession w)) as [_ Cr].
  destruct (call name (getSession w)) as [[[status|e]|] w2]; cbn [snd] in Cr.
  - destruct (call_trace "getResponse" w2) as [_ Gr].
    destruct (call "getResponse" w2) as [[[status'|e']|] w3]; cbn [snd] in Gr;
      eexists _, _; (split; [reflexivity|]); try lia.
    destruct (setHasLoaded_quiet w3) as [_ ->]. lia.
  - destruct (shouldRestartGrain (patchUnimplemented e) 0).
    + rewrite maybeRetry_second_time. settles.
    + destruct (bool_decide _); [|settles].
      destruct (bodyError req); [settles|].
      destruct (handleRequest_retries_at_most_once fuel req w2) as (r & w' & E & Hrec & _).
      exists r, w'. split; [exact E|lia].
  - settles.
Qed.

Lemma streaming_first_pass fuel req w :
  exists r w',
    handleRequestStreaming (3 + fuel) req 0 w = Some (r, w') /\
    reconnects (trace w') <= 2 + reconnects (trace w).
Proof.
  change (3 + fuel) with (S (2 + fuel)). cbn [handleRequestStreaming].
  destruct (makeContext (self w) req); [|settles].
  destruct (getSession_quiet w) as [_ Hr].
  destruct (if String.eqb (method req) "POST" then _ else _) as [name|];
    [|settles].
  destruct (call_trace name (getSession w)) as [_ Cr].
  destruct (call name (getSession w)) as [[[status|e]|] w2]; cbn [snd] in Cr.
  - destruct (call_trace "getResponse" w2) as [_ Gr].
    destruct (call "getResponse" w2) as [[[status'|e']|] w3]; cbn [snd] in Gr;
      eexists _, _; (split; [reflexivity|]); try lia.
    destruct (setHasLoaded_quiet w3) as [_ ->]. lia.
  - destruct (shouldRestartGrain (patchUnimplemented e) 0).
    + pose proof (maybeRetry_trace (patchUnimplemented e) false 0 w2) as Hm.
      destruct (maybeRetryAfterError (patchUnimplemented e) false 0 w2) as [w3|[r w3]].
      * destruct Hm as (_ & _ & Mr & _).
        destruct (streaming_second_pass fuel req w3) as (r & w' & E & Hrec).
        exists r, w'. split; [exact E|lia].
      * destruct Hm as [Mr _]. settles.
    + destruct (bool_decide _); [|settles].
      destruct (bodyError req); [settles|].
      destruct (handleRequest_retries_at_most_once (1 + fuel) req w2)
        as (r & w' & E & Hrec & _).
      exists r, w'. split; [exact E|lia].
  - settles.
Qed.

(** Every request settles, and the grain is restarted at most twice for
    it: once by [handleRequestStreaming], once more by the [handleRequest]
    of its fallback. *)
Lemma requestHandler_settles fuel req w :
  exists served w',
    requestHandler (3 + fuel) req w = Some (served, w') /\
    reconnects (trace w') <= 2 + reconnects (trace w).
Proof.
  unfold requestHandler.
  destruct (isSessionInit (self w) req); [settles|].
  assert (H : exists r w1,
            (if (String.eqb (method req) "POST" || String.eqb (method req) "PUT") &&
                match contentLength req with None => true | Some n => (1024 * 1024 <? n)%Z end
             then handleRequestStreaming (3 + fuel) req 0 w
             else match bodyError req with
                  | Some e => Some (Failed e false, w)
                  | None => handleRequest (3 + fuel) req 0 w
                  end) = Some (r, w1) /\
            reconnects (trace w1) <= 2 + reconnects (trace w)).
  { destruct (_ && _).
    - apply streaming_first_pass.
    - destruct (bodyError req); [settles|].
      destruct (handleRequest_retries_at_most_once (1 + fuel) req w)
        as (r & w' & E & Hrec & _).
      exists r, w'. split; [exact E|lia]. }
  destruct H as (r & w1 & -> & Hrec).
  destruct r as [s|e hs|]; eexists _, _; (split; [reflexivity|]); try exact Hrec.
  destruct (setHasLoaded_quiet w1) as [_ ->]. exact Hrec.
Qed.

End Retry.

(** C3: the bound of one retry per request is what the code announces
    ("we only want to retry once"), and a request handled by
    [handleRequest] alone keeps it.  A streamed request does not: the
    fallback of [handleRequestStreaming] calls [handleRequest] with a
    retry count of 0 again.  Here the grain is restarted twice and four
    calls are issued on the session for one POST, before the client is
    sent the 500. *)
Theorem C3_streaming_fallback_restarts_twice :
  exists w',
    Http.requestHandler 4 upload_request dying_grain
    = Some (Http.Wrote 500 "Internal Server Error"
                       (Http.Report disconnected (Http.typeLine disconnected)), w') /\
    Http.reconnects (Http.trace w') = 2%nat /\
    Http.sessionCalls (Http.trace w') = 4%nat /\
    List.filter Http.isSessionCall (Http.trace w')
    = [SessionCall "postStreaming"; SessionCall "postStreaming";
       SessionCall "post"; SessionCall "post"].
Proof.
  eexists. split; [vm_compute; reflexivity|].
  repeat split.
Qed.

(* ===================================================================== *)
(** ** C4: the backend health check *)
(* ===================================================================== *)

Section HealthCheck.

Lemma failedChecks_cons h a rest :
  failedChecks h (a :: rest)
  = ((if h then 0 else 1) + Health.failures (removelast (a :: rest)))%nat.
Proof.
  unfold Health.failures. revert h a.
  induction rest as [|b rest IH]; intros h a.
  - simpl. lia.
  - change (failedChecks h (a :: b :: rest))
      with ((if h then 0 else 1) + failedChecks a (b :: rest))%nat.
    rewrite IH.
    change (removelast (a :: b :: rest)) with (a :: removelast (b :: rest)).
    destruct a; simpl; lia.
Qed.

Lemma failedChecks_removelast pings :
  failedChecks true pings = Health.failures (removelast pings).
Proof.
  destruct pings as [|a rest]; [reflexivity|].
  rewrite failedChecks_cons. reflexivity.
Qed.

(** The run from any state whose counter is at most 3: it aborts when the
    counter would have to pass 3, and counts the failed checks otherwise. *)
Lemma run_counts pings :
  forall h c r, 0 <= c <= 3 ->
  Health.run pings (Health.State h c r)
  = if (c + Z.of_nat (failedChecks h pings) <=? 3)
    then Some (Health.State (List.last pings h)
                            (c + Z.of_nat (failedChecks h pings))
                            (r + failedChecks h pings))
    else None.
Proof.
  induction pings as [|a rest IH]; intros h c r Hc.
  - simpl. rewrite Z.add_0_r, Nat.add_0_r.
    replace (c <=? 3) with true by (symmetry; apply Z.leb_le; lia). reflexivity.
  - assert (Hlast : List.last (a :: rest) h = List.last rest a).
    { destruct rest; [reflexivity|]. simpl. clear.
      revert b. induction rest; intros; simpl; [reflexivity|]. apply IHrest. }
    rewrite Hlast. simpl Health.run. unfold Health.tick. simpl.
    destruct h; simpl.
    + assert (E : Health.ping a (Health.State false c r) = Health.State a c r)
        by (destruct a; reflexivity).
      rewrite E, IH by lia. reflexivity.
    + destruct (2 <? c) eqn:E2.
      * apply Z.ltb_lt in E2.
        replace (c + Z.of_nat (S (failedChecks a rest)) <=? 3) with false
          by (symmetry; apply Z.leb_gt; lia).
        reflexivity.
      * assert (E : Health.ping a (Health.State false (c + 1) (S r))
                    = Health.State a (c + 1) (S r)) by (destruct a; reflexivity).
        rewrite E, IH by lia.
        replace (c + 1 + Z.of_nat (failedChecks a rest))
          with (c + Z.of_nat (S (failedChecks a rest))) by lia.
        replace (S r + failedChecks a rest)%nat
          with (r + S (failedChecks a rest))%nat by lia.
        reflexivity.
Qed.

End HealthCheck.

(** C4, as worded, fails: with every ping unanswered from the start, the
    checks of the second and of the third tick both fail, and the process
    is still running after the third tick (it has remade the connection
    twice); it also survives the fourth and aborts in the fifth. *)
Lemma C4_two_failed_checks_do_not_abort :
  Health.run [false; false; false] Health.initial = Some (Health.State false 2 2) /\
  Health.run [false; false; false; false] Health.initial = Some (Health.State false 3 3) /\
  Health.run [false; false; false; false; false] Health.initial = None.
Proof. repeat split. Qed.

(** C4, amended: over any series of ticks, the process aborts in the
    fourth tick -- counted since the process started, consecutive or not
    -- that finds the ping of the previous tick unanswered; each of the
    first three such ticks tears the backend connection down and remakes
    it, and the counter is never reset. *)
Theorem C4_abort_on_fourth_failed_check (pings : list bool) :
  match Health.run pings Health.initial with
  | None => (4 <= Health.failures (removelast pings))%nat
  | Some s =>
      (Health.failures (removelast pings) <= 3)%nat /\
      Health.reconnects s = Health.failures (removelast pings) /\
      Health.disconnectCount s = Z.of_nat (Health.failures (removelast pings)) /\
      Health.backendHealthy s = List.last pings true
  end.
Proof.
  unfold Health.initial. rewrite run_counts by lia.
  rewrite failedChecks_removelast.
  destruct (0 + Z.of_nat (Health.failures (removelast pings)) <=? 3) eqn:E.
  - simpl. repeat split; lia.
  - lia.
Qed.

(* ===================================================================== *)
(** ** C5: the sweep of the double-bucket cache *)
(* ===================================================================== *)

Section Sweep.

Import ApiSessionProxies.

Implicit Types (b : Bucket) (c : t) (st : Store) (s : progress) (r : ProxyRef).

Lemma lookup_put tok par r c tok' par' :
  lookup (newBucket (put tok par r c)) tok' par'
  = if decide (tok = tok' /\ par = par') then Some r
    else lookup (newBucket c) tok' par'.
Proof.
  unfold put, lookup. simpl.
  destruct (decide (tok = tok')) as [<-|Hne].
  - rewrite lookup_insert_eq. simpl.
    destruct (decide (par = par')) as [<-|Hp].
    + rewrite lookup_insert_eq. rewrite decide_True by done. reflexivity.
    + rewrite lookup_insert_ne by done. rewrite decide_False by (intros [_ ?]; done).
      destruct (newBucket c !! tok); simpl; [reflexivity | apply lookup_empty].
  - rewrite lookup_insert_ne by done. rewrite decide_False by (intros [? _]; done).
    reflexivity.
Qed.

(** The two nested loops visit the entries of the old bucket. *)
Lemma sweepToken_entries s (entry : string * gmap string ProxyRef) :
  sweepToken s entry
  = sweepEntries (map (fun kv => (fst entry, kv)) (map_to_list (snd entry))) s.
Proof.
  unfold sweepToken, sweepEntries.
  generalize (map_to_list (snd entry)) as l. intros l. revert s.
  induction l as [|kv l IH]; intros s; simpl; [reflexivity | apply IH].
Qed.

Lemma sweep_loops b s :
  fold_left sweepToken (map_to_list b) s = sweepEntries (bucket_entries b) s.
Proof.
  unfold bucket_entries. generalize (map_to_list b) as l. intros l. revert s.
  induction l as [|entry l IH]; intros s; simpl; [reflexivity|].
  unfold sweepEntries at 1. rewrite fold_left_app.
  fold (sweepEntries (map (fun kv => (fst entry, kv)) (map_to_list (snd entry))) s).
  rewrite <- sweepToken_entries. apply IH.
Qed.

Lemma elem_of_bucket_entries b tok par r :
  (tok, (par, r)) ∈ bucket_entries b <-> lookup b tok par = Some r.
Proof.
  unfold bucket_entries, lookup. rewrite list_elem_of_In, in_flat_map. split.
  - intros ([tok' inner] & Hin & Hkv). simpl in Hkv.
    apply list_elem_of_In, elem_of_map_to_list in Hin.
    apply in_map_iff in Hkv as ([par' r'] & [= <- <- <-] & Hkv).
    apply list_elem_of_In, elem_of_map_to_list in Hkv.
    rewrite Hin. exact Hkv.
  - destruct (b !! tok) as [inner|] eqn:E; simpl; [|discriminate].
    intros Hkv. exists (tok, inner). split.
    + apply list_elem_of_In, elem_of_map_to_list. exact E.
    + simpl. apply in_map_iff. exists (par, r). split; [reflexivity|].
      apply list_elem_of_In, elem_of_map_to_list. exact Hkv.
Qed.

(** *** One visit *)

Lemma close_not_live (p : Proxy) :
  ProxyClass.hasWebsockets (fst (ProxyClass.close p)) = false.
Proof. reflexivity. Qed.

Lemma close_twice (p : Proxy) :
  fst (ProxyClass.close (fst (ProxyClass.close p))) = fst (ProxyClass.close p).
Proof. reflexivity. Qed.

Lemma closes_refl st : closes st st.
Proof. intros r. now left. Qed.

Lemma closes_trans st1 st2 st3 : closes st1 st2 -> closes st2 st3 -> closes st1 st3.
Proof.
  intros H12 H23 r.
  destruct (H23 r) as [E23|(p2 & E2 & Hp2 & E3)], (H12 r) as [E12|(p1 & E1 & Hp1 & E2')].
  - left. congruence.
  - right. exists p1. rewrite E23. done.
  - right. exists p2. rewrite <- E12. done.
  - right. exists p1. split; [done|]. split; [done|].
    rewrite E3. rewrite E2' in E2. injection E2 as <-. reflexivity.
Qed.

Lemma closes_liveb st st' r : closes st st' -> liveb st' r = liveb st r.
Proof.
  intros H. unfold liveb. destruct (H r) as [->|(p & -> & Hp & ->)]; [reflexivity|].
  now rewrite close_not_live.
Qed.

(** An object that is as [close()] leaves it stays so. *)
Lemma closes_closed st st' r (p : Proxy) :
  closes st st' ->
  st !! r = Some (fst (ProxyClass.close p)) ->
  st' !! r = Some (fst (ProxyClass.close p)).
Proof.
  intros H E. destruct (H r) as [->|(p' & E' & _ & ->)]; [exact E|].
  rewrite E in E'. injection E' as <-. reflexivity.
Qed.

Lemma sweepEntry_old tok par r s :
  oldBucket (cache (sweepEntry tok par r s)) = oldBucket (cache s).
Proof.
  unfold sweepEntry.
  destruct (lookup _ tok par); [reflexivity|].
  destruct (store s !! r) as [p|]; [|reflexivity].
  destruct (ProxyClass.hasWebsockets p); [reflexivity|].
  unfold close_ref. destruct (store s !! r); reflexivity.
Qed.

Lemma sweepEntry_closes tok par r s : closes (store s) (store (sweepEntry tok par r s)).
Proof.
  unfold sweepEntry.
  destruct (lookup _ tok par); [apply closes_refl|].
  destruct (store s !! r) as [p|] eqn:E; [|apply closes_refl].
  destruct (ProxyClass.hasWebsockets p) eqn:Hp; [apply closes_refl|].
  unfold close_ref. rewrite E. simpl. intros r'.
  destruct (decide (r = r')) as [<-|Hne].
  - right. exists p. rewrite lookup_insert_eq. done.
  - left. now rewrite lookup_insert_ne.
Qed.

(** What the visit of an entry leaves under a key of the new bucket. *)
Lemma sweepEntry_new tok par r s tok' par' :
  lookup (newBucket (cache (sweepEntry tok par r s))) tok' par'
  = match lookup (newBucket (cache s)) tok' par' with
    | Some r' => Some r'
    | None =>
        if decide (tok = tok' /\ par = par')
        then (if liveb (store s) r then Some r else None)
        else None
    end.
Proof.
  unfold sweepEntry, liveb.
  destruct (lookup (newBucket (cache s)) tok par) as [r0|] eqn:E0.
  - destruct (lookup (newBucket (cache s)) tok' par') eqn:E'; [reflexivity|].
    rewrite decide_False; [reflexivity|]. intros [<- <-]. congruence.
  - destruct (store s !! r) as [p|] eqn:E.
    + destruct (ProxyClass.hasWebsockets p) eqn:Hp.
      * cbn [cache]. rewrite lookup_put.
        destruct (decide (tok = tok' /\ par = par')) as [[<- <-]|Hne].
        -- now rewrite E0.
        -- now destruct (lookup (newBucket (cache s)) tok' par').
      * unfold close_ref. rewrite E. simpl.
        destruct (lookup (newBucket (cache s)) tok' par'); [reflexivity|].
        now destruct (decide _).
    + destruct (lookup (newBucket (cache s)) tok' par'); [reflexivity|].
      now destruct (decide _).
Qed.

(** The visit of an entry without WebSockets, not shadowed in the new
    bucket, closes its proxy. *)
Lemma sweepEntry_closed tok par r s (p : Proxy) :
  lookup (newBucket (cache s)) tok par = None ->
  store s !! r = Some p ->
  ProxyClass.hasWebsockets p = false ->
  store (sweepEntry tok par r s) !! r = Some (fst (ProxyClass.close p)) /\
  r ∈ closed (sweepEntry tok par r s) /\
  (forall e, e ∈ snd (ProxyClass.close p) -> e ∈ events (sweepEntry tok par r s)).
Proof.
  intros E0 E Hp. unfold sweepEntry. rewrite E0, E, Hp.
  unfold close_ref. rewrite E. cbn [store closed events]. split; [|split].
  - apply lookup_insert_eq.
  - apply elem_of_app. right. apply list_elem_of_singleton. reflexivity.
  - intros e He. apply elem_of_app. now right.
Qed.

(** A visit changes an object of the store only by closing it, and logs
    that. *)
Lemma sweepEntry_step tok par r s r0 :
  store (sweepEntry tok par r s) !! r0 = store s !! r0 \/
  exists p, store s !! r0 = Some p /\
            store (sweepEntry tok par r s) !! r0 = Some (fst (ProxyClass.close p)) /\
            r0 ∈ closed (sweepEntry tok par r s) /\
            (forall e, e ∈ snd (ProxyClass.close p) -> e ∈ events (sweepEntry tok par r s)).
Proof.
  destruct (lookup (newBucket (cache s)) tok par) as [r1|] eqn:E0.
  { left. unfold sweepEntry. now rewrite E0. }
  destruct (store s !! r) as [p|] eqn:E.
  2: { left. unfold sweepEntry. now rewrite E0, E. }
  destruct (ProxyClass.hasWebsockets p) eqn:Hp.
  { left. unfold sweepEntry. now rewrite E0, E, Hp. }
  destruct (decide (r = r0)) as [<-|Hne].
  - right. exists p. split; [exact E|]. now apply sweepEntry_closed.
  - left. unfold sweepEntry. rewrite E0, E, Hp. unfold close_ref. rewrite E.
    cbn [store]. now rewrite lookup_insert_ne.
Qed.

Lemma sweepEntry_events_mono tok par r s e :
  e ∈ events s -> e ∈ events (sweepEntry tok par r s).
Proof.
  intros H. unfold sweepEntry.
  destruct (lookup _ tok par); [exact H|].
  destruct (store s !! r) as [p|] eqn:E; [|exact H].
  destruct (ProxyClass.hasWebsockets p); [exact H|].
  unfold close_ref. rewrite E. simpl. apply elem_of_app. now left.
Qed.

Lemma sweepEntry_closed_mono tok par r s r' :
  r' ∈ closed s -> r' ∈ closed (sweepEntry tok par r s).
Proof.
  intros H. unfold sweepEntry.
  destruct (lookup _ tok par); [exact H|].
  destruct (store s !! r) as [p|] eqn:E; [|exact H].
  destruct (ProxyClass.hasWebsockets p); [exact H|].
  unfold close_ref. rewrite E. simpl. apply elem_of_app. now left.
Qed.

(** *** The loops *)

Lemma sweepEntries_old l s : oldBucket (cache (sweepEntries l s)) = oldBucket (cache s).
Proof.
  revert s. induction l as [|e l IH]; intros s; simpl; [reflexivity|].
  unfold sweepEntries in *. simpl. rewrite IH. apply sweepEntry_old.
Qed.

Lemma sweepEntries_closes l s : closes (store s) (store (sweepEntries l s)).
Proof.
  revert s. induction l as [|e l IH]; intros s; [apply closes_refl|].
  unfold sweepEntries in *. simpl.
  eapply closes_trans; [apply sweepEntry_closes | apply IH].
Qed.

Lemma sweepEntries_closed_mono l s r :
  r ∈ closed s -> r ∈ closed (sweepEntries l s).
Proof.
  revert s. induction l as [|e l IH]; intros s H; [exact H|].
  unfold sweepEntries in *. simpl. apply IH, sweepEntry_closed_mono, H.
Qed.

Lemma sweepEntries_events_mono l s e :
  e ∈ events s -> e ∈ events (sweepEntries l s).
Proof.
  revert s. induction l as [|x l IH]; intros s H; [exact H|].
  unfold sweepEntries in *. simpl. apply IH, sweepEntry_events_mono, H.
Qed.

(** An entry of the new bucket is never replaced. *)
Lemma sweepEntries_new_kept l s tok par r :
  lookup (newBucket (cache s)) tok par = Some r ->
  lookup (newBucket (cache (sweepEntries l s))) tok par = Some r.
Proof.
  revert s. induction l as [|e l IH]; intros s H; [exact H|].
  unfold sweepEntries in *. simpl. apply IH.
  rewrite sweepEntry_new, H. reflexivity.
Qed.

Lemma functional_tail e l : functional (e :: l) -> functional l.
Proof. intros H tok par r r' H1 H2. eapply H; apply elem_of_cons; right; eassumption. Qed.

(** A key that neither bucket has is not created. *)
Lemma sweepEntries_new_absent l s tok par :
  (forall r, (tok, (par, r)) ∉ l) ->
  lookup (newBucket (cache s)) tok par = None ->
  lookup (newBucket (cache (sweepEntries l s))) tok par = None.
Proof.
  revert s. induction l as [|[tok' [par' r']] l IH]; intros s Hnin Hnew; [exact Hnew|].
  unfold sweepEntries in *. simpl. apply IH.
  - intros r Hin. apply (Hnin r), elem_of_cons. now right.
  - rewrite sweepEntry_new, Hnew.
    destruct (decide (tok' = tok /\ par' = par)) as [[-> ->]|]; [|reflexivity].
    exfalso. apply (Hnin r'), elem_of_cons. now left.
Qed.

(** What the loops leave under a key that the new bucket did not have. *)
Lemma sweepEntries_new_visited l s tok par r :
  functional l ->
  (tok, (par, r)) ∈ l ->
  lookup (newBucket (cache s)) tok par = None ->
  lookup (newBucket (cache (sweepEntries l s))) tok par
  = if liveb (store s) r then Some r else None.
Proof.
  revert s. induction l as [|e l IH]; intros s Hf Hin Hnew.
  { apply elem_of_nil in Hin. destruct Hin. }
  unfold sweepEntries in *. simpl.
  destruct e as [tok' [par' r']]. simpl.
  destruct (decide (tok' = tok /\ par' = par)) as [[-> ->]|Hne].
  - assert (r' = r) as ->.
    { eapply Hf; [apply elem_of_cons; left; reflexivity | exact Hin]. }
    pose proof (sweepEntry_new tok par r s tok par) as Hstep.
    rewrite Hnew, decide_True in Hstep by done.
    destruct (liveb (store s) r) eqn:Hl.
    + apply (sweepEntries_new_kept l), Hstep.
    + destruct (decide ((tok, (par, r)) ∈ l)) as [Hin'|Hnin].
      * rewrite (IH _ (functional_tail _ _ Hf) Hin' Hstep).
        rewrite (closes_liveb _ _ _ (sweepEntry_closes tok par r s)), Hl. reflexivity.
      * apply (sweepEntries_new_absent l); [|exact Hstep].
        intros r1 H1. apply Hnin.
        replace r with r1; [exact H1|].
        eapply Hf; [apply elem_of_cons; right; exact H1|].
        apply elem_of_cons. now left.
  - apply elem_of_cons in Hin as [[= -> -> ->]|Hin]; [exfalso; now apply Hne|].
    rewrite (IH _ (functional_tail _ _ Hf) Hin).
    + now rewrite (closes_liveb _ _ _ (sweepEntry_closes tok' par' r' s)).
    + rewrite sweepEntry_new, Hnew. rewrite decide_False by exact Hne. reflexivity.
Qed.

(** The proxy of a visited entry without WebSockets, not shadowed in the
    new bucket, is closed. *)
Lemma sweepEntries_closed l s tok par r (p : Proxy) :
  functional l ->
  (tok, (par, r)) ∈ l ->
  lookup (newBucket (cache s)) tok par = None ->
  store s !! r = Some p ->
  ProxyClass.hasWebsockets p = false ->
  store (sweepEntries l s) !! r = Some (fst (ProxyClass.close p)) /\
  r ∈ closed (sweepEntries l s) /\
  (forall e, e ∈ snd (ProxyClass.close p) -> e ∈ events (sweepEntries l s)).
Proof.
  revert s. induction l as [|[tok' [par' r']] l IH]; intros s Hf Hin Hnew E Hp.
  { apply elem_of_nil in Hin. destruct Hin. }
  assert (Hrest : forall s1,
            store s1 !! r = Some (fst (ProxyClass.close p)) ->
            r ∈ closed s1 ->
            (forall e, e ∈ snd (ProxyClass.close p) -> e ∈ events s1) ->
            store (sweepEntries l s1) !! r = Some (fst (ProxyClass.close p)) /\
            r ∈ closed (sweepEntries l s1) /\
            (forall e, e ∈ snd (ProxyClass.close p) -> e ∈ events (sweepEntries l s1))).
  { intros s1 Hst Hcl Hev. split; [|split].
    - eapply closes_closed; [apply (sweepEntries_closes l)|exact Hst].
    - apply (sweepEntries_closed_mono l), Hcl.
    - intros e He. apply (sweepEntries_events_mono l), Hev, He. }
  unfold sweepEntries in *. simpl.
  destruct (decide (tok' = tok /\ par' = par)) as [[-> ->]|Hne].
  - assert (r' = r) as ->.
    { eapply Hf; [apply elem_of_cons; left; reflexivity | exact Hin]. }
    destruct (sweepEntry_closed tok par r s p Hnew E Hp) as (Hst & Hcl & Hev).
    now apply Hrest.
  - apply elem_of_cons in Hin as [[= -> -> ->]|Hin]; [exfalso; now apply Hne|].
    pose proof (sweepEntry_new tok' par' r' s tok par) as Hstep.
    rewrite Hnew, decide_False in Hstep by exact Hne.
    destruct (sweepEntry_step tok' par' r' s r) as [Hr|(p0 & E0 & Hst & Hcl & Hev)].
    + apply (IH _ (functional_tail _ _ Hf) Hin Hstep); [congruence | exact Hp].
    + rewrite E in E0. injection E0 as <-. now apply Hrest.
Qed.

Lemma bucket_entries_functional b : functional (bucket_entries b).
Proof.
  intros tok par r r' H1 H2.
  apply elem_of_bucket_entries in H1, H2. congruence.
Qed.

(** The proxies behind the references with WebSockets are not touched. *)
Lemma closes_live st st' r : closes st st' -> liveb st r = true -> st' !! r = st !! r.
Proof.
  intros H Hl. destruct (H r) as [E|(p & E & Hp & _)]; [exact E|].
  unfold liveb in Hl. rewrite E, Hp in Hl. discriminate.
Qed.

(** The sweep, key by key: the new bucket is empty; the old bucket has,
    under every key, the entry of the previous new bucket if there was
    one, and otherwise the entry of the previous old bucket if its proxy
    has a WebSocket. *)
Lemma sweep_buckets c st tok par :
  newBucket (cache (sweep c st)) = ∅ /\
  lookup (oldBucket (cache (sweep c st))) tok par
  = match lookup (newBucket c) tok par with
    | Some r => Some r
    | None =>
        match lookup (oldBucket c) tok par with
        | Some r => if liveb st r then Some r else None
        | None => None
        end
    end.
Proof.
  unfold sweep. cbn [cache newBucket oldBucket]. split; [reflexivity|].
  rewrite sweep_loops.
  destruct (lookup (newBucket c) tok par) as [r|] eqn:En.
  - now apply sweepEntries_new_kept.
  - destruct (lookup (oldBucket c) tok par) as [r|] eqn:Eo.
    + apply (sweepEntries_new_visited _ (Progress c st [] [])).
      * apply bucket_entries_functional.
      * now apply elem_of_bucket_entries.
      * exact En.
    + apply sweepEntries_new_absent; [|exact En].
      intros r Hin. apply elem_of_bucket_entries in Hin. congruence.
Qed.

Lemma sweep_closes c st : closes st (store (sweep c st)).
Proof.
  unfold sweep. cbn [store]. rewrite sweep_loops.
  apply (sweepEntries_closes _ (Progress c st [] [])).
Qed.

End Sweep.

(** The raced cache arises from the empty one by the operations of the
    class: a put, a sweep, and a second put under the same key. *)
Lemma raced_cache_reachable :
  ApiSessionProxies.put "tok" "par" 2%positive
    (ApiSessionProxies.cache
       (ApiSessionProxies.sweep
          (ApiSessionProxies.put "tok" "par" 1%positive (ApiSessionProxies.Cache ∅ ∅))
          raced_store))
  = raced_cache.
Proof. vm_compute. reflexivity. Qed.

(** C5, as worded, fails: an old-bucket entry whose proxy holds a
    WebSocket is not kept when the new bucket has an entry under the same
    key (two requests raced to create the proxy of that key).  After the
    sweep the proxy is in neither bucket, and it was not closed either. *)
Lemma C5_shadowed_live_entry_is_dropped :
  ~ spec_live_entries_remain raced_cache raced_store /\
  ApiSessionProxies.lookup
    (ApiSessionProxies.oldBucket
       (ApiSessionProxies.cache (ApiSessionProxies.sweep raced_cache raced_store)))
    "tok" "par" = Some 2%positive /\
  ApiSessionProxies.closed (ApiSessionProxies.sweep raced_cache raced_store) = [].
Proof.
  split; [|split; vm_compute; reflexivity].
  intros Hspec.
  destruct (Hspec "tok"%string "par"%string 1%positive) as [H|H].
  - reflexivity.
  - exists busy_proxy. split; reflexivity.
  - vm_compute in H. discriminate H.
  - vm_compute in H. discriminate H.
Qed.

(** C5, amended: a sweep leaves the new bucket empty and makes the
    previous new bucket the old one, every entry of it kept; every entry
    of the previous old bucket that has no same-key entry in the new
    bucket is closed and dropped from the cache when its proxy has no
    WebSocket, and stays in the cache (in the bucket that is now old),
    untouched, when its proxy has at least one. *)
Theorem C5_sweep (c : ApiSessionProxies.t) (st : Store) :
  ApiSessionProxies.newBucket (ApiSessionProxies.cache (ApiSessionProxies.sweep c st)) = ∅ /\
  (forall tok par r,
     ApiSessionProxies.lookup (ApiSessionProxies.newBucket c) tok par = Some r ->
     ApiSessionProxies.lookup
       (ApiSessionProxies.oldBucket (ApiSessionProxies.cache (ApiSessionProxies.sweep c st)))
       tok par = Some r) /\
  (forall tok par r p,
     ApiSessionProxies.lookup (ApiSessionProxies.oldBucket c) tok par = Some r ->
     ApiSessionProxies.lookup (ApiSessionProxies.newBucket c) tok par = None ->
     st !! r = Some p ->
     ProxyClass.hasWebsockets p = false ->
     ApiSessionProxies.store (ApiSessionProxies.sweep c st) !! r
     = Some (fst (ProxyClass.close p)) /\
     r ∈ ApiSessionProxies.closed (ApiSessionProxies.sweep c st) /\
     (forall e, e ∈ snd (ProxyClass.close p) ->
                e ∈ ApiSessionProxies.events (ApiSessionProxies.sweep c st)) /\
     forall r', ~ ApiSessionProxies.cached
                    (ApiSessionProxies.cache (ApiSessionProxies.sweep c st)) tok par r') /\
  (forall tok par r,
     ApiSessionProxies.lookup (ApiSessionProxies.oldBucket c) tok par = Some r ->
     ApiSessionProxies.lookup (ApiSessionProxies.newBucket c) tok par = None ->
     ApiSessionProxies.live st r ->
     ApiSessionProxies.cached
       (ApiSessionProxies.cache (ApiSessionProxies.sweep c st)) tok par r /\
     ApiSessionProxies.store (ApiSessionProxies.sweep c st) !! r = st !! r).
Proof.
  split; [apply (sweep_buckets c st "" "")|].
  split; [|split].
  - intros tok par r Hn. destruct (sweep_buckets c st tok par) as [_ ->].
    now rewrite Hn.
  - intros tok par r p Ho Hn E Hp.
    assert (Hcl := sweepEntries_closed (bucket_entries (ApiSessionProxies.oldBucket c))
                     (ApiSessionProxies.Progress c st [] []) tok par r p
                     (bucket_entries_functional _)
                     (proj2 (elem_of_bucket_entries _ _ _ _) Ho) Hn E Hp).
    unfold ApiSessionProxies.sweep.
    cbn [ApiSessionProxies.store ApiSessionProxies.closed ApiSessionProxies.events].
    rewrite sweep_loops. destruct Hcl as (Hst & Hin & Hev).
    split; [exact Hst|]. split; [exact Hin|]. split; [exact Hev|].
    intros r' [H|H].
    + cbn in H. unfold ApiSessionProxies.lookup in H. rewrite lookup_empty in H.
      discriminate H.
    + pose proof (sweep_buckets c st tok par) as [_ Hold].
      unfold ApiSessionProxies.sweep in Hold. rewrite sweep_loops in Hold.
      rewrite Hold, Hn, Ho in H. unfold liveb in H. rewrite E, Hp in H. discriminate H.
  - intros tok par r Ho Hn (p & E & Hp).
    assert (Hl : liveb st r = true) by (unfold liveb; now rewrite E).
    split.
    + right. destruct (sweep_buckets c st tok par) as [_ ->].
      now rewrite Hn, Ho, Hl.
    + apply closes_live; [apply sweep_closes | exact Hl].
Qed.

Lemma C5_sweep_witness :
  ApiSessionProxies.store (ApiSessionProxies.sweep aged_cache raced_store) !! 2%positive
  = Some (fst (ProxyClass.close idle_proxy)) /\
  ApiSessionProxies.cached
    (ApiSessionProxies.cache (ApiSessionProxies.sweep aged_cache raced_store))
    "tok" "par1" 1%positive.
Proof.
  destruct (C5_sweep aged_cache raced_store) as (_ & _ & Hidle & Hlive).
  split.
  - apply (Hidle "tok"%string "par2"%string 2%positive idle_proxy); reflexivity.
  - apply (Hlive "tok"%string "par1"%string 1%positive); try reflexivity.
    exists busy_proxy. split; reflexivity.
Defined.

(* ===================================================================== *)
(** ** C6: the idle deadline of a token *)
(* ===================================================================== *)

(** C6, as worded, fails: a revoked token whose [expiresIfUnused] lies in
    the future is rejected before the field is looked at, and the field
    stays set. *)
Lemma C6_revoked_token_keeps_deadline :
  expiresIfUnused (set_revoked true sample_token) = Some 600000 /\
  validateToken "h4sh" None 0 0 {[ "h4sh"%string := set_revoked true sample_token ]}
  = (Some TokenRevoked, {[ "h4sh"%string := set_revoked true sample_token ]}) /\
  (expiresIfUnused <$>
     snd (validateToken "h4sh" None 0 0 {[ "h4sh"%string := set_revoked true sample_token ]})
       !! "h4sh"%string) = Some (Some 600000).
Proof.
  split; [reflexivity|].
  assert (E : validateToken "h4sh" None 0 0
                {[ "h4sh"%string := set_revoked true sample_token ]}
              = (Some TokenRevoked, {[ "h4sh"%string := set_revoked true sample_token ]})).
  { unfold validateToken, ApiTokens_findOne. rewrite lookup_singleton_eq. reflexivity. }
  split; [exact E|].
  rewrite E. simpl. rewrite lookup_singleton_eq. reflexivity.
Qed.

(** C6, amended: for every stored token that passes the earlier checks
    of [validateWebkey] (not revoked, owner absent or a webkey, [expires]
    absent or in the future) and whose [expiresIfUnused] lies in the
    future, validating it without a refresh deadline clears the field in
    the collection; and after any series of later validations (of any
    tokens, with or without a refresh deadline, at any times) a validation
    of that token does not fail with the idle-expiry error. *)
Theorem C6_first_use_clears_idle_expiry
    (db : ApiTokensCollection) (h : string) (t : ApiToken) (u now0 now : Z) :
  ApiTokens_wf db ->
  db !! h = Some t ->
  passesEarlyChecks t now0 ->
  expiresIfUnused t = Some u ->
  now < u ->
  snd (validateToken h None now0 now db) !! h = Some (set_expiresIfUnused None t) /\
  forall (later : list Validation) (refresh : option Z) (n0 n : Z),
    fst (validateToken h refresh n0 n
           (validate_all later (snd (validateToken h None now0 now db))))
    <> Some TokenExpiredUnused.
Proof.
  intros Hwf Hh Hearly Hu Hnow.
  assert (Hdb : snd (validateToken h None now0 now db)
                = ApiTokens_update_expiresIfUnused h None db).
  { unfold validateToken, ApiTokens_findOne. rewrite Hh.
    rewrite (early_checks_pass _ _ _ _ _ Hearly).
    unfold checkUnused. rewrite Hu.
    replace (u <=? now) with false by (symmetry; apply Z.leb_gt; exact Hnow).
    rewrite (Hwf _ _ Hh).
    destruct (Js.truthy (objectId t) || Js.truthy (frontendRef t)); reflexivity. }
  assert (Hlook : ApiTokens_update_expiresIfUnused h None db !! h
                  = Some (set_expiresIfUnused None t)).
  { unfold ApiTokens_update_expiresIfUnused. rewrite lookup_alter_eq, Hh. reflexivity. }
  rewrite Hdb. split; [exact Hlook|].
  intros later refresh n0 n Hfail.
  destruct (validate_all_keeps_cleared h later (ApiTokens_update_expiresIfUnused h None db))
    as [_ Hc].
  - apply update_preserves_wf, Hwf.
  - intros t'. rewrite Hlook. intros [= <-]. reflexivity.
  - destruct (expiredUnused_needs_field _ _ _ _ _ Hfail) as (t' & u' & Ht' & Hu').
    rewrite (Hc _ Ht') in Hu'. discriminate.
Qed.

Lemma C6_first_use_clears_idle_expiry_witness :
  snd (validateToken "h4sh" None 0 0 {[ "h4sh"%string := sample_token ]}) !! "h4sh"%string
  = Some (set_expiresIfUnused None sample_token) /\
  forall (later : list Validation) (refresh : option Z) (n0 n : Z),
    fst (validateToken "h4sh" refresh n0 n
           (validate_all later
              (snd (validateToken "h4sh" None 0 0 {[ "h4sh"%string := sample_token ]}))))
    <> Some TokenExpiredUnused.
Proof.
  apply (C6_first_use_clears_idle_expiry
           {[ "h4sh"%string := sample_token ]} "h4sh" sample_token 600000 0 0).
  - intros k t Hk. apply lookup_singleton_Some in Hk as [<- <-]. reflexivity.
  - apply lookup_singleton_eq.
  - repeat split.
  - reflexivity.
  - reflexivity.
Defined.


(* ===================================================================== *)
(** ** C7: [Proxy.close] *)
(* ===================================================================== *)

(** Take the cases of a membership fact apart and compare the events. *)
Ltac clash :=
  intros;
  repeat match goal with
         | H : _ \/ _ |- _ => destruct H
         | H : exists _, _ |- _ => destruct H
         | H : _ /\ _ |- _ => destruct H
         end;
  congruence.

Section Close.

Implicit Types (p : Proxy) (e : Event).

Lemma elem_of_release (ev : Handle -> Event) (field : option Handle) e :
  e ∈ ProxyClass.release ev field <-> exists h, field = Some h /\ e = ev h.
Proof.
  destruct field as [h|]; simpl.
  - rewrite list_elem_of_singleton. split; [intros ->; eauto | clash].
  - rewrite elem_of_nil. split; [tauto | clash].
Qed.

Lemma elem_of_destroyed (ws : gmap string Handle) e :
  e ∈ map (fun kv : string * Handle => SocketDestroy (fst kv) (snd kv)) (map_to_list ws)
  <-> exists idx sock, e = SocketDestroy idx sock /\ ws !! idx = Some sock.
Proof.
  rewrite list_elem_of_fmap. split.
  - intros ([k v] & -> & Hin). apply elem_of_map_to_list in Hin. now exists k, v.
  - intros (k & v & -> & Hin). exists (k, v). split; [reflexivity|].
    now apply elem_of_map_to_list.
Qed.

(** The calls made by [close()]: one [destroy()] for every socket of the
    proxy, one [close()] for each capability it holds. *)
Lemma elem_of_close p e :
  e ∈ snd (ProxyClass.close p) <->
  (exists idx sock, e = SocketDestroy idx sock /\ websockets p !! idx = Some sock) \/
  (exists h, session p = Some h /\ e = SessionClose h) \/
  (exists h, uiView p = Some h /\ e = UiViewClose h) \/
  (exists h, supervisor p = Some h /\ e = SupervisorClose h).
Proof.
  unfold ProxyClass.close. cbn [snd].
  rewrite !elem_of_app, elem_of_destroyed, !elem_of_release. reflexivity.
Qed.

Lemma release_NoDup (ev : Handle -> Event) field : NoDup (ProxyClass.release ev field).
Proof. destruct field; simpl; [apply NoDup_singleton | apply NoDup_nil_2]. Qed.

(** No call is made twice. *)
Lemma close_events_NoDup p : NoDup (snd (ProxyClass.close p)).
Proof.
  unfold ProxyClass.close. cbn [snd].
  assert (Hinj : Inj (=) (=) (fun kv : string * Handle => SocketDestroy (fst kv) (snd kv))).
  { intros [k1 v1] [k2 v2] [= -> ->]. reflexivity. }
  repeat (apply NoDup_app; split; [|split]);
    try apply release_NoDup;
    try (apply (NoDup_fmap_2 _), NoDup_map_to_list);
    intros e; rewrite ?elem_of_app, ?elem_of_destroyed, ?elem_of_release;
    intros He Hk; clash.
Qed.

(** A closed proxy has nothing left to release. *)
Lemma close_closed p :
  ProxyClass.close (fst (ProxyClass.close p)) = (fst (ProxyClass.close p), []).
Proof. unfold ProxyClass.close. cbn. rewrite map_to_list_empty. reflexivity. Qed.

(** [destroy()] is called on a socket once for every entry of
    [websockets] that holds it. *)
Lemma close_destroyed p sock :
  WebSockets.destroyed sock (snd (ProxyClass.close p)) = WebSockets.registrations sock p.
Proof.
  unfold WebSockets.destroyed, WebSockets.registrations, ProxyClass.close. cbn [snd].
  rewrite !List.filter_app, !List.length_app.
  assert (Hrel : forall ev field,
            (forall h, WebSockets.destroys sock (ev h) = false) ->
            length (List.filter (WebSockets.destroys sock) (ProxyClass.release ev field)) = O).
  { intros ev [h|] Hev; cbn; [now rewrite Hev | reflexivity]. }
  rewrite !Hrel by reflexivity. rewrite !Nat.add_0_r.
  induction (map_to_list (websockets p)) as [|[idx s] l IH]; [reflexivity|].
  cbn [map List.filter WebSockets.destroys fst snd].
  destruct (bool_decide (s = sock)); cbn [length]; now rewrite IH.
Qed.

End Close.

(** C7, as worded, fails: when the grain goes away while a WebSocket is
    opened, [handleWebSocket] restarts the grain and runs again, and
    records the socket a second time under the next index; [close()]
    then calls [destroy()] on that socket twice. *)
Lemma C7_socket_destroyed_twice :
  exists w',
    WebSockets.handleWebSocket 2 WebSockets.upgrade_request true 7%positive 0
                               WebSockets.restarted_grain
    = Some (WebSockets.Upgraded, w') /\
    websockets (Http.self w') = {[ "0"%string := 7%positive; "1"%string := 7%positive ]} /\
    SocketDestroy "0" 7%positive ∈ snd (ProxyClass.close (Http.self w')) /\
    SocketDestroy "1" 7%positive ∈ snd (ProxyClass.close (Http.self w')) /\
    WebSockets.destroyed 7%positive (snd (ProxyClass.close (Http.self w'))) = 2%nat.
Proof.
  eexists. split; [vm_compute; reflexivity|].
  split; [vm_compute; reflexivity|].
  split; [apply elem_of_close; left; now exists "0"%string, 7%positive|].
  split; [apply elem_of_close; left; now exists "1"%string, 7%positive|].
  vm_compute; reflexivity.
Qed.

(** C7, amended: for every Proxy, whatever its state, [close()] returns;
    a second [close()] leaves the Proxy as the first one left it and
    releases nothing; over the two calls the session, view and supervisor
    capabilities that the Proxy holds are closed once each, and
    [destroy()] is called once for every entry of [websockets] -- on a
    socket, as many times as there are entries that hold it. *)
Theorem C7_close_idempotent (p : Proxy) :
  ProxyClass.close (fst (ProxyClass.close p)) = (fst (ProxyClass.close p), []) /\
  NoDup (snd (ProxyClass.close p) ++ snd (ProxyClass.close (fst (ProxyClass.close p)))) /\
  (forall idx sock,
     SocketDestroy idx sock ∈ snd (ProxyClass.close p) <-> websockets p !! idx = Some sock) /\
  (forall h, SessionClose h ∈ snd (ProxyClass.close p) <-> session p = Some h) /\
  (forall h, SupervisorClose h ∈ snd (ProxyClass.close p) <-> supervisor p = Some h) /\
  (forall h, UiViewClose h ∈ snd (ProxyClass.close p) <-> uiView p = Some h) /\
  (forall sock,
     WebSockets.destroyed sock
       (snd (ProxyClass.close p) ++ snd (ProxyClass.close (fst (ProxyClass.close p))))
     = WebSockets.registrations sock p).
Proof.
  split; [apply close_closed|].
  split; [rewrite close_closed, app_nil_r; apply close_events_NoDup|].
  split; [|split; [|split; [|split]]];
    try (intros; split; intros H;
         [apply elem_of_close in H; clash | apply elem_of_close; eauto 8]).
  intros sock. rewrite close_closed, app_nil_r. apply close_destroyed.
Qed.

(* ===================================================================== *)
(** ** C8: methods outside the accepted set *)
(* ===================================================================== *)

(** C8, as worded, fails: a [TRACE] request to a Proxy is answered with
    status 500 and the stack trace of the error, not with a 4xx status. *)
Lemma C8_unsupported_method_is_500 :
  fst <$> Http.requestHandler 2 trace_request (Http.World api_proxy [] [] 1%positive [])
  = Some (Http.Wrote 500 "Internal Server Error" (Http.Report Http.methodNotSupported "")) /\
  ~ isClientError (Http.Wrote 500 "Internal Server Error" (Http.Report Http.methodNotSupported "")).
Proof.
  split; [vm_compute; reflexivity|].
  simpl. lia.
Qed.

(** C8, amended: for every HTTP request whose method is outside the
    accepted set, that is not the session-initialisation request, whose
    body is read and whose context is made without an exception, the
    Proxy opens its session if it has none yet but calls no method of the
    session and asks for no restart of the grain; the internal "Sandstorm
    only supports the following methods" error is a plain [Error], so the
    client receives status 500 "Internal Server Error"; the text sent is
    the stack trace of that error ([err.stack]), with no line for a type. *)
Theorem C8_unsupported_method
    (fuel : nat) (req : Http.Request) (w : Http.world) :
  ~ In (Http.method req) Http.acceptedMethods ->
  Http.isSessionInit (Http.self w) req = false ->
  Http.bodyError req = None ->
  Http.makeContext (Http.self w) req = Returns tt ->
  Http.requestHandler (S fuel) req w
  = Some (Http.Wrote 500 "Internal Server Error" (Http.Report Http.methodNotSupported ""),
          Http.setHasLoaded (Http.getSession w)) /\
  Http.sessionCalls (Http.trace (Http.setHasLoaded (Http.getSession w)))
  = Http.sessionCalls (Http.trace w) /\
  Http.reconnects (Http.trace (Http.setHasLoaded (Http.getSession w)))
  = Http.reconnects (Http.trace w).
Proof.
  intros Hm Hinit Hbody Hctx.
  split.
  - unfold Http.requestHandler. rewrite Hinit, Hbody.
    assert (Hpost : String.eqb (Http.method req) "POST" = false).
    { destruct (String.eqb_spec (Http.method req) "POST") as [E|]; [|reflexivity].
      exfalso. apply Hm. rewrite E. simpl. tauto. }
    assert (Hput : String.eqb (Http.method req) "PUT" = false).
    { destruct (String.eqb_spec (Http.method req) "PUT") as [E|]; [|reflexivity].
      exfalso. apply Hm. rewrite E. simpl. tauto. }
    rewrite Hpost, Hput. simpl.
    unfold Http.attempt. rewrite Hctx, (dispatch_unsupported _ Hm).
    unfold Http.maybeRetryAfterError.
    rewrite methodNotSupported_not_retried. reflexivity.
  - destruct (setHasLoaded_quiet (Http.getSession w)) as [-> ->].
    apply getSession_quiet.
Qed.

Lemma C8_unsupported_method_witness :
  Http.requestHandler 1 trace_request (Http.World api_proxy [] [] 1%positive [])
  = Some (Http.Wrote 500 "Internal Server Error" (Http.Report Http.methodNotSupported ""),
          Http.setHasLoaded (Http.getSession (Http.World api_proxy [] [] 1%positive []))).
Proof.
  apply (C8_unsupported_method 0 trace_request (Http.World api_proxy [] [] 1%positive [])).
  - simpl. intros H. repeat (destruct H as [H|H]; [discriminate H|]). exact H.
  - reflexivity.
  - reflexivity.
  - reflexivity.
Defined.

(* ===================================================================== *)
(** ** C9: [getProxyForHostId] and a concurrently deleted slot *)
(* ===================================================================== *)

Section GetProxyForHostId.

Lemma start_stores_placeholder table hostId reserved :
  HostTable_wf table ->
  GetProxy.start table hostId = inr reserved ->
  reserved = <[hostId := None]> table /\ HostTable.inherited hostId = false.
Proof.
  intros Hwf. unfold GetProxy.start, HostTable.get.
  destruct (table !! hostId) as [[r|]|] eqn:E.
  - discriminate.
  - intros [= <-]. split; [reflexivity|]. apply Hwf. now rewrite E.
  - destruct (HostTable.inherited hostId); [discriminate|].
    intros [= <-]. now split.
Qed.

(** The placeholder keeps the table well formed. *)
Lemma start_preserves_wf table hostId reserved :
  HostTable_wf table ->
  GetProxy.start table hostId = inr reserved -> HostTable_wf reserved.
Proof.
  intros Hwf Hs. destruct (start_stores_placeholder _ _ _ Hwf Hs) as [-> Hni].
  intros k. rewrite lookup_insert. case_decide as Hk; [now subst k | apply Hwf].
Qed.

End GetProxyForHostId.

(** C9: if [getProxyForHostId] stored its [null] placeholder for a host
    id and, by the time the session, token and grain lookups have built
    the Proxy, the host id is no longer a key of the table, then the table
    is left as it is (the Proxy is not installed) and the promise is
    rejected with [Meteor.Error(403, "Session was concurrently closed.")]. *)
Theorem C9_concurrently_closed
    (db : Database) (isAlreadyOpened : bool) (hostId : string)
    (interleaved : HostTable.t -> HostTable.t)
    (table reserved : HostTable.t) (store : Store) (session : Session) (proxy : Proxy) :
  HostTable_wf table ->
  GetProxy.start table hostId = inr reserved ->
  interleaved reserved !! hostId = None ->
  Sessions_findOne hostId db = Some session ->
  GetProxy.build db hostId session = Returns proxy ->
  reserved !! hostId = Some None /\
  GetProxy.getProxyForHostId db isAlreadyOpened hostId interleaved table store
  = (GetProxy.Rejected (Meteor_Error 403 "Session was concurrently closed."),
     interleaved reserved,
     <[fresh (dom store) := proxy]> store) /\
  (forall r, interleaved reserved !! hostId <> Some (Some r)).
Proof.
  intros Hwf Hstart Hgone Hsession Hbuild.
  destruct (start_stores_placeholder _ _ _ Hwf Hstart) as [Hres Hni].
  split; [subst reserved; apply lookup_insert_eq|].
  split; [|intros r; rewrite Hgone; discriminate].
  unfold GetProxy.getProxyForHostId. rewrite Hstart.
  unfold GetProxy.finish. rewrite Hsession, Hbuild.
  unfold HostTable.has. rewrite Hgone, Hni.
  rewrite bool_decide_eq_false_2 by (intros [x Hx]; discriminate Hx).
  reflexivity.
Qed.

Lemma C9_concurrently_closed_witness :
  GetProxy.getProxyForHostId sample_db false "a1b2c3" (delete "a1b2c3"%string) ∅ ∅
  = (GetProxy.Rejected (Meteor_Error 403 "Session was concurrently closed."),
     delete "a1b2c3"%string (<["a1b2c3"%string := None]> ∅),
     <[fresh (dom (∅ : Store)) :=
         mkProxy "grain1" "user1" None None None None (Some "sess1"%string)
                 (Some "a1b2c3"%string) false false ∅ 0%N
                 (mkUserInfo "Anonymous User" "anonymous" None None None) None None]> ∅).
Proof.
  apply (C9_concurrently_closed sample_db false "a1b2c3" (delete "a1b2c3"%string)
           ∅ (<["a1b2c3"%string := None]> ∅) ∅
           (mkSession "sess1" "a1b2c3" "grain1" None None)).
  - intros k [x Hx]. rewrite lookup_empty in Hx. discriminate Hx.
  - reflexivity.
  - apply lookup_delete_eq.
  - reflexivity.
  - reflexivity.
Defined.

(* ===================================================================== *)
(** ** C10: a non-webview capability is rejected after the write *)
(* ===================================================================== *)

(** C10, as worded, fails: a record with a future [expiresIfUnused] and an
    [objectId] whose owner is a grain is rejected by the owner check, and
    nothing is written. *)
Lemma C10_grain_owned_capability_untouched :
  Js.truthy (objectId grain_owned_capability) = true /\
  expiresIfUnused grain_owned_capability = Some 600000 /\
  validateWebkey (Some grain_owned_capability) None 0 0
                 {[ "c4p"%string := grain_owned_capability ]}
  = (Some NonWebkeyOwner, {[ "c4p"%string := grain_owned_capability ]}).
Proof. repeat split. Qed.

(** C10, amended: for every stored token record that passes the earlier
    checks of [validateWebkey] (not revoked, owner absent or a webkey,
    [expires] absent or in the future), has [expiresIfUnused] in the future
    and carries an [objectId] or [frontendRef], [validateWebkey] writes
    the new [expiresIfUnused] (cleared, or the refresh deadline when one is
    given) and then throws the "non-webview Capability" error. *)
Theorem C10_mutates_then_rejects
    (db : ApiTokensCollection) (t : ApiToken) (refresh : option Z) (u now0 now : Z) :
  db !! _id t = Some t ->
  passesEarlyChecks t now0 ->
  expiresIfUnused t = Some u ->
  now < u ->
  Js.truthy (objectId t) || Js.truthy (frontendRef t) = true ->
  validateWebkey (Some t) refresh now0 now db
  = (Some NonWebviewCapability, <[_id t := set_expiresIfUnused refresh t]> db) /\
  thrown NonWebviewCapability
  = Meteor_Error 403 "ApiToken refers to a non-webview Capability.".
Proof.
  intros Hstored Hearly Hu Hnow Hobj. split; [|reflexivity].
  rewrite (early_checks_pass _ _ _ _ _ Hearly).
  unfold checkUnused. rewrite Hu.
  replace (u <=? now) with false by (symmetry; apply Z.leb_gt; exact Hnow).
  assert (Halter : forall v, ApiTokens_update_expiresIfUnused (_id t) v db
                             = <[_id t := set_expiresIfUnused v t]> db).
  { intros v. unfold ApiTokens_update_expiresIfUnused.
    apply map_eq. intros k. rewrite lookup_alter, lookup_insert.
    case_decide as Hk; [subst k; now rewrite Hstored | reflexivity]. }
  destruct refresh as [d|]; rewrite Hobj, Halter; reflexivity.
Qed.

Lemma C10_mutates_then_rejects_witness :
  validateWebkey (Some webkey_capability) (Some 900000) 0 0
                 {[ "c4p"%string := webkey_capability ]}
  = (Some NonWebviewCapability,
     <[ "c4p"%string := set_expiresIfUnused (Some 900000) webkey_capability ]>
       {[ "c4p"%string := webkey_capability ]}).
Proof.
  apply (C10_mutates_then_rejects
           {[ "c4p"%string := webkey_capability ]} webkey_capability (Some 900000)
           600000 0 0).
  - apply lookup_singleton_eq.
  - repeat split.
  - reflexivity.
  - reflexivity.
  - reflexivity.
Defined.

(* ===================================================================== *)
(** * Further properties of the code *)
(* ===================================================================== *)

(* ===================================================================== *)
(** ** [validateWebkey]: what it accepts and what it writes *)
(* ===================================================================== *)

(** The checks of [validateWebkey], read as conditions on the document. *)
Lemma accepted_spec
    (t : ApiToken) (refresh : option Z) (now0 now : Z) (db : ApiTokensCollection) :
  fst (validateWebkey (Some t) refresh now0 now db) = None <->
  revoked t = false /\
  match owner t with Some o => has_webkey o = true | None => True end /\
  match expires t with Some e => now0 < e | None => True end /\
  match expiresIfUnused t with Some u => now < u | None => True end /\
  objectId t = None /\ frontendRef t = None.
Proof.
  unfold validateWebkey, checkUnused.
  destruct (revoked t); [split; [discriminate | intros (H & _); discriminate H]|].
  destruct (owner t) as [o|].
  - destruct (has_webkey o); simpl;
      [|split; [discriminate | intros (_ & H & _); discriminate H]].
    destruct (expires t) as [e|], (expiresIfUnused t) as [u|];
      repeat match goal with
             | |- context [?a <=? ?b] => destruct (Z.leb_spec a b)
             end;
      destruct refresh, (objectId t), (frontendRef t); simpl;
      split; try discriminate; try (intros (_ & _ & ? & ? & ? & ?); discriminate || lia);
      intros _; repeat split; lia.
  - simpl.
    destruct (expires t) as [e|], (expiresIfUnused t) as [u|];
      repeat match goal with
             | |- context [?a <=? ?b] => destruct (Z.leb_spec a b)
             end;
      destruct refresh, (objectId t), (frontendRef t); simpl;
      split; try discriminate; try (intros (_ & _ & ? & ? & ? & ?); discriminate || lia);
      intros _; repeat split; lia.
Qed.

(** X1: [validateWebkey] returns without an exception exactly for the
    documents that are not revoked, whose owner is absent or a webkey,
    that have not reached [expires] nor [expiresIfUnused], and that carry
    neither [objectId] nor [frontendRef]. *)
Theorem validateWebkey_accepts_iff
    (t : ApiToken) (refresh : option Z) (now0 now : Z) (db : ApiTokensCollection) :
  fst (validateWebkey (Some t) refresh now0 now db) = None <->
  revoked t = false /\
  match owner t with Some o => has_webkey o = true | None => True end /\
  match expires t with Some e => now0 < e | None => True end /\
  match expiresIfUnused t with Some u => now < u | None => True end /\
  objectId t = None /\ frontendRef t = None.
Proof.
  apply accepted_spec.
Qed.

(** X2: [validateWebkey] neither adds nor removes a document and leaves
    every document but the validated one as it is; of the validated one it
    changes at most the field [expiresIfUnused]. *)
Theorem validateWebkey_frame
    (apiToken : option ApiToken) (refresh : option Z) (now0 now : Z)
    (db : ApiTokensCollection) (k : string) :
  snd (validateWebkey apiToken refresh now0 now db) !! k = db !! k \/
  exists t stored v,
    apiToken = Some t /\ k = _id t /\ db !! k = Some stored /\
    snd (validateWebkey apiToken refresh now0 now db) !! k
    = Some (set_expiresIfUnused v stored).
Proof.
  unfold validateWebkey.
  destruct apiToken as [t|]; [|now left].
  destruct (revoked t); [now left|].
  destruct (match owner t with Some o => negb (has_webkey o) | None => false end);
    [now left|].
  destruct (match expires t with Some e => e <=? now0 | None => false end);
    [now left|].
  assert (H : snd (checkUnused t refresh now db) !! k = db !! k \/
              exists stored v, k = _id t /\ db !! k = Some stored /\
                snd (checkUnused t refresh now db) !! k
                = Some (set_expiresIfUnused v stored)).
  { unfold checkUnused. destruct (expiresIfUnused t) as [u|]; [|now left].
    destruct (u <=? now); [now left|].
    assert (G : forall v,
              ApiTokens_update_expiresIfUnused (_id t) v db !! k = db !! k \/
              exists stored v', k = _id t /\ db !! k = Some stored /\
                ApiTokens_update_expiresIfUnused (_id t) v db !! k
                = Some (set_expiresIfUnused v' stored)).
    { intros v. unfold ApiTokens_update_expiresIfUnused. rewrite lookup_alter.
      case_decide as Hk; [|now left]. subst k.
      destruct (db !! _id t) as [stored|]; [|now left].
      right. now exists stored, v. }
    destruct refresh; apply G. }
  destruct (checkUnused t refresh now db) as [[f|] db']; simpl in *;
    [|destruct (Js.truthy (objectId t) || Js.truthy (frontendRef t)); simpl];
    (destruct H as [H|(stored & v & H1 & H2 & H3)];
     [now left | right; now exists t, stored, v]).
Qed.

(** X3: a keep-alive replaces the idle deadline of a webkey by the
    deadline it is given, whatever the two dates are (the new one may be
    the earlier), and it gives no idle deadline to a token that has none. *)
Theorem validateWebkey_refresh
    (db : ApiTokensCollection) (t : ApiToken) (deadline now0 now : Z) :
  db !! _id t = Some t ->
  fst (validateWebkey (Some t) (Some deadline) now0 now db) = None ->
  snd (validateWebkey (Some t) (Some deadline) now0 now db) !! _id t
  = Some (set_expiresIfUnused
            (match expiresIfUnused t with Some _ => Some deadline | None => None end) t).
Proof.
  intros Hstored Hok.
  apply accepted_spec in Hok as (Hr & Ho & He & Hu & Hobj & Hfr).
  rewrite (early_checks_pass t (Some deadline) now0 now db (conj Hr (conj Ho He))).
  unfold checkUnused. rewrite Hobj, Hfr. simpl.
  destruct (expiresIfUnused t) as [u|] eqn:Eu.
  - replace (u <=? now) with false by (symmetry; apply Z.leb_gt; exact Hu).
    simpl. unfold ApiTokens_update_expiresIfUnused.
    rewrite lookup_alter_eq, Hstored. reflexivity.
  - simpl. rewrite Hstored. f_equal.
    destruct t; simpl in *. now subst.
Qed.

Lemma validateWebkey_refresh_witness :
  snd (validateWebkey (Some sample_token) (Some 5) 0 0 {[ "h4sh"%string := sample_token ]})
    !! "h4sh"%string
  = Some (set_expiresIfUnused (Some 5) sample_token).
Proof.
  apply (validateWebkey_refresh {[ "h4sh"%string := sample_token ]} sample_token 5 0 0).
  - apply lookup_singleton_eq.
  - reflexivity.
Defined.

(* ===================================================================== *)
(** ** [ApiSessionProxies]: get, put, removal and the sweeps *)
(* ===================================================================== *)

Section Cache.

Import ApiSessionProxies ApiSessionProxiesOps.

Implicit Types (c : t) (st : Store) (r : ProxyRef).

Lemma lookup_put_old tok par r c tok' par' :
  lookup (oldBucket (put tok par r c)) tok' par' = lookup (oldBucket c) tok' par'.
Proof. reflexivity. Qed.

Lemma lookup_alter_delete (b : Bucket) tok par tok' par' :
  lookup (alter (delete par) tok b) tok' par'
  = if decide (tok = tok' /\ par = par') then None else lookup b tok' par'.
Proof.
  unfold lookup. rewrite lookup_alter.
  destruct (decide (tok = tok')) as [<-|Hne].
  - destruct (b !! tok) as [inner|]; simpl.
    + destruct (decide (par = par')) as [<-|Hp].
      * rewrite lookup_delete_eq. now rewrite decide_True.
      * rewrite lookup_delete_ne by done. rewrite decide_False by (intros [_ ?]; done).
        reflexivity.
    + now destruct (decide _).
  - rewrite decide_False by (intros [? _]; done). reflexivity.
Qed.

(** What [get] answers and how it leaves the cache, key by key. *)
Lemma get_spec tok par c :
  fst (get tok par c)
  = match lookup (newBucket c) tok par with
    | Some r => Some r
    | None => lookup (oldBucket c) tok par
    end /\
  (forall tok' par',
     lookup (newBucket (snd (get tok par c))) tok' par'
     = if decide (tok = tok' /\ par = par') then fst (get tok par c)
       else lookup (newBucket c) tok' par') /\
  (forall tok' par',
     lookup (oldBucket (snd (get tok par c))) tok' par'
     = if decide (tok = tok' /\ par = par')
       then (match lookup (newBucket c) tok par with
             | Some _ => lookup (oldBucket c) tok par
             | None => None
             end)
       else lookup (oldBucket c) tok' par').
Proof.
  unfold get.
  destruct (lookup (newBucket c) tok par) as [r|] eqn:En.
  - cbn [fst snd]. split; [reflexivity|]. split; intros tok' par'.
    + destruct (decide _) as [[<- <-]|]; [exact En | reflexivity].
    + destruct (decide _) as [[<- <-]|]; reflexivity.
  - destruct (lookup (oldBucket c) tok par) as [r|] eqn:Eo.
    + cbn [fst snd]. split; [reflexivity|]. split; intros tok' par'.
      * rewrite lookup_put. cbn [newBucket]. reflexivity.
      * rewrite lookup_put_old. cbn [oldBucket]. apply lookup_alter_delete.
    + cbn [fst snd]. split; [reflexivity|]. split; intros tok' par'.
      * destruct (decide _) as [[<- <-]|]; [exact En | reflexivity].
      * destruct (decide _) as [[<- <-]|]; [exact Eo | reflexivity].
Qed.

(** A sweep closes and forgets the old-bucket entry of an idle proxy that
    the new bucket does not shadow. *)
Lemma sweep_evicts c st tok par r (p : Proxy) :
  lookup (oldBucket c) tok par = Some r ->
  lookup (newBucket c) tok par = None ->
  st !! r = Some p ->
  ProxyClass.hasWebsockets p = false ->
  store (sweep c st) !! r = Some (fst (ProxyClass.close p)) /\
  r ∈ closed (sweep c st) /\
  forall r', ~ cached (cache (sweep c st)) tok par r'.
Proof.
  intros Ho Hn E Hp.
  destruct (sweepEntries_closed (bucket_entries (oldBucket c)) (Progress c st [] [])
              tok par r p (bucket_entries_functional _)
              (proj2 (elem_of_bucket_entries _ _ _ _) Ho) Hn E Hp) as (Hst & Hin & _).
  destruct (sweep_buckets c st tok par) as [Hempty Hold].
  unfold sweep in *. cbn [store closed cache newBucket oldBucket] in *.
  rewrite sweep_loops in *.
  split; [exact Hst|]. split; [exact Hin|].
  intros r' [H|H]; cbn [newBucket oldBucket] in H.
  - unfold lookup in H. rewrite lookup_empty in H. discriminate H.
  - rewrite Hold, Hn, Ho in H. unfold liveb in H. rewrite E, Hp in H. discriminate H.
Qed.

End Cache.

(** X4: [get] after [put] returns the proxy that was put, whatever the
    cache held under that key, and leaves the cache as [put] left it. *)
Theorem ApiSessionProxies_get_put
    (tok par : string) (r : ProxyRef) (c : ApiSessionProxies.t) :
  ApiSessionProxies.get tok par (ApiSessionProxies.put tok par r c)
  = (Some r, ApiSessionProxies.put tok par r c).
Proof.
  unfold ApiSessionProxies.get. rewrite lookup_put.
  rewrite decide_True by done. reflexivity.
Qed.

(** X5: [get] answers from the new bucket if it has the key and from
    the old bucket otherwise.  A hit in the new bucket leaves the cache as
    it is; a hit in the old bucket alone moves the entry: it is put in the
    new bucket and deleted from the old one; a miss returns [null] and
    changes nothing.  No other key is affected in either bucket. *)
Theorem ApiSessionProxies_get_promotes
    (tok par : string) (c : ApiSessionProxies.t) :
  fst (ApiSessionProxies.get tok par c)
  = match ApiSessionProxies.lookup (ApiSessionProxies.newBucket c) tok par with
    | Some r => Some r
    | None => ApiSessionProxies.lookup (ApiSessionProxies.oldBucket c) tok par
    end /\
  (forall r, ApiSessionProxies.lookup (ApiSessionProxies.newBucket c) tok par = Some r ->
     snd (ApiSessionProxies.get tok par c) = c) /\
  (forall r, ApiSessionProxies.lookup (ApiSessionProxies.newBucket c) tok par = None ->
     ApiSessionProxies.lookup (ApiSessionProxies.oldBucket c) tok par = Some r ->
     ApiSessionProxies.lookup
       (ApiSessionProxies.newBucket (snd (ApiSessionProxies.get tok par c))) tok par
     = Some r /\
     ApiSessionProxies.lookup
       (ApiSessionProxies.oldBucket (snd (ApiSessionProxies.get tok par c))) tok par
     = None) /\
  (fst (ApiSessionProxies.get tok par c) = None ->
     snd (ApiSessionProxies.get tok par c) = c) /\
  (forall tok' par', (tok, par) <> (tok', par') ->
     ApiSessionProxies.lookup
       (ApiSessionProxies.newBucket (snd (ApiSessionProxies.get tok par c))) tok' par'
     = ApiSessionProxies.lookup (ApiSessionProxies.newBucket c) tok' par' /\
     ApiSessionProxies.lookup
       (ApiSessionProxies.oldBucket (snd (ApiSessionProxies.get tok par c))) tok' par'
     = ApiSessionProxies.lookup (ApiSessionProxies.oldBucket c) tok' par').
Proof.
  destruct (get_spec tok par c) as (Hres & Hn & Ho).
  split; [exact Hres|]. split; [|split; [|split]].
  - intros r Hr. unfold ApiSessionProxies.get. now rewrite Hr.
  - intros r Hnew Hold. rewrite Hn, Ho, !decide_True by done.
    rewrite Hres, Hnew. now split.
  - intros Hnone. rewrite Hres in Hnone. unfold ApiSessionProxies.get.
    destruct (ApiSessionProxies.lookup (ApiSessionProxies.newBucket c) tok par);
      [discriminate|]. now rewrite Hnone.
  - intros tok' par' Hne. rewrite Hn, Ho.
    rewrite !decide_False by (intros [<- <-]; now apply Hne). now split.
Qed.

Lemma ApiSessionProxies_get_promotes_witness :
  ApiSessionProxies.lookup
    (ApiSessionProxies.newBucket (snd (ApiSessionProxies.get "tok" "par1" aged_cache)))
    "tok" "par1" = Some 1%positive /\
  ApiSessionProxies.lookup
    (ApiSessionProxies.oldBucket (snd (ApiSessionProxies.get "tok" "par1" aged_cache)))
    "tok" "par1" = None.
Proof.
  apply (ApiSessionProxies_get_promotes "tok" "par1" aged_cache); reflexivity.
Defined.

(** X6: an entry that [get] has just returned survives the next sweep,
    whether or not its proxy has a WebSocket. *)
Theorem ApiSessionProxies_used_entry_survives
    (tok par : string) (r : ProxyRef) (c : ApiSessionProxies.t) (st : Store) :
  fst (ApiSessionProxies.get tok par c) = Some r ->
  ApiSessionProxies.cached
    (ApiSessionProxies.cache
       (ApiSessionProxies.sweep (snd (ApiSessionProxies.get tok par c)) st))
    tok par r.
Proof.
  intros Hget. right.
  destruct (sweep_buckets (snd (ApiSessionProxies.get tok par c)) st tok par) as [_ ->].
  destruct (get_spec tok par c) as (_ & Hn & _).
  rewrite Hn, decide_True by done. rewrite Hget. reflexivity.
Qed.

Lemma ApiSessionProxies_used_entry_survives_witness :
  ApiSessionProxies.cached
    (ApiSessionProxies.cache
       (ApiSessionProxies.sweep (snd (ApiSessionProxies.get "tok" "par2" aged_cache))
                                raced_store))
    "tok" "par2" 2%positive.
Proof.
  apply (ApiSessionProxies_used_entry_survives "tok" "par2" 2%positive aged_cache raced_store).
  reflexivity.
Defined.

(** X7: an entry of the new bucket whose proxy has no WebSocket and that
    is not accessed is gone after two sweeps: the second sweep closes its
    proxy and no bucket has the key any more. *)
Theorem ApiSessionProxies_idle_entry_evicted
    (tok par : string) (r : ProxyRef) (p : Proxy) (c : ApiSessionProxies.t) (st : Store) :
  ApiSessionProxies.lookup (ApiSessionProxies.newBucket c) tok par = Some r ->
  st !! r = Some p ->
  ProxyClass.hasWebsockets p = false ->
  r ∈ ApiSessionProxies.closed
        (ApiSessionProxies.sweep
           (ApiSessionProxies.cache (ApiSessionProxies.sweep c st))
           (ApiSessionProxies.store (ApiSessionProxies.sweep c st))) /\
  ApiSessionProxies.store
    (ApiSessionProxies.sweep
       (ApiSessionProxies.cache (ApiSessionProxies.sweep c st))
       (ApiSessionProxies.store (ApiSessionProxies.sweep c st))) !! r
  = Some (fst (ProxyClass.close p)) /\
  forall r',
    ~ ApiSessionProxies.cached
        (ApiSessionProxies.cache
           (ApiSessionProxies.sweep
              (ApiSessionProxies.cache (ApiSessionProxies.sweep c st))
              (ApiSessionProxies.store (ApiSessionProxies.sweep c st))))
        tok par r'.
Proof.
  intros Hnew Hst Hidle.
  destruct (sweep_buckets c st tok par) as [Hempty Hold1]. rewrite Hnew in Hold1.
  assert (Hnew1 : ApiSessionProxies.lookup
                    (ApiSessionProxies.newBucket
                       (ApiSessionProxies.cache (ApiSessionProxies.sweep c st)))
                    tok par = None).
  { rewrite Hempty. unfold ApiSessionProxies.lookup. now rewrite lookup_empty. }
  destruct (sweep_closes c st r) as [E|(p0 & E0 & Hp0 & E1)].
  - rewrite Hst in E.
    destruct (sweep_evicts _ _ tok par r p Hold1 Hnew1 E Hidle) as (H1 & H2 & H3).
    now split.
  - rewrite Hst in E0. injection E0 as <-.
    destruct (sweep_evicts _ _ tok par r (fst (ProxyClass.close p)) Hold1 Hnew1 E1 eq_refl)
      as (H1 & H2 & H3).
    now split.
Qed.

Lemma ApiSessionProxies_idle_entry_evicted_witness :
  2%positive ∈ ApiSessionProxies.closed
        (ApiSessionProxies.sweep
           (ApiSessionProxies.cache (ApiSessionProxies.sweep raced_cache raced_store))
           (ApiSessionProxies.store (ApiSessionProxies.sweep raced_cache raced_store))).
Proof.
  apply (ApiSessionProxies_idle_entry_evicted "tok" "par" 2%positive idle_proxy
           raced_cache raced_store); reflexivity.
Defined.

Section Removal.

Import ApiSessionProxies ApiSessionProxiesOps.

Lemma close_ref_lookup r (st : Store) r' :
  fst (close_ref r st) !! r'
  = if decide (r = r') then (fun p => fst (ProxyClass.close p)) <$> st !! r'
    else st !! r'.
Proof.
  unfold close_ref. destruct (decide (r = r')) as [<-|Hne].
  - destruct (st !! r) as [p|] eqn:E; cbn [fst].
    + now rewrite lookup_insert_eq.
    + now rewrite E.
  - destruct (st !! r) as [p|]; cbn [fst]; [now rewrite lookup_insert_ne | reflexivity].
Qed.

(** The loop over the entries of a token closes each of the proxies and
    no other. *)
Lemma closeAll_lookup (inner : gmap string ProxyRef) (s : Store * list Event) r :
  fst (closeAll inner s) !! r
  = if decide (r ∈ map snd (map_to_list inner))
    then (fun p => fst (ProxyClass.close p)) <$> fst s !! r
    else fst s !! r.
Proof.
  unfold closeAll. generalize (map_to_list inner) as l. intros l. revert s.
  induction l as [|[k r0] l IH]; intros s.
  - cbn [fold_left map]. case_decide as H; [now apply elem_of_nil in H | reflexivity].
  - cbn [fold_left map snd fst]. rewrite IH. cbn [fst].
    rewrite close_ref_lookup.
    repeat case_decide; subst;
      try reflexivity;
      try (destruct (fst s !! r); reflexivity);
      exfalso;
      repeat match goal with
             | H : _ ∈ _ :: _ |- _ => apply elem_of_cons in H as [H|H]
             | H : ~ _ ∈ _ :: _ |- _ =>
                 apply H, elem_of_cons; first [left; reflexivity | right; assumption]
             end;
      congruence.
Qed.

Lemma elem_of_inner (inner : gmap string ProxyRef) r :
  r ∈ map snd (map_to_list inner) <-> exists par, inner !! par = Some r.
Proof.
  rewrite list_elem_of_fmap. split.
  - intros ([k v] & -> & Hin). apply elem_of_map_to_list in Hin. now exists k.
  - intros (k & Hk). exists (k, r). split; [reflexivity|]. now apply elem_of_map_to_list.
Qed.

Lemma closeAll_store (inner : gmap string ProxyRef) (s : Store * list Event) r :
  ((exists par, inner !! par = Some r) ->
   fst (closeAll inner s) !! r = (fun p => fst (ProxyClass.close p)) <$> fst s !! r) /\
  ((forall par, inner !! par <> Some r) ->
   fst (closeAll inner s) !! r = fst s !! r).
Proof.
  rewrite closeAll_lookup. split; intros H.
  - rewrite decide_True by (now apply elem_of_inner). reflexivity.
  - rewrite decide_False; [reflexivity|].
    intros (par & Hpar)%elem_of_inner. now apply (H par).
Qed.

Lemma closedSince_refl st : closedSince st st.
Proof. intros r. now left. Qed.

Lemma closedSince_trans st1 st2 st3 :
  closedSince st1 st2 -> closedSince st2 st3 -> closedSince st1 st3.
Proof.
  intros H12 H23 r. destruct (H23 r) as [->| ->], (H12 r) as [->| ->]; auto.
  right. now destruct (st1 !! r).
Qed.

Lemma closedSince_close_ref r st : closedSince st (fst (close_ref r st)).
Proof.
  intros r'. rewrite close_ref_lookup. case_decide; auto.
Qed.

Lemma closedSince_closeAll inner s : closedSince (fst s) (fst (closeAll inner s)).
Proof.
  intros r. rewrite closeAll_lookup. case_decide; auto.
Qed.

(** An object that is closed stays closed. *)
Lemma closedSince_closed st st' r (p : Proxy) :
  closedSince st st' ->
  st !! r = Some (fst (ProxyClass.close p)) ->
  st' !! r = Some (fst (ProxyClass.close p)).
Proof.
  intros H E. destruct (H r) as [->| ->]; rewrite E; reflexivity.
Qed.

Lemma closedSince_object st st' r (p : Proxy) :
  closedSince st st' ->
  st !! r = Some p ->
  st' !! r = Some p \/ st' !! r = Some (fst (ProxyClass.close p)).
Proof.
  intros H E. destruct (H r) as [->| ->]; rewrite E; auto.
Qed.

End Removal.

(** What [removeProxiesOfToken] removes and closes. *)
Lemma removeProxiesOfToken_spec
    (tok : string) (c : ApiSessionProxies.t) (st : Store) :
  let result := ApiSessionProxiesOps.removeProxiesOfToken tok c st in
  (forall par r, ~ ApiSessionProxies.cached (fst (fst result)) tok par r) /\
  (forall tok' par r, tok' <> tok ->
     ApiSessionProxies.cached (fst (fst result)) tok' par r
     <-> ApiSessionProxies.cached c tok' par r) /\
  (forall par r p, ApiSessionProxies.cached c tok par r -> st !! r = Some p ->
     snd (fst result) !! r = Some (fst (ProxyClass.close p))) /\
  (forall r, (forall par, ~ ApiSessionProxies.cached c tok par r) ->
     snd (fst result) !! r = st !! r).
Proof.
  cbn zeta. unfold ApiSessionProxiesOps.removeProxiesOfToken. cbn [fst snd].
  split; [|split; [|split]].
  - intros par r [H|H]; cbn in H; unfold ApiSessionProxies.lookup in H;
      rewrite lookup_delete_eq in H; discriminate H.
  - intros tok' par r Hne. unfold ApiSessionProxies.cached, ApiSessionProxies.lookup.
    cbn [ApiSessionProxies.newBucket ApiSessionProxies.oldBucket].
    rewrite !lookup_delete_ne by done. reflexivity.
  - intros par r p Hc Hst.
    set (s1 := match ApiSessionProxies.oldBucket c !! tok with
               | Some inner => ApiSessionProxiesOps.closeAll inner (st, [])
               | None => (st, [])
               end).
    assert (Hold : (forall inner, ApiSessionProxies.oldBucket c !! tok = Some inner ->
                      (exists par0, inner !! par0 = Some r) ->
                      fst s1 !! r = Some (fst (ProxyClass.close p))) /\
                   (fst s1 !! r = Some p \/ fst s1 !! r = Some (fst (ProxyClass.close p)))).
    { subst s1. destruct (ApiSessionProxies.oldBucket c !! tok) as [inner|].
      - destruct (closeAll_store inner (st, []) r) as [Hin Hout]. cbn [fst] in *.
        split.
        + intros inner' [= <-] Hex. rewrite (Hin Hex), Hst. reflexivity.
        + destruct (decide (r ∈ map snd (map_to_list inner))) as [Hd|Hd].
          * right. rewrite Hin, Hst; [reflexivity|].
            apply list_elem_of_fmap in Hd as ([k v] & -> & Hd).
            apply elem_of_map_to_list in Hd. now exists k.
          * left. rewrite Hout, Hst; [reflexivity|].
            intros par0 Hp. apply Hd. apply list_elem_of_fmap. exists (par0, r).
            split; [reflexivity|]. now apply elem_of_map_to_list.
      - split; [discriminate|]. now left. }
    destruct Hold as [Hold1 Hold2].
    destruct (ApiSessionProxies.newBucket c !! tok) as [innerN|] eqn:En.
    + destruct (closeAll_store innerN s1 r) as [Hin Hout].
      destruct (decide (r ∈ map snd (map_to_list innerN))) as [Hd|Hd].
      * rewrite Hin.
        -- destruct Hold2 as [-> | ->]; reflexivity.
        -- apply list_elem_of_fmap in Hd as ([k v] & -> & Hd).
           apply elem_of_map_to_list in Hd. now exists k.
      * rewrite Hout.
        -- destruct Hc as [Hc|Hc]; unfold ApiSessionProxies.lookup in Hc.
           ++ rewrite En in Hc. simpl in Hc. exfalso. apply Hd.
              apply list_elem_of_fmap. exists (par, r). split; [reflexivity|].
              now apply elem_of_map_to_list.
           ++ destruct (ApiSessionProxies.oldBucket c !! tok) as [innerO|] eqn:Eo;
                [|discriminate].
              apply (Hold1 innerO eq_refl). now exists par.
        -- intros par0 Hp. apply Hd. apply list_elem_of_fmap. exists (par0, r).
           split; [reflexivity|]. now apply elem_of_map_to_list.
    + destruct Hc as [Hc|Hc]; unfold ApiSessionProxies.lookup in Hc.
      * rewrite En in Hc. discriminate.
      * destruct (ApiSessionProxies.oldBucket c !! tok) as [innerO|] eqn:Eo;
          [|discriminate].
        apply (Hold1 innerO eq_refl). now exists par.
  - intros r Hnc.
    set (s1 := match ApiSessionProxies.oldBucket c !! tok with
               | Some inner => ApiSessionProxiesOps.closeAll inner (st, [])
               | None => (st, [])
               end).
    assert (Hold : fst s1 !! r = st !! r).
    { subst s1. destruct (ApiSessionProxies.oldBucket c !! tok) as [inner|] eqn:Eo;
        [|reflexivity].
      destruct (closeAll_store inner (st, []) r) as [_ Hout]. apply Hout.
      intros par Hpar. apply (Hnc par). right.
      unfold ApiSessionProxies.lookup. now rewrite Eo. }
    destruct (ApiSessionProxies.newBucket c !! tok) as [innerN|] eqn:En; [|exact Hold].
    destruct (closeAll_store innerN s1 r) as [_ Hout]. rewrite Hout; [exact Hold|].
    intros par Hpar. apply (Hnc par). left.
    unfold ApiSessionProxies.lookup. now rewrite En.
Qed.

Lemma removeProxiesOfToken_closedSince tok c st :
  closedSince st (snd (fst (ApiSessionProxiesOps.removeProxiesOfToken tok c st))).
Proof.
  unfold ApiSessionProxiesOps.removeProxiesOfToken. cbn [fst snd].
  set (s1 := match ApiSessionProxies.oldBucket c !! tok with
             | Some inner => ApiSessionProxiesOps.closeAll inner (st, [])
             | None => (st, [])
             end).
  assert (H1 : closedSince st (fst s1)).
  { subst s1. destruct (ApiSessionProxies.oldBucket c !! tok) as [inner|].
    - apply (closedSince_closeAll inner (st, [])).
    - apply closedSince_refl. }
  destruct (ApiSessionProxies.newBucket c !! tok) as [inner|]; [|exact H1].
  eapply closedSince_trans; [exact H1 | apply closedSince_closeAll].
Qed.



(* ===================================================================== *)
(** ** [getProxyForHostId], the [Sessions] observer, the constructor *)
(* ===================================================================== *)

(** X9: when the session, token and grain lookups succeed and the slot
    of the host id is still in the table, the Proxy built is stored in a
    new place of the store and installed under the host id (replacing
    whatever the slot held), and the next call for that host id returns
    it at once. *)
Theorem getProxyForHostId_installs
    (db : Database) (isAlreadyOpened : bool) (hostId : string)
    (interleaved : HostTable.t -> HostTable.t)
    (table reserved : HostTable.t) (store : Store) (session : Session) (proxy : Proxy) :
  GetProxy.start table hostId = inr reserved ->
  is_Some (interleaved reserved !! hostId) ->
  Sessions_findOne hostId db = Some session ->
  GetProxy.build db hostId session = Returns proxy ->
  store !! fresh (dom store) = None /\
  GetProxy.getProxyForHostId db isAlreadyOpened hostId interleaved table store
  = (GetProxy.Resolved (fresh (dom store)),
     <[hostId := Some (fresh (dom store))]> (interleaved reserved),
     <[fresh (dom store) := proxy]> store) /\
  GetProxy.start (<[hostId := Some (fresh (dom store))]> (interleaved reserved)) hostId
  = inl (GetProxy.Resolved (fresh (dom store))).
Proof.
  intros Hstart Hkey Hsession Hbuild.
  split; [apply not_elem_of_dom, is_fresh|].
  split.
  - unfold GetProxy.getProxyForHostId. rewrite Hstart.
    unfold GetProxy.finish. rewrite Hsession, Hbuild.
    unfold HostTable.has. rewrite bool_decide_eq_true_2 by exact Hkey. reflexivity.
  - unfold GetProxy.start, HostTable.get. rewrite lookup_insert_eq. reflexivity.
Qed.

Lemma getProxyForHostId_installs_witness :
  GetProxy.start (<["a1b2c3"%string := Some (fresh (dom (∅ : Store)))]>
                    (<["a1b2c3"%string := None]> ∅)) "a1b2c3"
  = inl (GetProxy.Resolved (fresh (dom (∅ : Store)))).
Proof.
  apply (getProxyForHostId_installs sample_db false "a1b2c3" (fun t => t)
           ∅ (<["a1b2c3"%string := None]> ∅) ∅
           (mkSession "sess1" "a1b2c3" "grain1" None None)
           (mkProxy "grain1" "user1" None None None None (Some "sess1"%string)
                    (Some "a1b2c3"%string) false false ∅ 0%N
                    (mkUserInfo "Anonymous User" "anonymous" None None None) None None)).
  - reflexivity.
  - rewrite lookup_insert_eq. eexists. reflexivity.
  - reflexivity.
  - reflexivity.
Defined.

(** X10: when no Proxy is produced -- there is no session for the host
    id, or its token or grain is gone, or the constructor throws -- the
    [null] placeholder that was stored stays in the table and the store is
    not changed; the placeholder is never removed by [getProxyForHostId]. *)
Theorem getProxyForHostId_leaves_placeholder
    (db : Database) (isAlreadyOpened : bool) (hostId : string)
    (table reserved : HostTable.t) (store : Store) :
  GetProxy.start table hostId = inr reserved ->
  (Sessions_findOne hostId db = None \/
   exists session e, Sessions_findOne hostId db = Some session /\
                     GetProxy.build db hostId session = Throws e) ->
  exists outcome,
    GetProxy.getProxyForHostId db isAlreadyOpened hostId (fun t => t) table store
    = (outcome, <[hostId := None]> table, store) /\
    (forall proxy, outcome <> GetProxy.Resolved proxy) /\
    (Sessions_findOne hostId db = None ->
     outcome = if isAlreadyOpened then GetProxy.AwaitsSession
               else GetProxy.ResolvedUndefined).
Proof.
  intros Hstart Hcase.
  assert (Hres : reserved = <[hostId := None]> table).
  { unfold GetProxy.start in Hstart.
    destruct (HostTable.get table hostId); congruence. }
  unfold GetProxy.getProxyForHostId. rewrite Hstart. unfold GetProxy.finish.
  destruct Hcase as [Hnone|(session & e & Hs & Hb)].
  - rewrite Hnone. subst reserved.
    destruct isAlreadyOpened; eexists; (split; [reflexivity|]); split;
      try discriminate; reflexivity.
  - rewrite Hs, Hb. subst reserved.
    eexists; (split; [reflexivity|]); split; [discriminate|].
    intros Hnone. rewrite Hnone in Hs. discriminate.
Qed.

Lemma getProxyForHostId_leaves_placeholder_witness :
  exists outcome,
    GetProxy.getProxyForHostId sample_db false "ffff" (fun t => t) ∅ ∅
    = (outcome, <["ffff"%string := None]> ∅, ∅) /\
    (forall proxy, outcome <> GetProxy.Resolved proxy) /\
    (Sessions_findOne "ffff" sample_db = None ->
     outcome = GetProxy.ResolvedUndefined).
Proof.
  apply (getProxyForHostId_leaves_placeholder sample_db false "ffff" ∅
           (<["ffff"%string := None]> ∅) ∅).
  - reflexivity.
  - left. reflexivity.
Defined.



(** X12: every Proxy that the constructor returns is either bound to a
    session (session id and host id set, not an API proxy) or an API proxy
    (no session id, no host id), never both and never neither; it starts
    without session or view capability, without WebSockets and not yet
    loaded. *)
Theorem Proxy_new_invariant
    (identities : gmap string Identity) (grainId ownerId : string)
    (sessionId0 hostId0 identityId : option string) (isApi0 : bool)
    (supervisor0 : option Handle) (p : Proxy) :
  ProxyClass.new identities grainId ownerId sessionId0 hostId0 identityId isApi0 supervisor0
  = Returns p ->
  (isApi p = false /\ Js.truthy_string (sessionId p) = true /\
   Js.truthy_string (hostId p) = true
   \/
   isApi p = true /\ Js.truthy_string (sessionId p) = false /\ hostId p = None) /\
  session p = None /\ uiView p = None /\ supervisor p = supervisor0 /\
  websockets p = ∅ /\ hasLoaded p = false /\
  (Js.truthy_string identityId = false ->
   userInfo p = mkUserInfo "Anonymous User" "anonymous" None None None).
Proof.
  unfold ProxyClass.new.
  destruct (Js.truthy_string sessionId0) eqn:Es.
  - destruct (Js.truthy_string hostId0) eqn:Eh; simpl; [|discriminate].
    destruct isApi0; [discriminate|].
    destruct (Js.truthy_string identityId) eqn:Ei.
    + destruct (identityId ≫= _); [|discriminate].
      intros [= <-]. simpl. repeat split; try discriminate. left. now repeat split.
    + intros [= <-]. simpl. repeat split. left. now repeat split.
  - destruct isApi0; simpl; [|discriminate].
    destruct (Js.truthy_string hostId0) eqn:Eh; [discriminate|].
    destruct (Js.truthy_string identityId) eqn:Ei.
    + destruct (identityId ≫= _); [|discriminate].
      intros [= <-]. simpl. repeat split; try discriminate. right. now repeat split.
    + intros [= <-]. simpl. repeat split. right. now repeat split.
Qed.

Lemma Proxy_new_invariant_witness :
  isApi api_proxy = true /\ Js.truthy_string (sessionId api_proxy) = false /\
  hostId api_proxy = None.
Proof.
  destruct (Proxy_new_invariant ∅ "grain1" "user1" None None None true None api_proxy eq_refl)
    as ([(H & _)|H] & _); [discriminate H | exact H].
Defined.

(* ===================================================================== *)
(** ** Serving a request: authentication, bounds, fallbacks *)
(* ===================================================================== *)

Section Serving.

Import Http.
Local Open Scope nat_scope.

Lemma unauthorized_context (p : Proxy) req sid :
  Js.truthy_string (hostId p) = true ->
  parseCookies req = Returns sid ->
  sid <> sessionId p ->
  makeContext p req = Throws (Meteor_Error 403 "Unauthorized").
Proof.
  intros Hh Hc Hne. unfold makeContext. rewrite Hh, Hc.
  rewrite (bool_decide_eq_false_2 _ Hne). now rewrite orb_true_r.
Qed.

(** The second pass of the streamed path, with the calls counted. *)
Lemma streaming_second_pass_calls fuel req w :
  exists r w',
    handleRequestStreaming (2 + fuel) req 1 w = Some (r, w') /\
    reconnects (trace w') <= 1 + reconnects (trace w) /\
    sessionCalls (trace w') <= 3 + sessionCalls (trace w).
Proof.
  cbn [handleRequestStreaming Nat.add].
  destruct (makeContext (self w) req); [|settles].
  destruct (getSession_quiet w) as [Hs Hr].
  destruct (if String.eqb (method req) "POST" then _ else _) as [name|];
    [|settles].
  destruct (call_trace name (getSession w)) as [Cs Cr].
  destruct (call name (getSession w)) as [[[status|e]|] w2]; cbn [snd] in Cs, Cr.
  - destruct (call_trace "getResponse" w2) as [Gs Gr].
    destruct (call "getResponse" w2) as [[[status'|e']|] w3]; cbn [snd] in Gs, Gr;
      eexists _, _; (split; [reflexivity|]); try (split; lia).
    destruct (setHasLoaded_quiet w3) as [-> ->]. split; lia.
  - destruct (shouldRestartGrain (patchUnimplemented e) 0).
    + rewrite maybeRetry_second_time. settles.
    + destruct (bool_decide _); [|settles].
      destruct (bodyError req); [settles|].
      destruct (handleRequest_retries_at_most_once fuel req w2) as (r & w' & E & Hrec & Hc).
      exists r, w'. split; [exact E|split; lia].
  - settles.
Qed.

Lemma streaming_first_pass_calls fuel req w :
  exists r w',
    handleRequestStreaming (3 + fuel) req 0 w = Some (r, w') /\
    reconnects (trace w') <= 2 + reconnects (trace w) /\
    sessionCalls (trace w') <= 4 + sessionCalls (trace w).
Proof.
  change (3 + fuel) with (S (2 + fuel)). cbn [handleRequestStreaming].
  destruct (makeContext (self w) req); [|settles].
  destruct (getSession_quiet w) as [Hs Hr].
  destruct (if String.eqb (method req) "POST" then _ else _) as [name|];
    [|settles].
  destruct (call_trace name (getSession w)) as [Cs Cr].
  destruct (call name (getSession w)) as [[[status|e]|] w2]; cbn [snd] in Cs, Cr.
  - destruct (call_trace "getResponse" w2) as [Gs Gr].
    destruct (call "getResponse" w2) as [[[status'|e']|] w3]; cbn [snd] in Gs, Gr;
      eexists _, _; (split; [reflexivity|]); try (split; lia).
    destruct (setHasLoaded_quiet w3) as [-> ->]. split; lia.
  - destruct (shouldRestartGrain (patchUnimplemented e) 0).
    + pose proof (maybeRetry_trace (patchUnimplemented e) false 0 w2) as Hm.
      destruct (maybeRetryAfterError (patchUnimplemented e) false 0 w2) as [w3|[r w3]].
      * destruct Hm as (_ & _ & Mr & Ms).
        destruct (streaming_second_pass_calls fuel req w3) as (r & w' & E & Hrec & Hc).
        exists r, w'. split; [exact E|split; lia].
      * destruct Hm as [Mr Ms]. settles.
    + destruct (bool_decide _); [|settles].
      destruct (bodyError req); [settles|].
      destruct (handleRequest_retries_at_most_once (1 + fuel) req w2)
        as (r & w' & E & Hrec & Hc).
      exists r, w'. split; [exact E|split; lia].
  - settles.
Qed.

Lemma getSession_rpcs w : rpcs (getSession w) = rpcs w.
Proof.
  unfold getSession, getConnection.
  repeat (match goal with
          | |- context [if ?b then _ else _] => destruct b
          end; simpl); reflexivity.
Qed.

Lemma prefix_slash path :
  String.prefix "/" path = true ->
  String.prefix "//" path = false ->
  exists rest, path = String "/" rest /\ forall rest', rest <> String "/" rest'.
Proof.
  destruct path as [|a rest]; [discriminate|]. cbn [String.prefix].
  destruct (Ascii.ascii_dec "/"%char a) as [<-|]; [|discriminate]. intros _.
  destruct rest as [|b rest].
  - intros _. exists ""%string. split; [reflexivity | discriminate].
  - destruct (Ascii.ascii_dec "/"%char b) as [<-|Hb].
    + destruct rest; discriminate.
    + intros _. exists (String b rest). split; [reflexivity|].
      intros rest' [= E _]. now apply Hb.
Qed.

Lemma encodeURI_slash rest :
  encodeURI (String "/" rest) = String "/" (encodeURI rest).
Proof. reflexivity. Qed.

(** An escape starts with a percent sign, so encoding does not bring a
    slash to the front. *)
Lemma encodeURI_no_slash rest :
  (forall rest', rest <> String "/" rest') ->
  forall rest', encodeURI rest <> String "/" rest'.
Proof.
  intros H rest'. destruct rest as [|c rest]; [discriminate|].
  cbn [encodeURI]. destruct (isUriKept c).
  - intros [= -> _]. now apply (H rest).
  - assert (E : percentEscape c +:+ encodeURI rest
                = String "%" (String (upperHex (nat_of_ascii c / 16))
                                     (String (upperHex (nat_of_ascii c mod 16))
                                             (encodeURI rest)))) by reflexivity.
    rewrite E. discriminate.
Qed.

End Serving.

(** X13: every request is answered or left waiting on a call that never
    settles -- the handler does not loop -- and serving it restarts the
    grain at most twice and issues at most four calls on the session. *)
Theorem requestHandler_bounded (fuel : nat) (req : Http.Request) (w : Http.world) :
  exists served w',
    Http.requestHandler (3 + fuel) req w = Some (served, w') /\
    (Http.reconnects (Http.trace w') <= 2 + Http.reconnects (Http.trace w))%nat /\
    (Http.sessionCalls (Http.trace w') <= 4 + Http.sessionCalls (Http.trace w))%nat.
Proof.
  unfold Http.requestHandler.
  destruct (Http.isSessionInit (Http.self w) req); [settles|].
  assert (H : exists r w1,
            (if (String.eqb (Http.method req) "POST" || String.eqb (Http.method req) "PUT") &&
                match Http.contentLength req with
                | None => true | Some n => (1024 * 1024 <? n)%Z end
             then Http.handleRequestStreaming (3 + fuel) req 0 w
             else match Http.bodyError req with
                  | Some e => Some (Http.Failed e false, w)
                  | None => Http.handleRequest (3 + fuel) req 0 w
                  end) = Some (r, w1) /\
            (Http.reconnects (Http.trace w1) <= 2 + Http.reconnects (Http.trace w))%nat /\
            (Http.sessionCalls (Http.trace w1) <= 4 + Http.sessionCalls (Http.trace w))%nat).
  { destruct (_ && _).
    - apply streaming_first_pass_calls.
    - destruct (Http.bodyError req); [settles|].
      destruct (handleRequest_retries_at_most_once (1 + fuel) req w)
        as (r & w' & E & Hrec & Hc).
      exists r, w'. split; [exact E|split; lia]. }
  destruct H as (r & w1 & -> & Hrec & Hc).
  destruct r as [s|e hs|]; eexists _, _; (split; [reflexivity|]); try (split; assumption).
  destruct (setHasLoaded_quiet w1) as [-> ->]. split; assumption.
Qed.

(** X14: a session-bound proxy answers a request that does not carry its
    session id in the [sandstorm-sid] cookie (and is not the session-init
    URL) with status 403 and reason "Unauthorized"; the text sent is the
    stack trace of the [Meteor.Error] thrown, whose message is
    "Unauthorized [403]", with no line for a type; nothing is asked of
    the grain, the only effect is that the proxy reports itself loaded. *)
Theorem requestHandler_unauthorized
    (fuel : nat) (req : Http.Request) (w : Http.world) (sid : option string) :
  Js.truthy_string (hostId (Http.self w)) = true ->
  Http.isSessionInit (Http.self w) req = false ->
  Http.parseCookies req = Returns sid ->
  sid <> sessionId (Http.self w) ->
  Http.bodyError req = None ->
  Http.requestHandler (S fuel) req w
  = Some (Http.Wrote 403 "Unauthorized"
                     (Http.Report (Meteor_Error 403 "Unauthorized") ""),
          Http.setHasLoaded w) /\
  message (Meteor_Error 403 "Unauthorized") = "Unauthorized [403]"%string.
Proof.
  intros Hh Hinit Hc Hne Hbody. split; [|reflexivity].
  pose proof (unauthorized_context _ _ _ Hh Hc Hne) as Hctx.
  unfold Http.requestHandler. rewrite Hinit, Hbody.
  destruct (_ && _).
  - cbn [Http.handleRequestStreaming]. rewrite Hctx. reflexivity.
  - cbn [Http.handleRequest]. unfold Http.attempt. rewrite Hctx. reflexivity.
Qed.

Lemma requestHandler_unauthorized_witness :
  Http.requestHandler 1
    (Http.mkRequest "GET" "/" None None None ["other"%string] true None None false)
    (Http.World
       (mkProxy "grain1" "user1" None None None None (Some "sess1"%string)
                (Some "a1b2c3"%string) false false ∅ 0%N
                (mkUserInfo "Anonymous User" "anonymous" None None None) None None)
       [] [] 1%positive [])
  = Some (Http.Wrote 403 "Unauthorized"
                     (Http.Report (Meteor_Error 403 "Unauthorized") ""),
          Http.setHasLoaded
            (Http.World
               (mkProxy "grain1" "user1" None None None None (Some "sess1"%string)
                        (Some "a1b2c3"%string) false false ∅ 0%N
                        (mkUserInfo "Anonymous User" "anonymous" None None None) None None)
               [] [] 1%positive [])).
Proof.
  apply (requestHandler_unauthorized 0 _ _ (Some "other"%string));
    try reflexivity. discriminate.
Defined.

(** X15: the session-init URL is served without a cookie, for any
    method, and without touching the proxy or the grain; the answer is a
    400, or a redirect whose [Location] header -- the path after
    [encodeURI] -- starts with exactly one slash (a path on the same
    host). *)
Theorem requestHandler_session_init
    (fuel : nat) (req : Http.Request) (w : Http.world) :
  Http.isSessionInit (Http.self w) req = true ->
  exists served,
    Http.requestHandler fuel req w = Some (served, w) /\
    (served = Http.Wrote 400 "Invalid path supplied" (Http.Text "Invalid path supplied.") \/
     exists rest,
       served = Http.Redirected (String "/" rest) /\
       (forall rest', rest <> String "/" rest') /\
       String "/" rest
       = Http.encodeURI (if Js.truthy_string (Http.query_path req)
                         then default "/"%string (Http.query_path req) else "/"%string)).
Proof.
  intros Hinit. unfold Http.requestHandler. rewrite Hinit.
  eexists. split; [reflexivity|]. unfold Http.doSessionInit.
  set (path := if Js.truthy_string (Http.query_path req) then _ else _).
  destruct (String.prefix "/" path) eqn:E1; [|now left].
  destruct (String.prefix "//" path) eqn:E2; [now left|].
  right. destruct (prefix_slash path E1 E2) as (rest & -> & H).
  exists (Http.encodeURI rest). rewrite encodeURI_slash.
  split; [reflexivity|]. split; [now apply encodeURI_no_slash | reflexivity].
Qed.

Lemma requestHandler_session_init_witness :
  exists served,
    Http.requestHandler 0
      (Http.mkRequest "GET" "/_sandstorm-init" (Some "sess1"%string)
                      (Some "/a b"%string) None [] true None None false)
      (Http.World
         (mkProxy "grain1" "user1" None None None None (Some "sess1"%string)
                  (Some "a1b2c3"%string) false false ∅ 0%N
                  (mkUserInfo "Anonymous User" "anonymous" None None None) None None)
         [] [] 1%positive [])
    = Some (served,
            Http.World
              (mkProxy "grain1" "user1" None None None None (Some "sess1"%string)
                       (Some "a1b2c3"%string) false false ∅ 0%N
                       (mkUserInfo "Anonymous User" "anonymous" None None None) None None)
              [] [] 1%positive []) /\
    (served = Http.Wrote 400 "Invalid path supplied" (Http.Text "Invalid path supplied.") \/
     exists rest,
       served = Http.Redirected (String "/" rest) /\
       (forall rest', rest <> String "/" rest') /\
       String "/" rest = "/a%20b"%string).
Proof.
  apply (requestHandler_session_init 0). reflexivity.
Defined.

(** X16: when an application rejects a streamed upload as unimplemented
    -- or, an old application, as failed with "not implemented" in the
    message -- [handleRequestStreaming] buffers the body and hands the
    request to [handleRequest], which starts again with a retry count of
    0 whatever the count of the streamed pass was. *)
Theorem handleRequestStreaming_falls_back
    (fuel retryCount : nat) (req : Http.Request) (w : Http.world)
    (e : JsError) (rest : list Http.RpcOutcome) :
  Http.makeContext (Http.self w) req = Returns tt ->
  Http.method req = "POST"%string \/ Http.method req = "PUT"%string ->
  Http.rpcs w = Http.Rejects e :: rest ->
  kjType e = Some "unimplemented"%string \/
  (kjType e = Some "failed"%string /\
   String.index 0 "not implemented" (message e) <> None) ->
  Http.bodyError req = None ->
  Http.handleRequestStreaming (S fuel) req retryCount w
  = Http.handleRequest (S fuel) req 0
      (snd (Http.call (if String.eqb (Http.method req) "POST"
                       then "postStreaming" else "putStreaming")
                      (Http.getSession w))).
Proof.
  intros Hctx Hm Hrpc Hkind Hbody.
  cbn [Http.handleRequestStreaming]. rewrite Hctx.
  assert (Hname : (if String.eqb (Http.method req) "POST" then Some "postStreaming"%string
                   else if String.eqb (Http.method req) "PUT"
                        then Some "putStreaming"%string else None)
                  = Some (if String.eqb (Http.method req) "POST"
                          then "postStreaming" else "putStreaming")%string).
  { destruct Hm as [-> | ->]; reflexivity. }
  rewrite Hname.
  set (name := if String.eqb (Http.method req) "POST" then _ else _).
  assert (Hr : Http.rpcs (Http.getSession w) = Http.Rejects e :: rest).
  { rewrite <- Hrpc. apply getSession_rpcs. }
  assert (Hcall : fst (Http.call name (Http.getSession w)) = Some (Http.Rejects e)).
  { unfold Http.call. cbn [Http.emit Http.rpcs]. now rewrite Hr. }
  destruct (Http.call name (Http.getSession w)) as [o w2]. cbn [fst snd] in *. subst o.
  assert (Hp : kjType (Http.patchUnimplemented e) = Some "unimplemented"%string).
  { unfold Http.patchUnimplemented.
    destruct Hkind as [Hk|[Hk Hmsg]]; rewrite Hk; simpl; [exact Hk|].
    destruct (String.index 0 "not implemented" (message e)); [reflexivity|].
    now destruct Hmsg. }
  assert (Ht : shouldRestartGrain (Http.patchUnimplemented e) 0 = false).
  { unfold shouldRestartGrain, transient. now rewrite Hp. }
  rewrite Ht, bool_decide_eq_true_2 by exact Hp. rewrite Hbody.
  reflexivity.
Qed.

Lemma handleRequestStreaming_falls_back_witness :
  Http.handleRequestStreaming 3 upload_request 1
    (Http.World api_proxy [Http.Rejects unimplemented; Http.Resolves 200] [] 1%positive [])
  = Http.handleRequest 3 upload_request 0
      (snd (Http.call "postStreaming"
              (Http.getSession
                 (Http.World api_proxy [Http.Rejects unimplemented; Http.Resolves 200]
                             [] 1%positive [])))).
Proof.
  apply (handleRequestStreaming_falls_back 2 1 upload_request
           (Http.World api_proxy [Http.Rejects unimplemented; Http.Resolves 200]
                       [] 1%positive [])
           unimplemented [Http.Resolves 200]).
  - reflexivity.
  - left. reflexivity.
  - reflexivity.
  - left. reflexivity.
  - reflexivity.
Defined.

(* ===================================================================== *)
(** ** [getProxyForApiToken]: the cache in front of the validation *)
(* ===================================================================== *)

Section ApiProxies.

Import ApiProxy.

Variable mayOpenGrain : Database -> ApiToken -> bool.
Variable hasUserInfo : ApiToken -> bool.

Lemma get_miss tok par c :
  fst (ApiSessionProxies.get tok par c) = None -> ApiSessionProxies.get tok par c = (None, c).
Proof.
  unfold ApiSessionProxies.get.
  destruct (ApiSessionProxies.lookup (ApiSessionProxies.newBucket c) tok par);
    [discriminate|].
  destruct (ApiSessionProxies.lookup (ApiSessionProxies.oldBucket c) tok par);
    [discriminate | reflexivity].
Qed.

Lemma new_api identities grainId ownerId identityId p :
  ProxyClass.new identities grainId ownerId None None identityId true None = Returns p ->
  isApi p = true /\ session p = None /\ websockets p = ∅ /\ p_expires p = None.
Proof.
  unfold ProxyClass.new. simpl.
  destruct (Js.truthy_string identityId); [destruct (identityId ≫= _)|];
    try discriminate; intros [= <-]; repeat split.
Qed.

(** A Proxy that [construct] returns: an API proxy for a document that
    [validateWebkey] accepts, not connected, with the expiry of the
    document. *)
Lemma construct_returns tok now0 now d proxy d' :
  construct mayOpenGrain hasUserInfo tok now0 now d = (Returns proxy, d') ->
  exists t,
    ApiTokens d !! tok = Some t /\
    fst (validateWebkey (Some t) None now0 now (ApiTokens d)) = None /\
    mayOpenGrain d' t = true /\
    isApi proxy = true /\ apiToken proxy = Some t /\ p_expires proxy = expires t /\
    session proxy = None /\ websockets proxy = ∅.
Proof.
  unfold construct, ApiTokens_findOne.
  destruct (ApiTokens d !! tok) as [t|] eqn:Et; [|simpl; discriminate].
  destruct (validateWebkey (Some t) None now0 now (ApiTokens d)) as [[f|] tokens] eqn:Ev;
    [discriminate|].
  destruct (grainId t ≫= _) as [grain|]; [|discriminate].
  destruct (hasUserInfo t); [discriminate|].
  destruct (ProxyClass.new _ _ _ _ _ _ _ _) as [p|e] eqn:En; [|discriminate].
  destruct (mayOpenGrain _ t) eqn:Em; [|discriminate]. cbn [negb].
  intros [= <- <-]. exists t.
  split; [reflexivity|]. split; [now rewrite Ev|]. split; [exact Em|].
  destruct (new_api _ _ _ _ _ En) as (Ha & Hs & Hw & He).
  destruct (expires t); simpl; repeat split; try assumption; reflexivity.
Qed.

(** A call that throws on a miss leaves the cache and the objects alone;
    of the collections it changes at most [ApiTokens]. *)
Lemma construct_collections tok now0 now d :
  Sessions (snd (construct mayOpenGrain hasUserInfo tok now0 now d)) = Sessions d /\
  Grains (snd (construct mayOpenGrain hasUserInfo tok now0 now d)) = Grains d /\
  Identities (snd (construct mayOpenGrain hasUserInfo tok now0 now d)) = Identities d /\
  ApiTokens (snd (construct mayOpenGrain hasUserInfo tok now0 now d))
  = snd (validateWebkey (ApiTokens d !! tok) None now0 now (ApiTokens d)).
Proof.
  unfold construct, ApiTokens_findOne.
  destruct (validateWebkey _ None now0 now (ApiTokens d)) as [[f|] tokens];
    [now repeat split|].
  destruct (ApiTokens d !! tok) as [t|]; [|now repeat split].
  destruct (grainId t ≫= _); [|now repeat split].
  destruct (hasUserInfo t); [now repeat split|].
  destruct (ProxyClass.new _ _ _ _ _ _ _ _); [|now repeat split].
  destruct (mayOpenGrain _ t); now repeat split.
Qed.

End ApiProxies.

(** X17: a cache hit is answered without reading any collection: the
    result is the same whatever the database holds -- the token may have
    been revoked or deleted since -- and the database is not written.
    The answer is the cached proxy, or 403 "Authorization token expired"
    when the proxy carries an expiry that has been reached. *)
Theorem getProxyForApiToken_hit_skips_validation
    (mayOpenGrain : Database -> ApiToken -> bool) (hasUserInfo : ApiToken -> bool)
    (tok par : string) (now0 now : Z) (s : ApiProxy.state) (r : ProxyRef) :
  fst (ApiSessionProxies.get tok par (ApiProxy.proxies s)) = Some r ->
  (forall d mayOpenGrain' hasUserInfo' now',
     fst (ApiProxy.getProxyForApiToken mayOpenGrain' hasUserInfo' tok par now0 now'
            (ApiProxy.State d (ApiProxy.proxies s) (ApiProxy.objects s)))
     = fst (ApiProxy.getProxyForApiToken mayOpenGrain hasUserInfo tok par now0 now s)) /\
  ApiProxy.db (snd (ApiProxy.getProxyForApiToken mayOpenGrain hasUserInfo tok par now0 now s))
  = ApiProxy.db s /\
  ApiProxy.objects
    (snd (ApiProxy.getProxyForApiToken mayOpenGrain hasUserInfo tok par now0 now s))
  = ApiProxy.objects s /\
  fst (ApiProxy.getProxyForApiToken mayOpenGrain hasUserInfo tok par now0 now s)
  = match ApiProxy.objects s !! r ≫= p_expires with
    | Some e => if e <=? now0 then Throws (Meteor_Error 403 "Authorization token expired")
                else Returns r
    | None => Returns r
    end.
Proof.
  intros Hhit. unfold ApiProxy.getProxyForApiToken. cbn [ApiProxy.proxies ApiProxy.objects].
  destruct (ApiSessionProxies.get tok par (ApiProxy.proxies s)) as [o c].
  cbn [fst] in Hhit. subst o.
  destruct (ApiProxy.objects s !! r ≫= p_expires) as [e|]; [destruct (e <=? now0)|];
    now repeat split.
Qed.

Lemma getProxyForApiToken_hit_skips_validation_witness :
  fst (ApiProxy.getProxyForApiToken (fun _ _ => true) (fun _ => false) "tok" "par1" 0 0
         (ApiProxy.State sample_db aged_cache raced_store))
  = Returns 1%positive.
Proof.
  apply (getProxyForApiToken_hit_skips_validation (fun _ _ => true) (fun _ => false)
           "tok" "par1" 0 0 (ApiProxy.State sample_db aged_cache raced_store) 1%positive).
  reflexivity.
Defined.

(** X18: on a cache miss a proxy is returned only for a stored document
    that [validateWebkey] accepts and that may open the grain; the proxy
    is a new object, an API proxy that is not connected and carries the
    document and its expiry; it is cached under the two hashes, so that
    the next call for them returns it without a validation as long as the
    expiry is not reached. *)
Theorem getProxyForApiToken_miss_caches
    (mayOpenGrain : Database -> ApiToken -> bool) (hasUserInfo : ApiToken -> bool)
    (tok par : string) (now0 now : Z) (s s' : ApiProxy.state) (r : ProxyRef) :
  fst (ApiSessionProxies.get tok par (ApiProxy.proxies s)) = None ->
  ApiProxy.getProxyForApiToken mayOpenGrain hasUserInfo tok par now0 now s = (Returns r, s') ->
  exists t proxy,
    ApiTokens (ApiProxy.db s) !! tok = Some t /\
    fst (validateWebkey (Some t) None now0 now (ApiTokens (ApiProxy.db s))) = None /\
    mayOpenGrain (ApiProxy.db s') t = true /\
    ApiProxy.objects s !! r = None /\
    ApiProxy.objects s' = <[r := proxy]> (ApiProxy.objects s) /\
    isApi proxy = true /\ apiToken proxy = Some t /\ p_expires proxy = expires t /\
    session proxy = None /\
    ApiProxy.proxies s' = ApiSessionProxies.put tok par r (ApiProxy.proxies s) /\
    forall later now',
      match expires t with Some e => later < e | None => True end ->
      fst (ApiProxy.getProxyForApiToken mayOpenGrain hasUserInfo tok par later now' s')
      = Returns r.
Proof.
  intros Hmiss. unfold ApiProxy.getProxyForApiToken at 1.
  rewrite (get_miss _ _ _ Hmiss).
  destruct (ApiProxy.construct mayOpenGrain hasUserInfo tok now0 now (ApiProxy.db s))
    as [[proxy|e] d] eqn:Ec; [|discriminate].
  intros [= <- <-].
  destruct (construct_returns _ _ _ _ _ _ _ _ Ec) as (t & Ht & Hv & Hm & Ha & Hk & He & Hs & _).
  exists t, proxy. cbn [ApiProxy.db ApiProxy.objects ApiProxy.proxies].
  repeat (split; [first [assumption | reflexivity | apply not_elem_of_dom, is_fresh]|]).
  intros later now' Hlater. unfold ApiProxy.getProxyForApiToken.
  cbn [ApiProxy.db ApiProxy.objects ApiProxy.proxies].
  unfold ApiSessionProxies.get. rewrite lookup_put, decide_True by done.
  rewrite lookup_insert_eq. cbn [mbind option_bind]. rewrite He.
  destruct (expires t) as [e|]; [|reflexivity].
  replace (e <=? later) with false by (symmetry; apply Z.leb_gt; exact Hlater).
  reflexivity.
Qed.

Lemma getProxyForApiToken_miss_caches_witness :
  let s := ApiProxy.State webkey_db (ApiSessionProxies.Cache ∅ ∅) ∅ in
  let call := ApiProxy.getProxyForApiToken (fun _ _ => true) (fun _ => false)
                "h4sh" "par" 0 0 s in
  exists t proxy,
    ApiTokens webkey_db !! "h4sh"%string = Some t /\
    fst (validateWebkey (Some t) None 0 0 (ApiTokens webkey_db)) = None /\
    true = true /\
    (∅ : Store) !! fresh (dom (∅ : Store)) = None /\
    ApiProxy.objects (snd call) = <[fresh (dom (∅ : Store)) := proxy]> ∅ /\
    isApi proxy = true /\ apiToken proxy = Some t /\ p_expires proxy = expires t /\
    session proxy = None /\
    ApiProxy.proxies (snd call)
    = ApiSessionProxies.put "h4sh" "par" (fresh (dom (∅ : Store))) (ApiSessionProxies.Cache ∅ ∅) /\
    forall later now',
      match expires t with Some e => later < e | None => True end ->
      fst (ApiProxy.getProxyForApiToken (fun _ _ => true) (fun _ => false)
             "h4sh" "par" later now' (snd call))
      = Returns (fresh (dom (∅ : Store))).
Proof.
  cbn zeta.
  apply (getProxyForApiToken_miss_caches (fun _ _ => true) (fun _ => false)
           "h4sh" "par" 0 0 (ApiProxy.State webkey_db (ApiSessionProxies.Cache ∅ ∅) ∅));
    reflexivity.
Defined.

(** X19: a call that misses the cache and throws leaves the cache and
    the Proxy objects as they were; of the collections only [ApiTokens]
    can differ, and only as [validateWebkey] changes it. *)
Theorem getProxyForApiToken_failure_leaves_cache
    (mayOpenGrain : Database -> ApiToken -> bool) (hasUserInfo : ApiToken -> bool)
    (tok par : string) (now0 now : Z) (s s' : ApiProxy.state) (e : JsError) :
  fst (ApiSessionProxies.get tok par (ApiProxy.proxies s)) = None ->
  ApiProxy.getProxyForApiToken mayOpenGrain hasUserInfo tok par now0 now s = (Throws e, s') ->
  ApiProxy.proxies s' = ApiProxy.proxies s /\
  ApiProxy.objects s' = ApiProxy.objects s /\
  Sessions (ApiProxy.db s') = Sessions (ApiProxy.db s) /\
  Grains (ApiProxy.db s') = Grains (ApiProxy.db s) /\
  Identities (ApiProxy.db s') = Identities (ApiProxy.db s) /\
  ApiTokens (ApiProxy.db s')
  = snd (validateToken tok None now0 now (ApiTokens (ApiProxy.db s))).
Proof.
  intros Hmiss. unfold ApiProxy.getProxyForApiToken.
  rewrite (get_miss _ _ _ Hmiss).
  destruct (construct_collections mayOpenGrain hasUserInfo tok now0 now (ApiProxy.db s))
    as (H1 & H2 & H3 & H4).
  destruct (ApiProxy.construct mayOpenGrain hasUserInfo tok now0 now (ApiProxy.db s))
    as [[proxy|e'] d]; [discriminate|].
  intros [= <- <-]. cbn [ApiProxy.db ApiProxy.objects ApiProxy.proxies snd] in *.
  now repeat split.
Qed.

Lemma getProxyForApiToken_failure_leaves_cache_witness :
  ApiProxy.proxies
    (snd (ApiProxy.getProxyForApiToken (fun _ _ => true) (fun _ => false) "nope" "par" 0 0
            (ApiProxy.State sample_db aged_cache raced_store)))
  = aged_cache.
Proof.
  apply (getProxyForApiToken_failure_leaves_cache (fun _ _ => true) (fun _ => false)
           "nope" "par" 0 0 (ApiProxy.State sample_db aged_cache raced_store) _
           (thrown InvalidToken)); reflexivity.
Defined.

(* ===================================================================== *)
(** ** The permissions blob *)
(* ===================================================================== *)

Section PermissionBits.

Local Open Scope nat_scope.

Variable permissions : list bool.

Lemma bit_of_one (m j : nat) :
  Z.testbit (Z.shiftl 1 (Z.of_nat m)) (Z.of_nat j) = (j =? m).
Proof.
  rewrite Z.shiftl_1_l, Z.pow2_bits_eqb by lia.
  destruct (Nat.eqb_spec j m) as [->|Hne].
  - apply Z.eqb_refl.
  - apply Z.eqb_neq. lia.
Qed.

Lemma nth_insert (buf : list Z) (i b : nat) (v : Z) :
  i < length buf ->
  nth b (<[i := v]> buf) 0%Z = if decide (b = i) then v else nth b buf 0%Z.
Proof.
  intros Hi. rewrite !nth_lookup. case_decide as Hb.
  - subst b. now rewrite list_lookup_insert_eq.
  - now rewrite list_lookup_insert_ne by done.
Qed.

(** After [k] turns the buffer holds the first [k] permissions, bit by
    bit, and nothing else. *)
Lemma blobAfter_bits (k : nat) :
  k <= length permissions ->
  length (blobAfter permissions k) = (length permissions + 7) / 8 /\
  forall b j,
    Z.testbit (nth b (blobAfter permissions k) 0%Z) (Z.of_nat j)
    = (j <? 8) && (8 * b + j <? k) && nth (8 * b + j) permissions false.
Proof.
  induction k as [|k IH]; intros Hk.
  - unfold blobAfter. cbn [seq fold_left]. split; [apply length_replicate|].
    intros b j. rewrite andb_false_r. cbn [andb].
    rewrite nth_lookup.
    destruct (replicate _ 0%Z !! b) as [x|] eqn:E; [|apply Z.bits_0].
    apply lookup_replicate in E as [-> _]. apply Z.bits_0.
  - destruct IH as [Hlen Hbits]; [lia|].
    unfold blobAfter in *. rewrite seq_S, fold_left_app. cbn [fold_left Nat.add].
    set (buf := fold_left (setPermission permissions) (seq 0 k) _) in *.
    unfold setPermission at 1 2. cbn zeta.
    destruct (nth k permissions false) eqn:Ep.
    + split; [now rewrite length_insert|].
      intros b j.
      rewrite nth_insert
        by (rewrite Hlen; apply Nat.Div0.div_lt_upper_bound;
            pose proof (Nat.div_mod_eq (length permissions + 7) 8);
            pose proof (Nat.mod_upper_bound (length permissions + 7) 8); lia).
      case_decide as Hb.
      * subst b. rewrite Z.lor_spec, Hbits, bit_of_one.
        destruct (Nat.eqb_spec j (k mod 8)) as [->|Hj].
        -- replace (8 * (k / 8) + k mod 8) with k by (apply Nat.div_mod_eq).
           rewrite Ep, Nat.ltb_irrefl, orb_true_r.
           replace (k mod 8 <? 8) with true
             by (symmetry; apply Nat.ltb_lt, Nat.mod_upper_bound; lia).
           replace (k <? S k) with true by (symmetry; apply Nat.ltb_lt; lia).
           reflexivity.
        -- rewrite orb_false_r.
           destruct (Nat.ltb_spec j 8) as [Hj8|]; [|reflexivity]. cbn [andb].
           assert (8 * (k / 8) + j <> k).
           { pose proof (Nat.div_mod_eq k 8). lia. }
           f_equal.
           destruct (Nat.ltb_spec (8 * (k / 8) + j) k), (Nat.ltb_spec (8 * (k / 8) + j) (S k));
             (reflexivity || lia).
      * rewrite Hbits.
        destruct (Nat.ltb_spec j 8) as [Hj8|]; [|reflexivity]. cbn [andb].
        assert (8 * b + j <> k).
        { pose proof (Nat.div_mod_eq k 8).
          pose proof (Nat.mod_upper_bound k 8). lia. }
        f_equal.
        destruct (Nat.ltb_spec (8 * b + j) k), (Nat.ltb_spec (8 * b + j) (S k));
          (reflexivity || lia).
    + split; [exact Hlen|].
      intros b j. rewrite Hbits.
      destruct (Nat.ltb_spec j 8) as [Hj8|]; [|reflexivity]. cbn [andb].
      destruct (Nat.eq_dec (8 * b + j) k) as [E|Hne].
      * rewrite E, Ep, !andb_false_r. reflexivity.
      * f_equal.
        destruct (Nat.ltb_spec (8 * b + j) k), (Nat.ltb_spec (8 * b + j) (S k));
          (reflexivity || lia).
Qed.

Lemma permissionsBlob_unfold :
  permissionsBlob permissions = blobAfter permissions (length permissions).
Proof. reflexivity. Qed.

End PermissionBits.

(** X20: the permissions blob has one byte for every eight permissions,
    rounded up; bit [j] of byte [b] is the permission number [8 * b + j]
    (clear past the end of the list), so the permissions can be read back
    from the blob; and every byte is in the range of a byte. *)
Theorem permissionsBlob_bits (permissions : list bool) :
  length (permissionsBlob permissions) = ((length permissions + 7) / 8)%nat /\
  (forall b j : nat,
     (j < 8)%nat ->
     Z.testbit (nth b (permissionsBlob permissions) 0) (Z.of_nat j)
     = nth (8 * b + j) permissions false) /\
  (forall i : nat,
     nth i permissions false
     = Z.testbit (nth (i / 8) (permissionsBlob permissions) 0) (Z.of_nat (i mod 8))) /\
  Forall (fun byte => 0 <= byte < 256) (permissionsBlob permissions).
Proof.
  rewrite permissionsBlob_unfold.
  destruct (blobAfter_bits permissions (length permissions) (le_n _)) as [Hlen Hbits].
  assert (Hbit : forall b j : nat,
             (j < 8)%nat ->
             Z.testbit (nth b (permissionsBlob permissions) 0) (Z.of_nat j)
             = nth (8 * b + j) permissions false).
  { intros b j Hj. rewrite permissionsBlob_unfold, Hbits.
    replace (j <? 8)%nat with true by (symmetry; apply Nat.ltb_lt; exact Hj). cbn [andb].
    destruct (Nat.ltb_spec (8 * b + j) (length permissions)) as [|Hout]; [reflexivity|].
    cbn [andb]. symmetry. now apply nth_overflow. }
  split; [exact Hlen|]. split; [exact Hbit|]. split.
  - intros i. rewrite Hbit by (apply Nat.mod_upper_bound; lia).
    f_equal. apply Nat.div_mod_eq.
  - apply Forall_forall. intros byte Hin.
    apply list_elem_of_In, In_nth with (d := 0) in Hin as (b & _ & <-).
    set (x := nth b _ 0).
    assert (Hx : x = x mod 2 ^ 8).
    { apply Z.bits_inj'. intros n Hn.
      destruct (Z.lt_ge_cases n 8) as [Hlow|Hhigh].
      - now rewrite Z.mod_pow2_bits_low.
      - rewrite Z.mod_pow2_bits_high by lia.
        rewrite <- (Z2Nat.id n Hn). unfold x. rewrite Hbits.
        replace (Z.to_nat n <? 8)%nat with false by (symmetry; apply Nat.ltb_ge; lia).
        reflexivity. }
    rewrite Hx. apply Z.mod_pos_bound. reflexivity.
Qed.

Lemma permissionsBlob_bits_witness :
  Z.testbit
    (nth 1 (permissionsBlob [true; false; false; false; false; false; false; false; true]) 0)
    (Z.of_nat 0)
  = nth (8 * 1 + 0) [true; false; false; false; false; false; false; false; true] false.
Proof.
  apply (permissionsBlob_bits [true; false; false; false; false; false; false; false; true]).
  lia.
Defined.

(* ===================================================================== *)
(** ** Remote addresses *)
(* ===================================================================== *)

(** X21: for the four octets of an IPv4 address the number passed to the
    application is the IPv4-mapped IPv6 address: it is below 2^48 (hence
    exact in a double), its bits from 32 up are [0xFFFF], and the four
    octets can be read back from its low 32 bits. *)
Theorem v4Int_mapped (a b c d : Z) :
  RemoteAddress.octet a -> RemoteAddress.octet b ->
  RemoteAddress.octet c -> RemoteAddress.octet d ->
  exists v,
    RemoteAddress.v4Int [a; b; c; d] = Some v /\
    0 <= v < 2 ^ 48 /\
    v / 2 ^ 32 = 0xFFFF /\
    v mod 2 ^ 32 = RemoteAddress.ofQuad a b c d /\
    (v / 2 ^ 24) mod 256 = a /\ (v / 2 ^ 16) mod 256 = b /\
    (v / 2 ^ 8) mod 256 = c /\ v mod 256 = d.
Proof.
  unfold RemoteAddress.octet. intros Ha Hb Hc Hd.
  eexists. split; [reflexivity|]. cbn [fold_left]. unfold RemoteAddress.ofQuad.
  change (2 ^ 48) with 281474976710656. change (2 ^ 32) with 4294967296.
  change (2 ^ 24) with 16777216. change (2 ^ 16) with 65536. change (2 ^ 8) with 256.
  repeat split; try lia; Z.div_mod_to_equations; lia.
Qed.

Lemma v4Int_mapped_witness :
  exists v,
    RemoteAddress.v4Int [192; 168; 1; 20] = Some v /\
    0 <= v < 2 ^ 48 /\
    v / 2 ^ 32 = 0xFFFF /\
    v mod 2 ^ 32 = RemoteAddress.ofQuad 192 168 1 20 /\
    (v / 2 ^ 24) mod 256 = 192 /\ (v / 2 ^ 16) mod 256 = 168 /\
    (v / 2 ^ 8) mod 256 = 1 /\ v mod 256 = 20.
Proof.
  apply (v4Int_mapped 192 168 1 20); unfold RemoteAddress.octet; lia.
Defined.

(** X22: on the octets of an IPv4 address [isRfc1918OrLocal] holds
    exactly for the addresses of 127.0.0.0/8, 10.0.0.0/8, 192.168.0.0/16
    and 172.16.0.0/12. *)
Theorem isRfc1918OrLocal_blocks (a b c d : Z) :
  RemoteAddress.octet a -> RemoteAddress.octet b ->
  RemoteAddress.octet c -> RemoteAddress.octet d ->
  RemoteAddress.isRfc1918OrLocal [a; b; c; d] = true <->
  RemoteAddress.ofQuad a b c d / 2 ^ 24 = 127 \/
  RemoteAddress.ofQuad a b c d / 2 ^ 24 = 10 \/
  RemoteAddress.ofQuad a b c d / 2 ^ 16 = RemoteAddress.ofQuad 0 0 192 168 \/
  RemoteAddress.ofQuad a b c d / 2 ^ 20 = RemoteAddress.ofQuad 0 0 172 16 / 2 ^ 4.
Proof.
  unfold RemoteAddress.octet, RemoteAddress.isRfc1918OrLocal, RemoteAddress.ofQuad.
  intros Ha Hb Hc Hd. cbn [lookup list_lookup].
  change (2 ^ 24) with 16777216. change (2 ^ 16) with 65536.
  change (2 ^ 20) with 1048576.
  change (((0 * 256 + 0) * 256 + 192) * 256 + 168) with 49320.
  change ((((0 * 256 + 0) * 256 + 172) * 256 + 16) / 2 ^ 4) with 2753.
  rewrite !orb_true_iff, !andb_true_iff, !Z.eqb_eq, Z.leb_le, Z.ltb_lt.
  split.
  - intros [[[H|H]|H]|H]; Z.div_mod_to_equations; lia.
  - intros [H|[H|[H|H]]]; Z.div_mod_to_equations; lia.
Qed.

Lemma isRfc1918OrLocal_blocks_witness :
  RemoteAddress.isRfc1918OrLocal [172; 31; 255; 255] = true <->
  RemoteAddress.ofQuad 172 31 255 255 / 2 ^ 24 = 127 \/
  RemoteAddress.ofQuad 172 31 255 255 / 2 ^ 24 = 10 \/
  RemoteAddress.ofQuad 172 31 255 255 / 2 ^ 16 = RemoteAddress.ofQuad 0 0 192 168 \/
  RemoteAddress.ofQuad 172 31 255 255 / 2 ^ 20 = RemoteAddress.ofQuad 0 0 172 16 / 2 ^ 4.
Proof.
  apply (isRfc1918OrLocal_blocks 172 31 255 255); unfold RemoteAddress.octet; lia.
Defined.

(* ===================================================================== *)
(** ** [computeStagger] and the first periodic cleanup *)
(* ===================================================================== *)

Section Staggering.

Import Stagger.

Lemma toInt32_small x : - 2 ^ 31 <= x < 2 ^ 31 -> toInt32 x = x.
Proof.
  intros H. unfold toInt32. rewrite Z.mod_small; lia.
Qed.

Lemma shl1_pow2 i : 0 <= i < 30 -> shl1 (2 ^ i) = 2 ^ (i + 1).
Proof.
  intros Hi. unfold shl1.
  assert (0 < 2 ^ i) by (apply Z.pow_pos_nonneg; lia).
  assert (2 ^ (i + 1) <= 2 ^ 30) by (apply Z.pow_le_mono_r; lia).
  assert (2 ^ (i + 1) = 2 * 2 ^ i) by (rewrite Z.pow_add_r by lia; change (2 ^ 1) with 2; lia).
  change (2 ^ 30) with 1073741824 in *.
  rewrite (toInt32_small (2 ^ i)) by (change (2 ^ 31) with 2147483648; lia).
  rewrite toInt32_small by (change (2 ^ 31) with 2147483648; lia). lia.
Qed.

(** The loop stops at the first power of two above [n]. *)
Lemma grow_pow2 fuel i n :
  0 <= i <= 30 -> 0 <= n < 2 ^ 30 ->
  (i = 0 \/ 2 ^ (i - 1) <= n) ->
  31 - i <= Z.of_nat fuel ->
  exists m,
    i <= m <= 30 /\ grow fuel (2 ^ i) n = Some (2 ^ m) /\
    n < 2 ^ m /\ (m = 0 \/ 2 ^ (m - 1) <= n).
Proof.
  revert i. induction fuel as [|fuel IH]; intros i Hi Hn Hlow Hfuel; [lia|].
  cbn [grow]. destruct (Z.leb_spec (2 ^ i) n) as [Hle|Hgt].
  - assert (i < 30).
    { destruct (Z.eq_dec i 30) as [->|]; [lia|lia]. }
    rewrite shl1_pow2 by lia.
    destruct (IH (i + 1)) as (m & Hm & Hg & Hlt & Hm'); try lia.
    { right. now replace (i + 1 - 1) with i by lia. }
    exists m. repeat split; try lia; assumption.
  - exists i. repeat split; try lia; assumption.
Qed.

Lemma grow_overflows fuel denom n :
  2 ^ 30 <= n -> overflowing denom -> grow fuel denom n = None.
Proof.
  intros Hn. revert denom. induction fuel as [|fuel IH]; intros denom Hd; [reflexivity|].
  cbn [grow].
  assert (Hle : denom <= n).
  { destruct Hd as [->|[->|(i & Hi & ->)]]; try lia.
    transitivity (2 ^ 30); [apply Z.pow_le_mono_r; lia | exact Hn]. }
  destruct (Z.leb_spec denom n) as [_|]; [|lia].
  apply IH. destruct Hd as [->|[->|(i & Hi & ->)]].
  - left. reflexivity.
  - left. reflexivity.
  - destruct (Z.eq_dec i 30) as [->|Hne].
    + right. left. reflexivity.
    + right. right. exists (i + 1). split; [lia|]. apply shl1_pow2. lia.
Qed.

Lemma odd_times_pow2 a k : 0 < k -> Z.odd (a * 2 ^ k) = false.
Proof.
  intros Hk. replace k with (Z.succ (k - 1)) by lia.
  rewrite Z.pow_succ_r by lia.
  rewrite Z.odd_mul, (Z.odd_mul 2). cbn [Z.odd]. now rewrite andb_false_r.
Qed.

(** What [computeStagger] returns below 2^30. *)
Lemma computeStagger_value fuel n :
  0 <= n < 2 ^ 30 -> (31 <= fuel)%nat ->
  exists m,
    0 <= m <= 30 /\
    computeStagger fuel n = Some (n * 2 - 2 ^ m + 1, 2 ^ m) /\
    n < 2 ^ m /\ (m = 0 \/ 2 ^ (m - 1) <= n).
Proof.
  intros Hn Hfuel.
  destruct (grow_pow2 fuel 0 n) as (m & Hm & Hg & Hlt & Hlow); try lia.
  exists m. unfold computeStagger. change 1 with (2 ^ 0) at 1. rewrite Hg.
  repeat split; try lia; assumption.
Qed.

Lemma pow2_half m : 0 < m -> 2 ^ m = 2 * 2 ^ (m - 1).
Proof.
  intros Hm. replace m with (Z.succ (m - 1)) at 1 by lia.
  rewrite Z.pow_succ_r; lia.
Qed.

Lemma odd_ratio a a' m m' :
  0 <= m -> 0 <= m' -> Z.odd a = true -> Z.odd a' = true ->
  a * 2 ^ m' = a' * 2 ^ m -> m = m'.
Proof.
  intros Hm Hm' Ho Ho' Heq.
  assert (0 < 2 ^ m) by (apply Z.pow_pos_nonneg; lia).
  assert (0 < 2 ^ m') by (apply Z.pow_pos_nonneg; lia).
  destruct (Z.lt_trichotomy m m') as [Hl|[E|Hg]]; [|exact E|]; exfalso.
  - assert (E : a * 2 ^ (m' - m) = a').
    { apply (Z.mul_cancel_r _ _ (2 ^ m)); [lia|].
      rewrite <- Heq, <- Z.mul_assoc, <- Z.pow_add_r by lia.
      now replace (m' - m + m) with m' by lia. }
    rewrite <- E, odd_times_pow2 in Ho' by lia. discriminate.
  - assert (E : a = a' * 2 ^ (m - m')).
    { apply (Z.mul_cancel_r _ _ (2 ^ m')); [lia|].
      rewrite Heq, <- Z.mul_assoc, <- Z.pow_add_r by lia.
      now replace (m - m' + m') with m by lia. }
    rewrite E, odd_times_pow2 in Ho by lia. discriminate.
Qed.

End Staggering.

(** X23: for a replica number below 2^30 [computeStagger] returns a
    fraction in [0, 1) whose denominator is the first power of two above
    the number; the fraction is 0 for replica 0 and has an odd numerator
    otherwise, and no two replica numbers get the same fraction. *)
Theorem computeStagger_fraction (fuel : nat) (n : Z) :
  0 <= n < 2 ^ 30 -> (31 <= fuel)%nat ->
  exists num m,
    Stagger.computeStagger fuel n = Some (num, 2 ^ m) /\
    0 <= m <= 30 /\ 0 <= num < 2 ^ m /\ n < 2 ^ m /\
    (n = 0 -> num = 0 /\ m = 0) /\
    (0 < n -> Z.odd num = true /\ 2 ^ m <= 2 * n) /\
    forall n' num' denom',
      0 <= n' < 2 ^ 30 ->
      Stagger.computeStagger fuel n' = Some (num', denom') ->
      num * denom' = num' * 2 ^ m -> n' = n.
Proof.
  intros Hn Hfuel.
  destruct (computeStagger_value fuel n Hn Hfuel) as (m & Hm & Hc & Hlt & Hlow).
  assert (Hpos : 0 < 2 ^ m) by (apply Z.pow_pos_nonneg; lia).
  assert (Hzero : n = 0 -> m = 0).
  { intros ->. destruct Hlow as [->|Hlow]; [reflexivity|].
    destruct (Z.eq_dec m 0) as [E|]; [exact E|].
    assert (0 < 2 ^ (m - 1)) by (apply Z.pow_pos_nonneg; lia). lia. }
  assert (Hhalf : 0 < n -> 0 < m /\ 2 ^ m <= 2 * n).
  { intros Hn0. destruct Hlow as [->|Hlow]; [cbn in Hlt; lia|].
    assert (0 < m).
    { destruct (Z.eq_dec m 0) as [->|]; [cbn in Hlt; lia | lia]. }
    split; [assumption|]. rewrite (pow2_half m) by assumption. lia. }
  assert (Hodd : 0 < n -> Z.odd (n * 2 - 2 ^ m + 1) = true).
  { intros Hn0. destruct (Hhalf Hn0) as [Hm0 _].
    rewrite (pow2_half m) by assumption.
    replace (n * 2 - 2 * 2 ^ (m - 1) + 1) with (1 + 2 * (n - 2 ^ (m - 1))) by lia.
    rewrite Z.odd_add_mul_2. reflexivity. }
  exists (n * 2 - 2 ^ m + 1), m. split; [exact Hc|]. split; [exact Hm|].
  split.
  { destruct (Z.eq_dec n 0) as [->|]; [rewrite (Hzero eq_refl); cbn; lia|].
    destruct Hhalf; lia. }
  split; [exact Hlt|].
  split; [intros ->; rewrite (Hzero eq_refl); now split|].
  split; [intros Hn0; split; [now apply Hodd | now apply Hhalf]|].
  intros n' num' denom' Hn' Hc' Heq.
  destruct (computeStagger_value fuel n' Hn' Hfuel) as (m' & Hm' & Hc2 & Hlt' & Hlow').
  rewrite Hc2 in Hc'. injection Hc' as <- <-.
  assert (Hpos' : 0 < 2 ^ m') by (apply Z.pow_pos_nonneg; lia).
  assert (Hzero' : n' = 0 -> m' = 0).
  { intros ->. destruct Hlow' as [->|Hl]; [reflexivity|].
    destruct (Z.eq_dec m' 0) as [E|]; [exact E|].
    assert (0 < 2 ^ (m' - 1)) by (apply Z.pow_pos_nonneg; lia). lia. }
  assert (Hodd' : 0 < n' -> Z.odd (n' * 2 - 2 ^ m' + 1) = true /\ 0 < m').
  { intros Hn0. destruct Hlow' as [->|Hl]; [cbn in Hlt'; lia|].
    assert (0 < m').
    { destruct (Z.eq_dec m' 0) as [->|]; [cbn in Hlt'; lia | lia]. }
    split; [|assumption]. rewrite (pow2_half m') by assumption.
    replace (n' * 2 - 2 * 2 ^ (m' - 1) + 1) with (1 + 2 * (n' - 2 ^ (m' - 1))) by lia.
    rewrite Z.odd_add_mul_2. reflexivity. }
  destruct (Z.eq_dec n 0) as [->|Hn0], (Z.eq_dec n' 0) as [->|Hn0']; try reflexivity.
  - rewrite (Hzero eq_refl) in Heq. cbn in Heq.
    destruct (Hodd' ltac:(lia)) as [Ho _].
    assert (n' * 2 - 2 ^ m' + 1 = 0) by lia.
    rewrite H in Ho. discriminate Ho.
  - rewrite (Hzero' eq_refl) in Heq. cbn in Heq.
    pose proof (Hodd ltac:(lia)) as Ho.
    assert (n * 2 - 2 ^ m + 1 = 0) by nia.
    rewrite H in Ho. discriminate Ho.
  - pose proof (Hodd ltac:(lia)) as Ho.
    destruct (Hodd' ltac:(lia)) as [Ho' _].
    assert (Hmm : m = m') by (apply (odd_ratio _ _ m m' ltac:(lia) ltac:(lia) Ho Ho' Heq)).
    subst m'. apply Z.mul_cancel_r in Heq; lia.
Qed.

Lemma computeStagger_fraction_witness :
  exists num m,
    Stagger.computeStagger 31 5 = Some (num, 2 ^ m) /\
    0 <= m <= 30 /\ 0 <= num < 2 ^ m /\ 5 < 2 ^ m /\
    (5 = 0 -> num = 0 /\ m = 0) /\
    (0 < 5 -> Z.odd num = true /\ 2 ^ m <= 2 * 5) /\
    forall n' num' denom',
      0 <= n' < 2 ^ 30 ->
      Stagger.computeStagger 31 n' = Some (num', denom') ->
      num * denom' = num' * 2 ^ m -> n' = 5.
Proof.
  apply (computeStagger_fraction 31 5); [change (2 ^ 30) with 1073741824|]; lia.
Defined.

(** X24: for a replica number of 2^30 or more the loop of
    [computeStagger] never ends: the 32-bit shift takes the denominator
    from 2^30 to -2^31 and then to 0, where it stays. *)
Theorem computeStagger_diverges (fuel : nat) (n : Z) :
  2 ^ 30 <= n -> Stagger.computeStagger fuel n = None.
Proof.
  intros Hn. unfold Stagger.computeStagger.
  rewrite grow_overflows; [reflexivity | exact Hn |].
  right. right. exists 0. split; [lia | reflexivity].
Qed.

Lemma computeStagger_diverges_witness :
  Stagger.computeStagger 100 (2 ^ 30) = None.
Proof.
  apply (computeStagger_diverges 100 (2 ^ 30)). lia.
Defined.

(** X25: an interval below two minutes is refused; otherwise (with
    numbers small enough for the product of the interval and the stagger
    to be exact) the first
    cleanup is scheduled after a delay that is positive and at most one
    interval, at a time that lies the stagger's share of the interval
    after a multiple of the interval since the epoch, whatever the time
    of the call. *)
Theorem firstCleanup_aligned (intervalMs now num denom : Z) :
  0 <= now -> 0 <= num < denom -> intervalMs * num < 2 ^ 53 ->
  (intervalMs < 120000 -> Stagger.firstCleanup intervalMs now num denom = None) /\
  (120000 <= intervalMs ->
   exists first,
     Stagger.firstCleanup intervalMs now num denom = Some first /\
     0 < first <= intervalMs /\
     (now + first) mod intervalMs = intervalMs * num / denom).
Proof.
  intros Hnow Hfrac _. unfold Stagger.firstCleanup. split.
  - intros Hlt. apply Z.ltb_lt in Hlt. now rewrite Hlt.
  - intros Hge. replace (intervalMs <? 120000) with false by (symmetry; apply Z.ltb_ge; lia).
    eexists. split; [reflexivity|].
    set (s := intervalMs * num / denom).
    assert (Hs : 0 <= s < intervalMs).
    { unfold s. split.
      - apply Z.div_pos; nia.
      - apply Z.div_lt_upper_bound; nia. }
    pose proof (Z.mod_pos_bound now intervalMs ltac:(lia)) as Hr.
    pose proof (Z.div_mod now intervalMs ltac:(lia)) as Hq.
    destruct (Z.ltb_spec intervalMs (intervalMs - now mod intervalMs + s)) as [Hover|Hin].
    + split; [lia|].
      replace (now + (intervalMs - now mod intervalMs + s - intervalMs))
        with (s + (now / intervalMs) * intervalMs) by lia.
      rewrite Z_mod_plus_full. apply Z.mod_small. exact Hs.
    + split; [lia|].
      replace (now + (intervalMs - now mod intervalMs + s))
        with (s + (now / intervalMs + 1) * intervalMs) by lia.
      rewrite Z_mod_plus_full. apply Z.mod_small. exact Hs.
Qed.

Lemma firstCleanup_aligned_witness :
  exists first,
    Stagger.firstCleanup 120000 1000 3 4 = Some first /\
    0 < first <= 120000 /\
    (1000 + first) mod 120000 = 120000 * 3 / 4.
Proof.
  apply (firstCleanup_aligned 120000 1000 3 4); lia.
Defined.

(* ===================================================================== *)
(** ** Host names and host ids *)
(* ===================================================================== *)

Section Strings.

Import Str.

Lemma str_app_nil (s : string) : EmptyString +:+ s = s.
Proof. reflexivity. Qed.

Lemma str_app_cons x (a s : string) : String x a +:+ s = String x (a +:+ s).
Proof. reflexivity. Qed.

Lemma str_app_nil_r (s : string) : s +:+ EmptyString = s.
Proof.
  induction s as [|x s IH]; [reflexivity|]. now rewrite str_app_cons, IH.
Qed.

Lemma str_app_assoc (a b c : string) : (a +:+ b) +:+ c = a +:+ b +:+ c.
Proof.
  induction a as [|x a IH]; [reflexivity|]. now rewrite !str_app_cons, IH.
Qed.

Lemma hd_split_cons c x s :
  Ascii.eqb x c = false ->
  hd EmptyString (split c (String x s)) = String x (hd EmptyString (split c s)).
Proof.
  intros H. cbn [split]. rewrite H. now destruct (split c s).
Qed.

Lemma indexOf_cons_none c x s :
  indexOf c (String x s) = None -> Ascii.eqb x c = false /\ indexOf c s = None.
Proof.
  cbn [indexOf]. destruct (Ascii.eqb x c); [discriminate|].
  destruct (indexOf c s); [discriminate | now split].
Qed.

Lemma hd_split_app c a b :
  indexOf c a = None ->
  hd EmptyString (split c (a +:+ b)) = a +:+ hd EmptyString (split c b).
Proof.
  induction a as [|x a IH]; intros H; [reflexivity|].
  apply indexOf_cons_none in H as [Hx Ha].
  rewrite str_app_cons, hd_split_cons by exact Hx. now rewrite IH.
Qed.

Lemma split_no_separator c s : indexOf c s = None -> split c s = [s].
Proof.
  induction s as [|x s IH]; intros H; [reflexivity|].
  apply indexOf_cons_none in H as [Hx Hs].
  cbn [split]. now rewrite Hx, IH.
Qed.

Lemma split_at_separator c a b :
  indexOf c a = None -> split c (a +:+ String c b) = a :: split c b.
Proof.
  induction a as [|x a IH]; intros H.
  - rewrite str_app_nil. cbn [split]. now rewrite Ascii.eqb_refl.
  - apply indexOf_cons_none in H as [Hx Ha].
    rewrite str_app_cons. cbn [split]. now rewrite Hx, IH.
Qed.

Lemma all_no_char (f : ascii -> bool) c s :
  f c = false -> all f s = true -> indexOf c s = None.
Proof.
  intros Hc. induction s as [|x s IH]; [reflexivity|].
  cbn [all indexOf]. intros H. apply andb_true_iff in H as [Hx Hs].
  destruct (Ascii.eqb_spec x c) as [->|_]; [congruence|].
  now rewrite IH.
Qed.

Lemma str_all_app f a b : all f (a +:+ b) = all f a && all f b.
Proof.
  induction a as [|x a IH]; [reflexivity|].
  rewrite str_app_cons. cbn [all]. now rewrite IH, andb_assoc.
Qed.

Lemma str_prefix_app p s : String.prefix p (p +:+ s) = true.
Proof.
  induction p as [|x p IH]; [now destruct s|].
  rewrite str_app_cons. cbn [String.prefix].
  destruct (Ascii.ascii_dec x x); [exact IH | congruence].
Qed.

Lemma str_contains_app a s : contains s (a +:+ s) = true.
Proof.
  induction a as [|x a IH].
  - rewrite str_app_nil. destruct s as [|y s]; [reflexivity|].
    cbn [contains]. rewrite <- (str_app_nil_r (String y s)) at 2.
    now rewrite str_prefix_app.
  - rewrite str_app_cons. cbn [contains]. rewrite IH. apply orb_true_r.
Qed.

Lemma str_length_app a b :
  String.length (a +:+ b) = (String.length a + String.length b)%nat.
Proof.
  induction a as [|x a IH]; [reflexivity|].
  rewrite str_app_cons. cbn [String.length]. now rewrite IH.
Qed.

Lemma substring_skip a n s :
  String.substring (String.length a) n (a +:+ s) = String.substring 0 n s.
Proof.
  induction a as [|x a IH]; [reflexivity|]. exact IH.
Qed.

Lemma substring_take b s : String.substring 0 (String.length b) (b +:+ s) = b.
Proof.
  induction b as [|x b IH]; [now destruct s|].
  rewrite str_app_cons. cbn [String.length String.substring]. now rewrite IH.
Qed.

Lemma substring_all f n m s :
  all f s = true -> all f (String.substring n m s) = true.
Proof.
  revert n m. induction s as [|x s IH]; intros n m H.
  - now destruct n, m.
  - cbn [all] in H. apply andb_true_iff in H as [Hx Hs].
    destruct n as [|n]; cbn [String.substring].
    + destruct m as [|m]; [reflexivity|]. cbn [all]. now rewrite Hx, IH.
    + now apply IH.
Qed.

Lemma substring_length m s :
  (m <= String.length s)%nat -> String.length (String.substring 0 m s) = m.
Proof.
  revert m. induction s as [|x s IH]; intros m H.
  - destruct m; [reflexivity | cbn in H; lia].
  - destruct m as [|m]; [reflexivity|]. cbn [String.substring String.length] in *.
    rewrite IH; lia.
Qed.

End Strings.

Section HexDigits.

Lemma encode_all_digits b : Str.all Hex.is_digit (Hex.encode b) = true.
Proof.
  induction b as [|x b IH]; [reflexivity|].
  cbn [Hex.encode Str.all]. now rewrite !digit_is_digit, IH.
Qed.

Lemma all_weaken (f g : ascii -> bool) s :
  (forall c, f c = true -> g c = true) -> Str.all f s = true -> Str.all g s = true.
Proof.
  intros Hfg. induction s as [|x s IH]; [reflexivity|].
  cbn [Str.all]. intros H. apply andb_true_iff in H as [Hx Hs].
  now rewrite (Hfg x Hx), IH.
Qed.

Lemma hex_is_idChar c : Hex.is_digit c = true -> Hosts.idChar c = true.
Proof.
  unfold Hex.is_digit. cbn [list_ascii_of_string existsb].
  rewrite !orb_true_iff.
  intros H. repeat (destruct H as [H|H]; [apply Ascii.eqb_eq in H; subst c; reflexivity|]).
  discriminate H.
Qed.

(** The hash part of a host id: 32 hexadecimal digits. *)
Lemma apiHostIdHash_shape token :
  String.length (SandstormDb.apiHostIdHashForToken token) = 32%nat /\
  Str.all Hex.is_digit (SandstormDb.apiHostIdHashForToken token) = true.
Proof.
  unfold SandstormDb.apiHostIdHashForToken, Js.slice, sha256_hex. split.
  - apply substring_length. rewrite encode_length, digest_length. cbn. lia.
  - apply substring_all, encode_all_digits.
Qed.

End HexDigits.

(** X26: the host id of a token is [api-] followed by 32 hexadecimal
    digits: 36 characters, all of them characters of a host id;
    [isTokenSpecificHostId] holds of it, [isApiHostId] returns its hash
    part, and [apiTokenForRequest] keeps the token on that host. *)
Theorem apiHostIdForToken_shape (token : string) :
  String.length (SandstormDb.apiHostIdForToken token) = 36%nat /\
  Str.all Hosts.idChar (SandstormDb.apiHostIdForToken token) = true /\
  Hosts.isTokenSpecificHostId (SandstormDb.apiHostIdForToken token) = true /\
  Hosts.isApiHostId (Some (SandstormDb.apiHostIdForToken token))
  = Some (SandstormDb.apiHostIdHashForToken token) /\
  Hosts.tokenForHost (Some token) (SandstormDb.apiHostIdForToken token) = Some token.
Proof.
  destruct (apiHostIdHash_shape token) as [Hlen Hhex].
  unfold SandstormDb.apiHostIdForToken.
  set (hash := SandstormDb.apiHostIdHashForToken token) in *.
  assert (Hne : hash <> EmptyString) by (intros E; rewrite E in Hlen; discriminate).
  split; [rewrite str_length_app, Hlen; reflexivity|].
  split.
  { rewrite str_all_app. cbn. apply (all_weaken _ _ _ hex_is_idChar Hhex). }
  split; [apply (str_prefix_app "api-")|].
  split.
  - unfold Hosts.isApiHostId.
    replace (Js.truthy_string (Some ("api-" +:+ hash))) with true by reflexivity.
    cbn [default from_option id].
    change ("api-" +:+ hash) with ("api" +:+ String "-" hash).
    rewrite split_at_separator by reflexivity.
    rewrite split_no_separator by (apply (all_no_char Hex.is_digit); [reflexivity | exact Hhex]).
    cbn [String.eqb Ascii.eqb Bool.eqb].
    destruct (String.eqb_spec hash "") as [E|_]; [now destruct Hne | reflexivity].
  - unfold Hosts.tokenForHost. cbn [default from_option id].
    fold (SandstormDb.apiHostIdForToken token). rewrite String.eqb_refl. cbn [negb].
    now destruct (_ && _).
Qed.

(** X27: [matchWildcardHost] recovers the id that [makeWildcardHost] was
    given, when the id is made of the characters of a host id, the part
    of the wildcard before the asterisk has no colon and the part after
    it does not start with a port (or end there). *)
Theorem matchWildcardHost_makeWildcardHost (prefix suffixFull id : string) :
  Str.indexOf ":" prefix = None ->
  Hosts.sansPort suffixFull <> EmptyString ->
  Str.all Hosts.idChar id = true ->
  Hosts.matchWildcardHost prefix suffixFull (Hosts.makeWildcardHost prefix suffixFull id)
  = Some id.
Proof.
  intros Hprefix Hsuffix Hid.
  unfold Hosts.matchWildcardHost, Hosts.makeWildcardHost.
  set (suffix := Hosts.sansPort suffixFull) in *.
  assert (Hhost : Hosts.sansPort (prefix +:+ id +:+ suffixFull) = prefix +:+ id +:+ suffix).
  { unfold Hosts.sansPort. rewrite hd_split_app by exact Hprefix.
    rewrite hd_split_app by (apply (all_no_char Hosts.idChar); [reflexivity | exact Hid]).
    reflexivity. }
  rewrite Hhost, str_prefix_app.
  rewrite <- (str_app_assoc prefix id suffix) at 1.
  rewrite str_contains_app, !str_length_app.
  replace (_ <=? _)%nat with true by (symmetry; apply Nat.leb_le; lia).
  cbn [andb]. unfold Str.sliceBack.
  destruct (String.length suffix) as [|n] eqn:En.
  { destruct suffix; [now destruct Hsuffix | discriminate]. }
  cbn [Nat.eqb]. rewrite !str_length_app, En.
  replace (String.length prefix + (String.length id + S n) - S n - String.length prefix)%nat
    with (String.length id) by lia.
  rewrite substring_skip, substring_take, Hid. reflexivity.
Qed.

Lemma matchWildcardHost_makeWildcardHost_witness :
  Hosts.matchWildcardHost "" ".sandstorm.example:6080"
    (Hosts.makeWildcardHost "" ".sandstorm.example:6080" "api-0123abcd")
  = Some "api-0123abcd"%string.
Proof.
  apply (matchWildcardHost_makeWildcardHost "" ".sandstorm.example:6080" "api-0123abcd").
  - reflexivity.
  - discriminate.
  - reflexivity.
Defined.

(* ===================================================================== *)
(** ** The [Cookie] header *)
(* ===================================================================== *)

Section CookieHeader.

Import Cookies.

Lemma addCookie_session pieces acc :
  sessionOf (fold_left addCookie pieces acc)
  = fold_left sessionStep (map value (List.filter isSession (map parseCookie pieces))) (sessionOf acc).
Proof.
  revert acc. induction pieces as [|piece pieces IH]; intros acc; [reflexivity|].
  cbn [fold_left map List.filter]. rewrite IH.
  unfold addCookie, isSession.
  destruct (String.eqb (key (parseCookie piece)) "sandstorm-sid"); cbn [map fold_left].
  - f_equal. destruct acc as [r|e]; [|reflexivity].
    cbn [sessionOf sessionStep]. now destruct (Js.truthy_string (sessionId r)).
  - f_equal. now destruct acc.
Qed.

Lemma addCookie_others pieces r0 r :
  fold_left addCookie pieces (Returns r0) = Returns r ->
  cookies r
  = cookies r0 ++ List.filter (fun c => negb (isSession c)) (map parseCookie pieces).
Proof.
  revert r0. induction pieces as [|piece pieces IH]; intros r0.
  - cbn. intros [= <-]. now rewrite app_nil_r.
  - cbn [fold_left map List.filter]. unfold addCookie at 2, isSession.
    destruct (String.eqb (key (parseCookie piece)) "sandstorm-sid"); cbn [negb].
    + destruct (Js.truthy_string (sessionId r0)).
      * assert (Hthrows : forall l e, fold_left addCookie l (Throws e) = Throws e)
          by (intros l e; induction l; [reflexivity | assumption]).
        rewrite Hthrows. discriminate.
      * intros H. now rewrite (IH _ H).
    + intros H. rewrite (IH _ H). cbn [cookies]. now rewrite <- app_assoc.
Qed.

End CookieHeader.

(** X28: of the cookies of a request only the values of those named
    [sandstorm-sid] decide the session id, in the way the request handler
    is modelled above; the cookies passed on to the application are the
    others, in the order of the header, so that the session cookie never
    reaches the application. *)
Theorem parseCookies_splits (header : option string) (req : Http.Request) :
  Http.sandstorm_sids req = Cookies.sessionCookies header ->
  Http.parseCookies req
  = Cookies.sessionOf (Cookies.parseCookies header) /\
  forall r, Cookies.parseCookies header = Returns r ->
    Cookies.cookies r
    = List.filter (fun c => negb (String.eqb (Cookies.key c) "sandstorm-sid"))
        (if Js.truthy_string header
         then map Cookies.parseCookie (Str.split ";" (default EmptyString header))
         else []) /\
    Forall (fun c => Cookies.key c <> "sandstorm-sid"%string) (Cookies.cookies r).
Proof.
  intros Hsids. unfold Http.parseCookies. rewrite Hsids.
  unfold Cookies.parseCookies, Cookies.sessionCookies.
  assert (Hfilter : forall l : list Cookies.Cookie,
            Forall (fun c => Cookies.key c <> "sandstorm-sid"%string)
              (List.filter (fun c => negb (String.eqb (Cookies.key c) "sandstorm-sid")) l)).
  { intros l. apply Forall_forall. intros c Hc.
    apply list_elem_of_In, filter_In in Hc as [_ Hc].
    intros E. rewrite E in Hc. discriminate Hc. }
  destruct (Js.truthy_string header).
  - split.
    + symmetry. apply (addCookie_session _ (Returns (Cookies.mkParsed None []))).
    + intros r Hr. apply addCookie_others in Hr. cbn [Cookies.cookies app] in Hr.
      rewrite Hr. split; [reflexivity | apply Hfilter].
  - split; [reflexivity|]. intros r [= <-]. split; [reflexivity | constructor].
Qed.

Lemma parseCookies_splits_witness :
  Http.parseCookies
    (Http.mkRequest "GET" "/" None None None ["abc"%string] true None None false)
  = Cookies.sessionOf (Cookies.parseCookies (Some "lang=en; sandstorm-sid=abc"%string)).
Proof.
  apply (parseCookies_splits (Some "lang=en; sandstorm-sid=abc"%string)
           (Http.mkRequest "GET" "/" None None None ["abc"%string] true None None false)).
  reflexivity.
Defined.

(* ===================================================================== *)
(** ** Entity tags: [composeETag] and [parseETagList] *)
(* ===================================================================== *)

Section EntityTags.

Import ETag.

Lemma escape_scan v rest :
  scanBody (escape v +:+ String quote rest) = Some (escape v, rest).
Proof.
  induction v as [|c v IH]; [reflexivity|].
  cbn [escape].
  destruct (Ascii.eqb_spec c backslash) as [->|Hb]; cbn [orb].
  - rewrite !str_app_cons. cbn [scanBody].
    change (Ascii.eqb backslash quote) with false.
    change (Ascii.eqb backslash backslash) with true.
    change (isLineTerminator backslash) with false. cbn iota.
    now rewrite IH.
  - destruct (Ascii.eqb_spec c quote) as [->|Hq].
    + rewrite !str_app_cons. cbn [scanBody].
      change (Ascii.eqb backslash quote) with false.
      change (Ascii.eqb backslash backslash) with true.
      change (isLineTerminator quote) with false. cbn iota.
      now rewrite IH.
    + rewrite str_app_cons. cbn [scanBody].
      destruct (Ascii.eqb_spec c quote) as [|_]; [contradiction|].
      destruct (Ascii.eqb_spec c backslash) as [|_]; [contradiction|].
      now rewrite IH.
Qed.

Lemma unescape_escape v : unescape (escape v) = v.
Proof.
  induction v as [|c v IH]; [reflexivity|].
  cbn [escape].
  destruct (Ascii.eqb_spec c backslash) as [->|Hb]; cbn [orb].
  - cbn [unescape]. change (Ascii.eqb backslash backslash) with true.
    change (isLineTerminator backslash) with false. cbn iota. now rewrite IH.
  - destruct (Ascii.eqb_spec c quote) as [->|Hq].
    + cbn [unescape]. change (Ascii.eqb backslash backslash) with true.
      change (isLineTerminator quote) with false. cbn iota. now rewrite IH.
    + cbn [unescape].
      destruct (Ascii.eqb_spec c backslash) as [|_]; [contradiction|].
      now rewrite IH.
Qed.

Lemma substring_full s : String.substring 0 (String.length s) s = s.
Proof.
  induction s as [|c s IH]; [reflexivity|].
  cbn [String.length String.substring]. now rewrite IH.
Qed.

Lemma compose_app tag more :
  composeETag tag +:+ more
  = if weak tag
    then String "W" (String "/" (String quote (escape (value tag) +:+ String quote more)))
    else String quote (escape (value tag) +:+ String quote more).
Proof.
  unfold composeETag. destruct (weak tag).
  - change ("W/" +:+ ?x) with (String "W" (String "/" x)).
    now rewrite !str_app_cons, str_app_assoc, str_app_cons, str_app_nil.
  - now rewrite !str_app_cons, str_app_assoc, str_app_cons, str_app_nil.
Qed.

(** A composed tag, followed by the end of the input or by a comma, is
    matched, and the groups are its flag and its escaped value. *)
Lemma matchETag_compose tag more :
  matchETag (composeETag tag +:+ more)
  = match Str.trimStart more with
    | EmptyString => Some (weak tag, escape (value tag), EmptyString)
    | String d rest =>
        if Ascii.eqb d "," then Some (weak tag, escape (value tag), rest) else None
    end.
Proof.
  rewrite compose_app. unfold matchETag.
  destruct (weak tag).
  - set (body := String quote _).
    change (Str.trimStart (String "W" (String "/" body))) with (String "W" (String "/" body)).
    change (String.prefix "W/" (String "W" (String "/" body))) with true. cbn iota.
    change (String.substring 2 (String.length (String "W" (String "/" body)) - 2)
              (String "W" (String "/" body)))
      with (String.substring 0 (String.length body - 0) body).
    rewrite Nat.sub_0_r, substring_full. unfold body.
    change (Ascii.eqb quote quote) with true. cbn iota.
    rewrite escape_scan. reflexivity.
  - set (rest := escape (value tag) +:+ String quote more).
    change (Str.trimStart (String quote rest)) with (String quote rest).
    change (String.prefix "W/" (String quote rest)) with false. cbn iota.
    change (Ascii.eqb quote quote) with true. cbn iota. unfold rest.
    rewrite escape_scan. reflexivity.
Qed.

Lemma trimEnd_quote y :
  Str.trimEnd (y +:+ String quote "") = y +:+ String quote "".
Proof.
  induction y as [|c y IH]; [reflexivity|].
  rewrite str_app_cons. cbn [Str.trimEnd]. rewrite IH.
  destruct y; reflexivity.
Qed.

Lemma joined_cons t t2 rest :
  joined (t :: t2 :: rest) = composeETag t +:+ String "," (String " " (joined (t2 :: rest))).
Proof. reflexivity. Qed.

Lemma compose_shape t :
  exists c x, Str.isSpace c = false /\ composeETag t = String c (x +:+ String quote "").
Proof.
  unfold composeETag. destruct (weak t).
  - exists "W"%char, (String "/" (String quote (escape (value t)))).
    split; [reflexivity|].
    change ("W/" +:+ ?x) with (String "W" (String "/" x)).
    now rewrite !str_app_cons.
  - exists quote, (escape (value t)). now split.
Qed.

(** A list of composed tags starts with [W] or a quote and ends with a
    quote. *)
Lemma joined_shape t rest :
  exists c x, Str.isSpace c = false /\ joined (t :: rest) = String c (x +:+ String quote "").
Proof.
  revert t. induction rest as [|t2 rest IH]; intros t; [apply compose_shape|].
  destruct (IH t2) as (c2 & x2 & _ & E2).
  destruct (compose_shape t) as (c & x & Hc & E).
  exists c, (x +:+ String quote (String "," (String " " (String c2 x2)))).
  split; [exact Hc|].
  rewrite joined_cons, E, E2, str_app_cons. f_equal.
  rewrite !str_app_assoc, !str_app_cons, str_app_nil. reflexivity.
Qed.

Lemma joined_trim t rest : Str.trim (joined (t :: rest)) = joined (t :: rest).
Proof.
  destruct (joined_shape t rest) as (c & x & Hc & ->).
  unfold Str.trim. cbn [Str.trimStart]. rewrite Hc.
  rewrite <- str_app_cons. apply trimEnd_quote.
Qed.

Lemma joined_length t t2 rest :
  (String.length (joined (t2 :: rest)) < String.length (joined (t :: t2 :: rest)))%nat.
Proof.
  rewrite joined_cons, str_length_app. cbn [String.length]. lia.
Qed.

(** The loop on a list of composed tags. *)
Lemma parseLoop_joined tags fuel :
  (String.length (joined tags) < fuel)%nat ->
  parseLoop fuel (joined tags) = Some (Returns tags).
Proof.
  revert fuel. induction tags as [|t rest IH]; intros fuel Hfuel.
  - now destruct fuel.
  - destruct fuel as [|fuel]; [lia|].
    destruct (joined_shape t rest) as (c & x & _ & Eshape).
    assert (Hstep : forall input,
              input = joined (t :: rest) ->
              parseLoop (S fuel) input
              = match matchETag input with
                | None => Some (Throws (Meteor_Error 400 "invalid etag"))
                | Some (isWeak, raw, rest) =>
                    match parseLoop fuel (Str.trim rest) with
                    | Some (Returns tags) =>
                        Some (Returns (mkTag isWeak (unescape raw) :: tags))
                    | other => other
                    end
                end).
    { intros input ->. rewrite Eshape. reflexivity. }
    rewrite (Hstep _ eq_refl). clear Hstep Eshape.
    destruct rest as [|t2 rest].
    + change (joined [t]) with (composeETag t).
      rewrite <- (str_app_nil_r (composeETag t)), matchETag_compose.
      cbn [Str.trimStart]. change (Str.trim "") with ""%string.
      replace (parseLoop fuel "") with (Some (Returns (@nil Tag))) by now destruct fuel.
      rewrite unescape_escape. now destruct t.
    + rewrite joined_cons, matchETag_compose.
      change (Str.trimStart (String "," ?s)) with (String "," s).
      cbn iota. rewrite Ascii.eqb_refl.
      assert (Htrim : Str.trim (String " " (joined (t2 :: rest))) = joined (t2 :: rest)).
      { rewrite <- (joined_trim t2 rest) at 2. reflexivity. }
      rewrite Htrim, IH.
      * rewrite unescape_escape. now destruct t.
      * pose proof (joined_length t t2 rest). lia.
Qed.

Lemma trimStart_length s : (String.length (Str.trimStart s) <= String.length s)%nat.
Proof.
  induction s as [|c s IH]; [reflexivity|].
  cbn [Str.trimStart]. destruct (Str.isSpace c); cbn [String.length]; lia.
Qed.

Lemma trimEnd_length s : (String.length (Str.trimEnd s) <= String.length s)%nat.
Proof.
  induction s as [|c s IH]; [reflexivity|].
  cbn [Str.trimEnd]. destruct (Str.trimEnd s).
  - destruct (Str.isSpace c); cbn [String.length]; lia.
  - cbn [String.length] in *. lia.
Qed.

Lemma trim_length s : (String.length (Str.trim s) <= String.length s)%nat.
Proof.
  unfold Str.trim. pose proof (trimEnd_length (Str.trimStart s)).
  pose proof (trimStart_length s). lia.
Qed.

Lemma scanBody_length n s raw rest :
  (String.length s <= n)%nat ->
  scanBody s = Some (raw, rest) -> (String.length rest < String.length s)%nat.
Proof.
  revert s raw rest. induction n as [|n IH]; intros s raw rest Hn.
  - destruct s; [discriminate | cbn in Hn; lia].
  - destruct s as [|c s]; [discriminate|]. cbn [scanBody String.length] in *.
    destruct (Ascii.eqb c quote); [intros [= _ <-]; lia|].
    destruct (Ascii.eqb c backslash).
    + destruct s as [|d s]; [discriminate|].
      destruct (isLineTerminator d); [discriminate|].
      destruct (scanBody s) as [[raw' rest']|] eqn:E; [|discriminate].
      intros [= _ <-]. cbn [String.length] in *.
      destruct n as [|n]; [lia|].
      pose proof (IH s raw' rest' ltac:(lia) E). lia.
    + destruct (scanBody s) as [[raw' rest']|] eqn:E; [|discriminate].
      intros [= _ <-]. pose proof (IH s raw' rest' ltac:(lia) E). lia.
Qed.

Lemma substring_le n m s : (String.length (String.substring n m s) <= String.length s)%nat.
Proof.
  revert n m. induction s as [|c s IH]; intros n m.
  - destruct n, m; cbn; lia.
  - destruct n as [|n]; cbn [String.substring String.length].
    + destruct m as [|m]; cbn [String.length]; [lia|]. pose proof (IH 0%nat m). lia.
    + pose proof (IH n m). lia.
Qed.

(** A match consumes at least one character. *)
Lemma matchETag_length input isWeak raw rest :
  matchETag input = Some (isWeak, raw, rest) ->
  (String.length rest < String.length input)%nat.
Proof.
  unfold matchETag.
  pose proof (trimStart_length input) as Hstart.
  set (s0 := Str.trimStart input) in *.
  assert (Hs : (String.length (if String.prefix "W/" s0
                               then String.substring 2 (String.length s0 - 2) s0 else s0)
                <= String.length input)%nat).
  { destruct (String.prefix "W/" s0); [|exact Hstart].
    pose proof (substring_le 2 (String.length s0 - 2) s0). lia. }
  destruct (if String.prefix "W/" s0 then _ else s0) as [|c s]; [discriminate|].
  destruct (Ascii.eqb c quote); [|discriminate].
  destruct (scanBody s) as [[raw' rest']|] eqn:E; [|discriminate].
  pose proof (scanBody_length _ s raw' rest' (le_n _) E) as Hscan.
  pose proof (trimStart_length rest') as Hrest.
  cbn [String.length] in Hs.
  destruct (Str.trimStart rest') as [|d rest''].
  - intros [= _ _ <-]. cbn [String.length]. lia.
  - destruct (Ascii.eqb d ","); [|discriminate].
    intros [= _ _ <-]. cbn [String.length] in Hrest. lia.
Qed.

Lemma parseLoop_ends fuel input :
  (String.length input < fuel)%nat -> parseLoop fuel input <> None.
Proof.
  revert input. induction fuel as [|fuel IH]; intros input Hfuel; [lia|].
  destruct input as [|c input]; [discriminate|].
  cbn [parseLoop].
  destruct (matchETag (String c input)) as [[[isWeak raw] rest]|] eqn:E; [|discriminate].
  apply matchETag_length in E. pose proof (trim_length rest) as Ht.
  specialize (IH (Str.trim rest) ltac:(lia)).
  destruct (parseLoop fuel (Str.trim rest)) as [[tags|e]|]; [discriminate | discriminate|].
  now destruct IH.
Qed.

End EntityTags.

(** X29: the loop of [parseETagList] ends on every input; and a header
    that lists tags written by [composeETag], separated by a comma and a
    space, is parsed back to these tags, in order, whatever characters
    their values hold. *)
Theorem parseETagList_composeETag :
  (forall input, ETag.parseETagList input <> None) /\
  (forall tags,
     ETag.parseETagList (String.concat ", " (map ETag.composeETag tags))
     = Some (Returns tags)).
Proof.
  split.
  - intros input. unfold ETag.parseETagList. apply parseLoop_ends.
    pose proof (trim_length input). lia.
  - intros tags. unfold ETag.parseETagList. fold (ETag.joined tags).
    destruct tags as [|t rest]; [reflexivity|].
    rewrite joined_trim. apply parseLoop_joined. lia.
Qed.

(* ===================================================================== *)
(** ** Revocation: [clearSessionsAndProxies] *)
(* ===================================================================== *)

Section Revoking.

Import Revocation.

(** The API proxies of a list of tokens are removed and closed. *)
Lemma forgetTokens tokens g :
  let g' := fold_left forgetToken tokens g in
  table g' = table g /\
  ApiProxy.db (api g') = ApiProxy.db (api g) /\
  (forall tok par r,
     ApiSessionProxies.cached (ApiProxy.proxies (api g')) tok par r <->
     ApiSessionProxies.cached (ApiProxy.proxies (api g)) tok par r /\
     tok ∉ map _id tokens) /\
  closedSince (ApiProxy.objects (api g)) (ApiProxy.objects (api g')) /\
  (forall t par r p,
     t ∈ tokens ->
     ApiSessionProxies.cached (ApiProxy.proxies (api g)) (_id t) par r ->
     ApiProxy.objects (api g) !! r = Some p ->
     ApiProxy.objects (api g') !! r = Some (fst (ProxyClass.close p))) /\
  (forall r,
     (forall t par, t ∈ tokens ->
        ~ ApiSessionProxies.cached (ApiProxy.proxies (api g)) (_id t) par r) ->
     ApiProxy.objects (api g') !! r = ApiProxy.objects (api g) !! r).
Proof.
  revert g. induction tokens as [|a tokens IH]; intros g; cbn zeta.
  - cbn [fold_left map].
    split; [reflexivity|]. split; [reflexivity|]. split; [|split].
    + intros tok par r. split; [|tauto].
      intros Hc. split; [exact Hc | apply not_elem_of_nil].
    + apply closedSince_refl.
    + split; [|reflexivity]. intros t par r p Ht. now apply elem_of_nil in Ht.
  - cbn [fold_left]. specialize (IH (forgetToken g a)). cbn zeta in IH.
    destruct IH as (Ht & Hd & Hc & Hs & Hclose & Hframe).
    destruct (removeProxiesOfToken_spec (_id a) (ApiProxy.proxies (api g))
                (ApiProxy.objects (api g))) as (S1 & S2 & S3 & S4).
    pose proof (removeProxiesOfToken_closedSince (_id a) (ApiProxy.proxies (api g))
                  (ApiProxy.objects (api g))) as S5.
    cbn zeta in *. unfold forgetToken in Ht, Hd, Hc, Hs, Hclose, Hframe at 1.
    cbn [table api ApiProxy.db ApiProxy.proxies ApiProxy.objects] in *.
    split; [exact Ht|]. split; [exact Hd|].
    split; [|split; [|split]].
    + intros tok par r. rewrite Hc. cbn [map]. rewrite not_elem_of_cons.
      destruct (decide (tok = _id a)) as [->|Hne].
      * split; [intros [H _]; now apply S1 in H | intros [_ [H _]]; now destruct H].
      * rewrite (S2 tok par r Hne). tauto.
    + eapply closedSince_trans; [exact S5 | exact Hs].
    + intros t par r p Hin Hcached Hp.
      destruct (decide (_id t = _id a)) as [E|Hne].
      * rewrite E in Hcached.
        apply (closedSince_closed _ _ _ _ Hs). now apply (S3 par r p).
      * apply elem_of_cons in Hin as [->|Hin]; [now destruct Hne|].
        destruct (closedSince_object _ _ r p S5 Hp) as [Hp1|Hp1].
        -- apply (Hclose t par r p Hin); [|exact Hp1]. now apply S2.
        -- now apply (closedSince_closed _ _ _ _ Hs).
    + intros r Hout. rewrite Hframe.
      * apply S4. intros par. apply (Hout a par). apply elem_of_cons. now left.
      * intros t par Hin Hcached.
        destruct (decide (_id t = _id a)) as [E|Hne].
        -- rewrite E in Hcached. now apply S1 in Hcached.
        -- apply (Hout t par); [apply elem_of_cons; now right|]. now apply S2 in Hcached.
Qed.

(** The proxies of a list of sessions are closed and their table entries
    deleted. *)
Lemma closeSessions found g :
  (forall s, s ∈ found -> HostTable.inherited (session_hostId s) = false) ->
  exists g',
    fold_left closeSession found (None, g) = (None, g') /\
    ApiProxy.db (api g') = ApiProxy.db (api g) /\
    ApiProxy.proxies (api g') = ApiProxy.proxies (api g) /\
    (forall h, table g' !! h
               = if decide (h ∈ map session_hostId found) then None else table g !! h) /\
    closedSince (ApiProxy.objects (api g)) (ApiProxy.objects (api g')) /\
    (forall s r p,
       s ∈ found ->
       table g !! session_hostId s = Some (Some r) ->
       ApiProxy.objects (api g) !! r = Some p ->
       ApiProxy.objects (api g') !! r = Some (fst (ProxyClass.close p))) /\
    (forall r,
       (forall s, s ∈ found -> table g !! session_hostId s <> Some (Some r)) ->
       ApiProxy.objects (api g') !! r = ApiProxy.objects (api g) !! r).
Proof.
  revert g. induction found as [|s found IH]; intros g Hni.
  - exists g. cbn [fold_left map].
    split; [reflexivity|]. split; [reflexivity|]. split; [reflexivity|].
    split; [|split].
    + intros h. case_decide as H; [now apply elem_of_nil in H | reflexivity].
    + apply closedSince_refl.
    + split; [|reflexivity]. intros s r p Hs. now apply elem_of_nil in Hs.
  - cbn [fold_left].
    assert (Hstep : exists g1,
              closeSession (None, g) s = (None, g1) /\
              ApiProxy.db (api g1) = ApiProxy.db (api g) /\
              ApiProxy.proxies (api g1) = ApiProxy.proxies (api g) /\
              table g1 = delete (session_hostId s) (table g) /\
              closedSince (ApiProxy.objects (api g)) (ApiProxy.objects (api g1)) /\
              (forall r p, table g !! session_hostId s = Some (Some r) ->
                 ApiProxy.objects (api g) !! r = Some p ->
                 ApiProxy.objects (api g1) !! r = Some (fst (ProxyClass.close p))) /\
              (forall r, table g !! session_hostId s <> Some (Some r) ->
                 ApiProxy.objects (api g1) !! r = ApiProxy.objects (api g) !! r)).
    { unfold closeSession, HostTable.get.
      rewrite (Hni s) by (apply elem_of_cons; now left).
      destruct (table g !! session_hostId s) as [[r0|]|] eqn:E.
      - eexists. split; [reflexivity|]. cbn [api table ApiProxy.db ApiProxy.proxies
                                               ApiProxy.objects].
        split; [reflexivity|]. split; [reflexivity|]. split; [reflexivity|].
        split; [apply closedSince_close_ref|]. split.
        + intros r p [= <-] Hp. rewrite close_ref_lookup, decide_True, Hp by done.
          reflexivity.
        + intros r Hne. rewrite close_ref_lookup, decide_False; [reflexivity|].
          intros <-. now apply Hne.
      - eexists. split; [reflexivity|]. cbn [api table].
        split; [reflexivity|]. split; [reflexivity|]. split; [reflexivity|].
        split; [apply closedSince_refl|]. split; [discriminate | reflexivity].
      - eexists. split; [reflexivity|]. cbn [api table].
        split; [reflexivity|]. split; [reflexivity|]. split; [reflexivity|].
        split; [apply closedSince_refl|]. split; [discriminate | reflexivity]. }
    destruct Hstep as (g1 & -> & Hd1 & Hc1 & Ht1 & Hs1 & Hclose1 & Hframe1).
    destruct (IH g1) as (g' & Hfold & Hd & Hc & Ht & Hs & Hclose & Hframe).
    { intros s' Hs'. apply Hni. apply elem_of_cons. now right. }
    exists g'. split; [exact Hfold|].
    split; [congruence|]. split; [congruence|].
    split; [|split; [|split]].
    + intros h. rewrite Ht, Ht1. cbn [map].
      destruct (decide (h = session_hostId s)) as [->|Hne].
      * rewrite lookup_delete_eq.
        rewrite (decide_True (P := _ ∈ _ :: _)) by (apply elem_of_cons; now left).
        now destruct (decide _).
      * rewrite lookup_delete_ne by done.
        destruct (decide (h ∈ map session_hostId found)) as [Hin|Hout].
        -- rewrite decide_True; [reflexivity | apply elem_of_cons; now right].
        -- rewrite decide_False; [reflexivity|].
           intros [?|?]%elem_of_cons; contradiction.
    + eapply closedSince_trans; [exact Hs1 | exact Hs].
    + intros s0 r p Hin Htab Hp.
      destruct (decide (session_hostId s0 = session_hostId s)) as [E|Hne].
      * rewrite E in Htab. apply (closedSince_closed _ _ _ _ Hs).
        now apply Hclose1.
      * apply elem_of_cons in Hin as [->|Hin]; [now destruct Hne|].
        destruct (closedSince_object _ _ r p Hs1 Hp) as [Hp1|Hp1].
        -- apply (Hclose s0 r p Hin); [|exact Hp1].
           rewrite Ht1, lookup_delete_ne by done. exact Htab.
        -- now apply (closedSince_closed _ _ _ _ Hs).
    + intros r Hout. rewrite Hframe.
      * apply Hframe1. apply Hout. apply elem_of_cons. now left.
      * intros s0 Hin. rewrite Ht1.
        destruct (decide (session_hostId s0 = session_hostId s)) as [E|Hne].
        -- rewrite E, lookup_delete_eq. discriminate.
        -- rewrite lookup_delete_ne by done. apply Hout. apply elem_of_cons. now right.
Qed.

End Revoking.

(** X30: [clearSessionsAndProxies] leaves no API proxy cached for the
    token or a token downstream of it and keeps every other cache entry,
    removes the selected sessions and their table entries and keeps the
    others, and closes every proxy it drops; a Proxy object that was
    neither cached for one of these tokens nor in the table for one of
    these sessions is left exactly as it was.  Afterwards a request with
    the token, once it is revoked in the database, is validated again and
    refused.  (The function throws only for a session host id that is a
    name inherited by the table.) *)
Theorem clearSessionsAndProxies_revokes
    (downstreamTokens : ApiToken -> list ApiToken) (ownerUser : ApiToken -> option string)
    (token : ApiToken) (g : Revocation.gateway) :
  let affected := Revocation.affected downstreamTokens token in
  let selected :=
    Revocation.selected token (Revocation.identityIds downstreamTokens ownerUser token)
                        (Revocation.tokenIds downstreamTokens token) in
  let before := Revocation.api g in
  (forall s, s ∈ Sessions (ApiProxy.db before) ->
             HostTable.inherited (session_hostId s) = false) ->
  exists g',
    Revocation.clearSessionsAndProxies downstreamTokens ownerUser token g = (None, g') /\
    (forall tok par r,
       ApiSessionProxies.cached (ApiProxy.proxies (Revocation.api g')) tok par r <->
       ApiSessionProxies.cached (ApiProxy.proxies before) tok par r /\
       tok ∉ map _id affected) /\
    Sessions (ApiProxy.db (Revocation.api g'))
    = List.filter (fun s => negb (selected s)) (Sessions (ApiProxy.db before)) /\
    ApiTokens (ApiProxy.db (Revocation.api g')) = ApiTokens (ApiProxy.db before) /\
    (forall h,
       Revocation.table g' !! h
       = if decide (h ∈ map session_hostId
                          (List.filter selected (Sessions (ApiProxy.db before))))
         then None else Revocation.table g !! h) /\
    closedSince (ApiProxy.objects before) (ApiProxy.objects (Revocation.api g')) /\
    (forall t par r p,
       t ∈ affected ->
       ApiSessionProxies.cached (ApiProxy.proxies before) (_id t) par r ->
       ApiProxy.objects before !! r = Some p ->
       ApiProxy.objects (Revocation.api g') !! r = Some (fst (ProxyClass.close p))) /\
    (forall s r p,
       s ∈ Sessions (ApiProxy.db before) -> selected s = true ->
       Revocation.table g !! session_hostId s = Some (Some r) ->
       ApiProxy.objects before !! r = Some p ->
       ApiProxy.objects (Revocation.api g') !! r = Some (fst (ProxyClass.close p))) /\
    (forall r,
       (forall t par, t ∈ affected ->
          ~ ApiSessionProxies.cached (ApiProxy.proxies before) (_id t) par r) ->
       (forall s, s ∈ Sessions (ApiProxy.db before) -> selected s = true ->
          Revocation.table g !! session_hostId s <> Some (Some r)) ->
       ApiProxy.objects (Revocation.api g') !! r = ApiProxy.objects before !! r) /\
    (forall mayOpenGrain hasUserInfo par now0 now t,
       ApiTokens (ApiProxy.db before) !! _id token = Some t ->
       revoked t = true ->
       ApiProxy.getProxyForApiToken mayOpenGrain hasUserInfo (_id token) par now0 now
                                    (Revocation.api g')
       = (Throws (thrown TokenRevoked), Revocation.api g')).
Proof.
  cbn zeta. intros Hni.
  unfold Revocation.clearSessionsAndProxies.
  set (sel := Revocation.selected token _ _).
  destruct (forgetTokens (Revocation.affected downstreamTokens token) g)
    as (Ht1 & Hd1 & Hc1 & Hs1 & Hclose1 & Hframe1). cbn zeta in *.
  set (g1 := fold_left Revocation.forgetToken _ g) in *.
  destruct (closeSessions (List.filter sel (Sessions (ApiProxy.db (Revocation.api g1)))) g1)
    as (g2 & Hfold & Hd2 & Hc2 & Ht2 & Hs2 & Hclose2 & Hframe2).
  { intros s Hs. apply Hni. rewrite <- Hd1.
    apply list_elem_of_In, filter_In in Hs as [Hs _]. now apply list_elem_of_In. }
  rewrite Hfold. eexists. split; [reflexivity|].
  cbn [Revocation.api Revocation.table ApiProxy.db ApiProxy.proxies ApiProxy.objects
       Revocation.set_sessions Sessions ApiTokens].
  split; [intros tok par r; rewrite Hc2; apply Hc1|].
  split; [now rewrite Hd2, Hd1|].
  split; [now rewrite Hd2, Hd1|].
  split; [intros h; now rewrite Ht2, Ht1, Hd1|].
  split; [eapply closedSince_trans; [exact Hs1 | exact Hs2]|].
  split; [|split; [|split]].
  - intros t par r p Hin Hcached Hp.
    apply (closedSince_closed _ _ _ _ Hs2). now apply (Hclose1 t par r p).
  - intros s r p Hin Hsel Htab Hp.
    destruct (closedSince_object _ _ r p Hs1 Hp) as [Hp1|Hp1].
    + apply (Hclose2 s r p); [| now rewrite Ht1 | exact Hp1].
      apply list_elem_of_In, filter_In. split; [|exact Hsel].
      rewrite Hd1. now apply list_elem_of_In.
    + now apply (closedSince_closed _ _ _ _ Hs2).
  - intros r Hcache Htable. rewrite Hframe2; [now apply Hframe1|].
    intros s Hin. apply list_elem_of_In, filter_In in Hin as [Hin Hsel].
    rewrite Ht1. apply Htable; [|exact Hsel].
    rewrite <- Hd1. now apply list_elem_of_In.
  - intros mayOpenGrain hasUserInfo par now0 now t Ht Hrev.
    assert (Hnone : forall r, ~ ApiSessionProxies.cached
                                  (ApiProxy.proxies (Revocation.api g2)) (_id token) par r).
    { intros r Hc. rewrite Hc2 in Hc. apply Hc1 in Hc as [_ Hout]. apply Hout.
      unfold Revocation.affected. rewrite map_app. apply elem_of_app. right.
      apply elem_of_cons. now left. }
    unfold ApiProxy.getProxyForApiToken. cbn [ApiProxy.proxies ApiProxy.db ApiProxy.objects].
    rewrite get_miss.
    2:{ destruct (get_spec (_id token) par (ApiProxy.proxies (Revocation.api g2)))
          as (-> & _).
        destruct (ApiSessionProxies.lookup _ (_id token) par) as [r|] eqn:En.
        - exfalso. apply (Hnone r). now left.
        - destruct (ApiSessionProxies.lookup
                      (ApiSessionProxies.oldBucket _) (_id token) par) as [r|] eqn:Eo;
            [|reflexivity].
          exfalso. apply (Hnone r). now right. }
    unfold ApiProxy.construct, ApiTokens_findOne.
    cbn [ApiTokens Revocation.set_sessions].
    rewrite Hd2, Hd1, Ht. unfold validateWebkey. rewrite Hrev.
    reflexivity.
Qed.

Lemma clearSessionsAndProxies_revokes_witness :
  exists g',
    Revocation.clearSessionsAndProxies (fun _ => []) (fun _ => None)
      sample_token webkey_gateway = (None, g') /\
    Revocation.table g' !! "a1b2c3"%string = None /\
    ApiProxy.getProxyForApiToken (fun _ _ => true) (fun _ => false) "h4sh" "par" 0 0
                                 (Revocation.api g')
    = (Throws (thrown TokenRevoked), Revocation.api g').
Proof.
  destruct (clearSessionsAndProxies_revokes (fun _ => []) (fun _ => None)
              sample_token webkey_gateway)
    as (g' & E & _ & _ & _ & Ht & _ & _ & _ & _ & Hre).
  - intros s Hs. apply elem_of_cons in Hs as [->|Hs]; [reflexivity|].
    now apply elem_of_nil in Hs.
  - exists g'. split; [exact E|]. split.
    + rewrite Ht. reflexivity.
    + apply (Hre (fun _ _ => true) (fun _ => false) "par"%string 0 0
                 (set_revoked true sample_token)); reflexivity.
Defined.
